(** * The receipt log of odin-gateway-cloud-lite

    A shallow embedding of [app/utils.py] (canonical encoder, content
    address) and [app/receipts.py] (file-backed store, remote store,
    caching decorator, store selector), and the properties of the receipt
    log proved or refuted on it.

    Conventions of the embedding.
    - A Python [str] is a Rocq [string] holding its UTF-8 encoding, so
      [.encode("utf-8")] is the identity and a file holds the very bytes
      the model manipulates.  Python orders strings by code point, and
      byte order on UTF-8 agrees with code point order.
    - A JSON document is a [json] tree.  Numbers are the integers: a
      number with a fraction or an exponent, [NaN] and [Infinity] (the
      Python floats) are outside the model and [json_loads] reports
      them like malformed text.  [Decoder.beyond_model] tells the texts
      that hold one; what is stated of every line of a log is stated
      of the logs without such a line ([modelled_log]).
    - A Python [dict] with string keys is an association list in insertion
      order, without repeated keys.
    - A Python exception is a [Raise] outcome carrying the exception class;
      [try/except Exception] is a match on the outcome.
    - [json.dumps], [json.loads], [str.splitlines], [str.strip] and
      [hashlib.sha256] are modelled character by character; the log file
      always decodes, and the only failure of opening it is its absence.
      The limits of the interpreter (recursion depth, the length of the
      decimal text of an integer that is written) are not modelled.
    - A [datetime] is a number of microseconds, without bounds: the
      [OverflowError] of a cutoff before the year 1 is not raised by
      [minus_seconds]; [ReceiptStore.cutoff_exists] tells when the
      cutoff is a [datetime].  A string with a lone surrogate, which
      [.encode("utf-8")] refuses, is held in the three-byte form. *)

From Stdlib Require Import String Ascii ZArith NArith List Bool Lia.
From Stdlib Require Import Permutation Sorted DecimalString Decimal.
From Stdlib Require DecimalFacts DecimalPos DecimalZ.
Import ListNotations.

Local Open Scope list_scope.
Local Open Scope string_scope.

(* ================================================================== *)
(** * Definitions *)
(* ================================================================== *)

(** ** Outcomes of Python calls *)

Inductive exn : Type :=
| JSONDecodeError
| AttributeError
| TypeError
| ValueError
| RuntimeError.

Inductive outcome (A : Type) : Type :=
| Ret (a : A)
| Raise (e : exn).
Arguments Ret {A} a.
Arguments Raise {A} e.

Definition obind {A B} (o : outcome A) (k : A -> outcome B) : outcome B :=
  match o with
  | Ret a => k a
  | Raise e => Raise e
  end.

Notation "'let!' x ':=' o 'in' k" := (obind o (fun x => k))
  (at level 10, x name, o at level 100, k at level 200).

(** ** Text *)

Module Text.

Definition code (c : ascii) : N := N_of_ascii c.

Definition LF : ascii := ascii_of_N 10.
Definition quote : ascii := ascii_of_N 34.
Definition backslash : ascii := ascii_of_N 92.

Definition str1 (c : ascii) : string := String c EmptyString.

(** The one-byte line boundaries of [str.splitlines] other than CR:
    LF, VT, FF, FS, GS and RS. *)
Definition is_break1 (c : ascii) : bool :=
  let n := code c in
  (n =? 10)%N || (n =? 11)%N || (n =? 12)%N
  || (n =? 28)%N || (n =? 29)%N || (n =? 30)%N.

Definition is_cr (c : ascii) : bool := (code c =? 13)%N.

(** U+0085 NEXT LINE is C2 85 in UTF-8. *)
Definition is_nel (c1 c2 : ascii) : bool :=
  (code c1 =? 194)%N && (code c2 =? 133)%N.

(** U+2028 LINE SEPARATOR and U+2029 PARAGRAPH SEPARATOR are E2 80 A8
    and E2 80 A9. *)
Definition is_lsep (c1 c2 c3 : ascii) : bool :=
  (code c1 =? 226)%N && (code c2 =? 128)%N
  && ((code c3 =? 168)%N || (code c3 =? 169)%N).

(** [str.splitlines()]: [cur] is the line read so far.  A line is closed
    at every boundary; what follows the last boundary is a line only
    when it is not empty. *)
Fixpoint splitlines_from (cur s : string) : list string :=
  match s with
  | EmptyString =>
      match cur with EmptyString => [] | _ => [cur] end
  | String c1 r1 =>
      if is_break1 c1 then cur :: splitlines_from "" r1
      else if is_cr c1 then
        match r1 with
        | String c2 r2 =>
            if (code c2 =? 10)%N then cur :: splitlines_from "" r2
            else cur :: splitlines_from "" r1
        | EmptyString => cur :: splitlines_from "" r1
        end
      else
        match r1 with
        | String c2 r2 =>
            if is_nel c1 c2 then cur :: splitlines_from "" r2
            else
              match r2 with
              | String c3 r3 =>
                  if is_lsep c1 c2 c3 then cur :: splitlines_from "" r3
                  else splitlines_from (cur ++ str1 c1) r1
              | EmptyString => splitlines_from (cur ++ str1 c1) r1
              end
        | EmptyString => splitlines_from (cur ++ str1 c1) r1
        end
  end.

Definition splitlines (s : string) : list string := splitlines_from "" s.

(** The one-byte characters for which [str.isspace] holds. *)
Definition is_space1 (c : ascii) : bool :=
  let n := code c in
  ((9 <=? n)%N && (n <=? 13)%N) || ((28 <=? n)%N && (n <=? 32)%N).

(** U+0085 and U+00A0. *)
Definition is_space2 (c1 c2 : ascii) : bool :=
  (code c1 =? 194)%N && ((code c2 =? 133)%N || (code c2 =? 160)%N).

(** U+1680, U+2000..U+200A, U+2028, U+2029, U+202F, U+205F, U+3000. *)
Definition is_space3 (c1 c2 c3 : ascii) : bool :=
  let a := code c1 in
  let b := code c2 in
  let c := code c3 in
  ((a =? 225)%N && (b =? 154)%N && (c =? 128)%N)
  || ((a =? 226)%N && (b =? 128)%N
      && (((128 <=? c)%N && (c <=? 138)%N)
          || (c =? 168)%N || (c =? 169)%N || (c =? 175)%N))
  || ((a =? 226)%N && (b =? 129)%N && (c =? 159)%N)
  || ((a =? 227)%N && (b =? 128)%N && (c =? 128)%N).

(** [s.strip() == ""]: every character of [s] is white space. *)
Fixpoint all_space (s : string) : bool :=
  match s with
  | EmptyString => true
  | String c1 r1 =>
      if is_space1 c1 then all_space r1
      else
        match r1 with
        | String c2 r2 =>
            if is_space2 c1 c2 then all_space r2
            else
              match r2 with
              | String c3 r3 =>
                  if is_space3 c1 c2 c3 then all_space r3 else false
              | EmptyString => false
              end
        | EmptyString => false
        end
  end.

(** The text [s] with every apostrophe turned into a double quote: JSON
    text is written below with apostrophes around its strings. *)
Fixpoint dq (s : string) : string :=
  match s with
  | EmptyString => EmptyString
  | String c r => String (if (code c =? 39)%N then quote else c) (dq r)
  end.

(** ["\n".join(lines)] *)
Fixpoint join_lines (lines : list string) : string :=
  match lines with
  | [] => ""
  | [l] => l
  | l :: rest => l ++ str1 LF ++ join_lines rest
  end.

End Text.

(** ** JSON values and Python dictionaries *)

#[warnings="-register-all"]
Inductive json : Type :=
| JNull
| JBool (b : bool)
| JInt (n : Z)
| JStr (s : string)
| JArr (xs : list json)
| JObj (kvs : list (string * json)).

(** A [dict] with string keys, in insertion order. *)
Definition dict : Type := list (string * json).

Module Dict.
Section Generic.
Context {A : Type}.

(** [d.get(k)], [None] when the key is missing. *)
Fixpoint get (k : string) (d : list (string * A)) : option A :=
  match d with
  | [] => None
  | (k', v) :: d' => if String.eqb k k' then Some v else get k d'
  end.

(** [k in d] *)
Definition mem (k : string) (d : list (string * A)) : bool :=
  match get k d with Some _ => true | None => false end.

(** [d[k] = v]: an existing key keeps its place, a new key goes
    last. *)
Fixpoint set (k : string) (v : A) (d : list (string * A))
  : list (string * A) :=
  match d with
  | [] => [(k, v)]
  | (k', v') :: d' =>
      if String.eqb k k' then (k', v) :: d' else (k', v') :: set k v d'
  end.

(** [{k: v for k, v in d.items() if k != x}], which is also what
    [d.pop(x, None)] leaves. *)
Definition without (x : string) (d : list (string * A))
  : list (string * A) :=
  filter (fun kv => negb (String.eqb (fst kv) x)) d.

(** The dictionary built from a sequence of pairs, as [json.loads]
    builds an object: a repeated key keeps its first place and its
    last value. *)
Definition of_pairs (kvs : list (string * A)) : list (string * A) :=
  fold_left (fun d kv => set (fst kv) (snd kv) d) kvs [].
End Generic.

(** [d.get(k)] as Python sees it: a missing key reads as [None]. *)
Definition get_or_none (k : string) (d : dict) : json :=
  match get k d with Some v => v | None => JNull end.

(** [d.get(k, dflt)] *)
Definition get_default (k : string) (dflt : json) (d : dict) : json :=
  match get k d with Some v => v | None => dflt end.

End Dict.

(** [x.get], which only a dictionary has. *)
Definition as_dict (v : json) : outcome dict :=
  match v with
  | JObj d => Ret d
  | _ => Raise AttributeError
  end.

(** ** Python comparison of JSON values *)

Module Py.

(** [bool] is a subclass of [int]: [True == 1]. *)
Definition as_number (v : json) : option Z :=
  match v with
  | JInt n => Some n
  | JBool true => Some 1%Z
  | JBool false => Some 0%Z
  | _ => None
  end.

(** [a == b] *)
Fixpoint eq (a b : json) {struct a} : bool :=
  match a, b with
  | JNull, JNull => true
  | JBool x, JBool y => Bool.eqb x y
  | JBool x, JInt n => (if x then 1 else 0) =? n
  | JInt n, JBool y => n =? (if y then 1 else 0)
  | JInt n, JInt m => n =? m
  | JStr s, JStr t => String.eqb s t
  | JArr xs, JArr ys =>
      (fix eq_list (xs ys : list json) {struct xs} : bool :=
         match xs, ys with
         | [], [] => true
         | x :: xs', y :: ys' => eq x y && eq_list xs' ys'
         | _, _ => false
         end) xs ys
  | JObj d1, JObj d2 =>
      (length d1 =? length d2)%nat
      && (fix sub (d : list (string * json)) {struct d} : bool :=
            match d with
            | [] => true
            | (k, v) :: d' =>
                match Dict.get k d2 with
                | Some w => eq v w && sub d'
                | None => false
                end
            end) d1
  | _, _ => false
  end%Z.

(** [a < b]; the classes that do not order raise [TypeError]. *)
Fixpoint lt (a b : json) {struct a} : outcome bool :=
  match a, b with
  | JStr s, JStr t => Ret (String.ltb s t)
  | JArr xs, JArr ys =>
      (fix lt_list (xs ys : list json) {struct xs} : outcome bool :=
         match xs, ys with
         | [], [] => Ret false
         | [], _ :: _ => Ret true
         | _ :: _, [] => Ret false
         | x :: xs', y :: ys' =>
             if eq x y then lt_list xs' ys' else lt x y
         end) xs ys
  | _, _ =>
      match as_number a, as_number b with
      | Some n, Some m => Ret (n <? m)%Z
      | _, _ => Raise TypeError
      end
  end.

(** [(a1, a2) < (b1, b2)] on tuples: the first place where the two are
    not equal decides. *)
Definition lt_pair (a b : json * json) : outcome bool :=
  if negb (eq (fst a) (fst b)) then lt (fst a) (fst b)
  else if negb (eq (snd a) (snd b)) then lt (snd a) (snd b)
  else Ret false.

(** [bool(v)] *)
Definition truthy (v : json) : bool :=
  match v with
  | JNull => false
  | JBool b => b
  | JInt n => negb (n =? 0)%Z
  | JStr s => negb (String.eqb s "")
  | JArr xs => match xs with [] => false | _ => true end
  | JObj d => match d with [] => false | _ => true end
  end.

Section Sort.
Context {A K : Type} (key : A -> K) (less : K -> K -> outcome bool).

(** [x] goes in front of the first element that is not below it, so
    that equal keys keep their order: the sort is stable.  Python asks
    only [<]; a comparison that raises ends the sort.  Which pairs
    Python compares depends on its algorithm: the model agrees with it
    wherever no pair of keys raises (the stable sorted order is unique)
    and on two elements (one comparison, the second key against the
    first), and the properties below use it there only. *)
Fixpoint insert (x : A) (l : list A) : outcome (list A) :=
  match l with
  | [] => Ret [x]
  | y :: l' =>
      let! b := less (key y) (key x) in
      if b then
        let! r := insert x l' in Ret (y :: r)
      else Ret (x :: y :: l')
  end.

(** [l.sort(key=key)] *)
Fixpoint sort (l : list A) : outcome (list A) :=
  match l with
  | [] => Ret []
  | x :: l' => let! s := sort l' in insert x s
  end.
End Sort.

End Py.

(** ** [json.dumps] *)

Module Encoder.
Import Text.

(** A lower-case hexadecimal digit. *)
Definition hexdigit (n : N) : ascii :=
  if (n <? 10)%N then ascii_of_N (48 + n) else ascii_of_N (87 + n).

(** What [json.dumps(..., ensure_ascii=False)] writes for one byte of a
    string: the short escapes, [\u00xx] for the other control
    characters, and every other byte as it is. *)
Definition escape_char (c : ascii) : string :=
  let n := code c in
  if (n =? 34)%N then String backslash (str1 quote)
  else if (n =? 92)%N then String backslash (str1 backslash)
  else if (n =? 10)%N then String backslash "n"
  else if (n =? 13)%N then String backslash "r"
  else if (n =? 9)%N then String backslash "t"
  else if (n =? 8)%N then String backslash "b"
  else if (n =? 12)%N then String backslash "f"
  else if (n <? 32)%N then
    String backslash
      ("u00" ++ String (hexdigit (n / 16)) (str1 (hexdigit (n mod 16))))
  else str1 c.

Fixpoint escape (s : string) : string :=
  match s with
  | EmptyString => ""
  | String c r => escape_char c ++ escape r
  end.

Definition quoted (s : string) : string :=
  String quote (escape s ++ str1 quote).

(** [str(n)] for an integer. *)
Definition decimal (n : Z) : string := NilZero.string_of_int (Z.to_int n).

(** The text of a value with the given separators, members in the order
    of the dictionary. *)
Fixpoint encode (item_sep key_sep : string) (v : json) : string :=
  match v with
  | JNull => "null"
  | JBool true => "true"
  | JBool false => "false"
  | JInt n => decimal n
  | JStr s => quoted s
  | JArr xs =>
      "[" ++
      (fix items (xs : list json) : string :=
         match xs with
         | [] => ""
         | x :: xs' =>
             match xs' with
             | [] => encode item_sep key_sep x
             | _ => encode item_sep key_sep x ++ item_sep ++ items xs'
             end
         end) xs
      ++ "]"
  | JObj kvs =>
      "{" ++
      (fix members (kvs : list (string * json)) : string :=
         match kvs with
         | [] => ""
         | (k, x) :: kvs' =>
             match kvs' with
             | [] => quoted k ++ key_sep ++ encode item_sep key_sep x
             | _ =>
                 quoted k ++ key_sep ++ encode item_sep key_sep x
                 ++ item_sep ++ members kvs'
             end
         end) kvs
      ++ "}"
  end.

(** The members of a dictionary in ascending order of their keys. *)
Fixpoint insert_item (kv : string * json) (l : list (string * json))
  : list (string * json) :=
  match l with
  | [] => [kv]
  | kv' :: l' =>
      if String.leb (fst kv) (fst kv') then kv :: l
      else kv' :: insert_item kv l'
  end.

Definition sort_items (l : list (string * json)) : list (string * json) :=
  fold_right insert_item [] l.

(** [sort_keys=True] orders the members of every dictionary of the
    value, at every depth. *)
Fixpoint sorted_keys (v : json) : json :=
  match v with
  | JArr xs => JArr (map sorted_keys xs)
  | JObj kvs =>
      JObj (sort_items (map (fun kv => (fst kv, sorted_keys (snd kv))) kvs))
  | _ => v
  end.

(** [json.dumps(v, ensure_ascii=False)] *)
Definition json_dumps (v : json) : string := encode ", " ": " v.

End Encoder.

(** ** [json.loads] *)

Module Decoder.
Import Text.

(** The white space of JSON: space, tab, line feed, carriage return. *)
Definition is_ws (c : ascii) : bool :=
  let n := code c in
  (n =? 32)%N || (n =? 9)%N || (n =? 10)%N || (n =? 13)%N.

Fixpoint skip_ws (s : string) : string :=
  match s with
  | String c r => if is_ws c then skip_ws r else s
  | EmptyString => s
  end.

Definition hexval (c : ascii) : option N :=
  let n := code c in
  if (48 <=? n)%N && (n <=? 57)%N then Some (n - 48)%N
  else if (97 <=? n)%N && (n <=? 102)%N then Some (n - 87)%N
  else if (65 <=? n)%N && (n <=? 70)%N then Some (n - 55)%N
  else None.

(** The four hexadecimal digits of a [\uXXXX] escape. *)
Definition hex4 (s : string) : option (N * string) :=
  match s with
  | String a (String b (String c (String d r))) =>
      match hexval a, hexval b, hexval c, hexval d with
      | Some x, Some y, Some z, Some w =>
          Some (((x * 16 + y) * 16 + z) * 16 + w, r)%N
      | _, _, _, _ => None
      end
  | _ => None
  end.

(** The UTF-8 encoding of a code point; a lone surrogate is written in
    the same three-byte form. *)
Definition utf8 (cp : N) : string :=
  if (cp <? 128)%N then str1 (ascii_of_N cp)
  else if (cp <? 2048)%N then
    String (ascii_of_N (192 + cp / 64)) (str1 (ascii_of_N (128 + cp mod 64)))
  else if (cp <? 65536)%N then
    String (ascii_of_N (224 + cp / 4096))
      (String (ascii_of_N (128 + (cp / 64) mod 64))
         (str1 (ascii_of_N (128 + cp mod 64))))
  else
    String (ascii_of_N (240 + cp / 262144))
      (String (ascii_of_N (128 + (cp / 4096) mod 64))
         (String (ascii_of_N (128 + (cp / 64) mod 64))
            (str1 (ascii_of_N (128 + cp mod 64))))).

(** A high surrogate followed by the escape of a low surrogate is one
    character; any other escape stands alone. *)
Definition unicode_escape (s : string) : option (string * string) :=
  match hex4 s with
  | None => None
  | Some (u, r) =>
      let alone := Some (utf8 u, r) in
      if (55296 <=? u)%N && (u <=? 56319)%N then
        match r with
        | String b (String c r') =>
            if (code b =? 92)%N && (code c =? 117)%N then
              match hex4 r' with
              | Some (u2, r2) =>
                  if (56320 <=? u2)%N && (u2 <=? 57343)%N then
                    Some (utf8 (65536 + ((u - 55296) * 1024 + (u2 - 56320))), r2)
                  else alone
              | None => alone
              end
            else alone
        | _ => alone
        end
      else alone
  end%N.

(** [scanstring], after the opening quote: the decoded text and what
    follows the closing quote.  A raw control character, an unknown
    escape or a missing closing quote is an error. *)
Fixpoint scanstring (fuel : nat) (s : string) : option (string * string) :=
  match fuel with
  | O => None
  | S fuel' =>
      match s with
      | EmptyString => None
      | String c r =>
          let n := code c in
          if (n =? 34)%N then Some ("", r)
          else if (n <? 32)%N then None
          else if (n =? 92)%N then
            match r with
            | EmptyString => None
            | String e r' =>
                let m := code e in
                let continue (piece : string) (rest : string) :=
                  match scanstring fuel' rest with
                  | Some (t, rest') => Some (piece ++ t, rest')
                  | None => None
                  end in
                if (m =? 34)%N then continue (str1 quote) r'
                else if (m =? 92)%N then continue (str1 backslash) r'
                else if (m =? 47)%N then continue "/" r'
                else if (m =? 98)%N then continue (str1 (ascii_of_N 8)) r'
                else if (m =? 102)%N then continue (str1 (ascii_of_N 12)) r'
                else if (m =? 110)%N then continue (str1 (ascii_of_N 10)) r'
                else if (m =? 114)%N then continue (str1 (ascii_of_N 13)) r'
                else if (m =? 116)%N then continue (str1 (ascii_of_N 9)) r'
                else if (m =? 117)%N then
                  match unicode_escape r' with
                  | Some (piece, rest) => continue piece rest
                  | None => None
                  end
                else None
            end
          else
            match scanstring fuel' r with
            | Some (t, rest) => Some (String c t, rest)
            | None => None
            end
      end
  end.

Definition is_digit (c : ascii) : bool :=
  (48 <=? code c)%N && (code c <=? 57)%N.

(** The longest prefix of digits, and the rest. *)
Fixpoint span_digits (s : string) : string * string :=
  match s with
  | String c r =>
      if is_digit c then
        let (ds, rest) := span_digits r in (String c ds, rest)
      else ("", s)
  | EmptyString => ("", s)
  end.

Definition starts_with_digit (s : string) : bool :=
  match s with String c _ => is_digit c | EmptyString => false end.

(** A fraction (a dot and a digit) or an exponent (e or E, an optional
    sign, a digit) follows: the number is a float. *)
Definition float_tail (s : string) : bool :=
  match s with
  | String c r =>
      let n := code c in
      if (n =? 46)%N then starts_with_digit r
      else if (n =? 101)%N || (n =? 69)%N then
        match r with
        | String d r' =>
            if (code d =? 43)%N || (code d =? 45)%N
            then starts_with_digit r'
            else is_digit d
        | EmptyString => false
        end
      else false
  | EmptyString => false
  end.

(** The number at the head of [s]: an optional minus sign, then either
    a single zero or a non-zero digit and more digits.  Floats are
    outside the model. *)
Definition scan_number (s : string) : option (json * string) :=
  let (neg, body) :=
    match s with
    | String c r => if (code c =? 45)%N then (true, r) else (false, s)
    | EmptyString => (false, s)
    end in
  match body with
  | String c r =>
      if is_digit c then
        let (ds, rest) :=
          if (code c =? 48)%N then ("", r) else span_digits r in
        if float_tail rest then None
        else
          match NilZero.uint_of_string (String c ds) with
          | Some u =>
              let n := Z.of_uint u in
              Some (JInt (if neg then (- n)%Z else n), rest)
          | None => None
          end
      else None
  | EmptyString => None
  end.

(** [s] without the prefix [p], when it starts with it. *)
Fixpoint strip_prefix (p s : string) : option string :=
  match p, s with
  | EmptyString, _ => Some s
  | String a p', String b s' =>
      if Ascii.eqb a b then strip_prefix p' s' else None
  | String _ _, EmptyString => None
  end.

(** [scan_once]: the value at the head of [s] and what follows it.
    [scan_members] starts after the opening quote of a key and
    [scan_elements] at a value. *)
Fixpoint scan_once (fuel : nat) (s : string) : option (json * string) :=
  match fuel with
  | O => None
  | S fuel' =>
      match s with
      | EmptyString => None
      | String c r =>
          let n := code c in
          if (n =? 34)%N then
            match scanstring (S (String.length r)) r with
            | Some (t, rest) => Some (JStr t, rest)
            | None => None
            end
          else if (n =? 123)%N then
            match skip_ws r with
            | String c1 r1 =>
                if (code c1 =? 125)%N then Some (JObj [], r1)
                else if (code c1 =? 34)%N then
                  match scan_members fuel' r1 with
                  | Some (kvs, rest) => Some (JObj (Dict.of_pairs kvs), rest)
                  | None => None
                  end
                else None
            | EmptyString => None
            end
          else if (n =? 91)%N then
            match skip_ws r with
            | String c1 r1 =>
                if (code c1 =? 93)%N then Some (JArr [], r1)
                else
                  match scan_elements fuel' (String c1 r1) with
                  | Some (xs, rest) => Some (JArr xs, rest)
                  | None => None
                  end
            | EmptyString => None
            end
          else
            match strip_prefix "null" s, strip_prefix "true" s,
                  strip_prefix "false" s with
            | Some rest, _, _ => Some (JNull, rest)
            | _, Some rest, _ => Some (JBool true, rest)
            | _, _, Some rest => Some (JBool false, rest)
            | None, None, None => scan_number s
            end
      end
  end

with scan_members (fuel : nat) (s : string)
  : option (list (string * json) * string) :=
  match fuel with
  | O => None
  | S fuel' =>
      match scanstring (S (String.length s)) s with
      | None => None
      | Some (key, r) =>
          match skip_ws r with
          | String c r1 =>
              if (code c =? 58)%N then
                match scan_once fuel' (skip_ws r1) with
                | Some (v, r2) =>
                    match skip_ws r2 with
                    | String d r3 =>
                        if (code d =? 125)%N then Some ([(key, v)], r3)
                        else if (code d =? 44)%N then
                          match skip_ws r3 with
                          | String q r4 =>
                              if (code q =? 34)%N then
                                match scan_members fuel' r4 with
                                | Some (kvs, r5) => Some ((key, v) :: kvs, r5)
                                | None => None
                                end
                              else None
                          | EmptyString => None
                          end
                        else None
                    | EmptyString => None
                    end
                | None => None
                end
              else None
          | EmptyString => None
          end
      end
  end

with scan_elements (fuel : nat) (s : string)
  : option (list json * string) :=
  match fuel with
  | O => None
  | S fuel' =>
      match scan_once fuel' s with
      | Some (v, r) =>
          match skip_ws r with
          | String d r1 =>
              if (code d =? 93)%N then Some ([v], r1)
              else if (code d =? 44)%N then
                match scan_elements fuel' (skip_ws r1) with
                | Some (xs, r2) => Some (v :: xs, r2)
                | None => None
                end
              else None
          | EmptyString => None
          end
      | None => None
      end
  end.

(** [json.loads(s)]: one value between optional white space, and
    nothing else. *)
Definition json_loads (s : string) : outcome json :=
  match scan_once (2 * String.length s + 2) (skip_ws s) with
  | Some (v, rest) =>
      match skip_ws rest with
      | EmptyString => Ret v
      | String _ _ => Raise JSONDecodeError
      end
  | None => Raise JSONDecodeError
  end.



End Decoder.



(** ** [hashlib.sha256] *)

Module SHA256.
Import Text.
Local Open Scope N_scope.

Definition word : N := 4294967296.

Definition add32 (a b : N) : N := (a + b) mod word.

Definition rotr (n x : N) : N :=
  N.lor (N.shiftr x n) ((N.shiftl x (32 - n)) mod word).

Definition not32 (x : N) : N := word - 1 - x.

Definition ch (x y z : N) : N :=
  N.lxor (N.land x y) (N.land (not32 x) z).

Definition maj (x y z : N) : N :=
  N.lxor (N.lxor (N.land x y) (N.land x z)) (N.land y z).

Definition big_sigma0 (x : N) : N :=
  N.lxor (N.lxor (rotr 2 x) (rotr 13 x)) (rotr 22 x).

Definition big_sigma1 (x : N) : N :=
  N.lxor (N.lxor (rotr 6 x) (rotr 11 x)) (rotr 25 x).

Definition small_sigma0 (x : N) : N :=
  N.lxor (N.lxor (rotr 7 x) (rotr 18 x)) (N.shiftr x 3).

Definition small_sigma1 (x : N) : N :=
  N.lxor (N.lxor (rotr 17 x) (rotr 19 x)) (N.shiftr x 10).

Definition round_constants : list N :=
  [
    1116352408; 1899447441; 3049323471; 3921009573; 961987163; 1508970993;
    2453635748; 2870763221; 3624381080; 310598401; 607225278; 1426881987;
    1925078388; 2162078206; 2614888103; 3248222580; 3835390401; 4022224774;
    264347078; 604807628; 770255983; 1249150122; 1555081692; 1996064986;
    2554220882; 2821834349; 2952996808; 3210313671; 3336571891; 3584528711;
    113926993; 338241895; 666307205; 773529912; 1294757372; 1396182291;
    1695183700; 1986661051; 2177026350; 2456956037; 2730485921; 2820302411;
    3259730800; 3345764771; 3516065817; 3600352804; 4094571909; 275423344;
    430227734; 506948616; 659060556; 883997877; 958139571; 1322822218;
    1537002063; 1747873779; 1955562222; 2024104815; 2227730452; 2361852424;
    2428436474; 2756734187; 3204031479; 3329325298 ].

Record state : Type := State {
  ha : N; hb : N; hc : N; hd : N; he : N; hf : N; hg : N; hh : N
}.

Definition initial : state :=
  State 1779033703 3144134277 1013904242 2773480762
        1359893119 2600822924 528734635 1541459225.

(** Padding: a one bit, zeros up to 56 modulo 64, and the bit length of
    the message on eight bytes. *)
Definition be_bytes (count : nat) (x : N) : list N :=
  map (fun i => (x / 256 ^ N.of_nat i) mod 256) (List.rev (List.seq 0 count)).

Definition pad (msg : list N) : list N :=
  let len := length msg in
  let zeros := ((119 - len mod 64) mod 64)%nat in
  (msg ++ 128 :: repeat 0 zeros ++ be_bytes 8 (8 * N.of_nat len))%list.

(** Sixteen big-endian words from the next 64 bytes, and the rest. *)
Fixpoint take_words (count : nat) (bytes : list N) : list N * list N :=
  match count with
  | O => ([], bytes)
  | S count' =>
      match bytes with
      | b0 :: b1 :: b2 :: b3 :: rest =>
          let (ws, rest') := take_words count' rest in
          (((b0 * 256 + b1) * 256 + b2) * 256 + b3 :: ws, rest')
      | _ => ([], [])
      end
  end.

(** The message schedule: [ws] holds the words so far, the newest
    first. *)
Fixpoint extend (count : nat) (ws : list N) : list N :=
  match count with
  | O => ws
  | S count' =>
      let w := add32 (add32 (small_sigma1 (nth 1 ws 0)) (nth 6 ws 0))
                     (add32 (small_sigma0 (nth 14 ws 0)) (nth 15 ws 0)) in
      extend count' (w :: ws)
  end.

Definition schedule (block : list N) : list N :=
  List.rev (extend 48 (List.rev block)).

Definition round (s : state) (kw : N * N) : state :=
  let t1 := add32 (add32 (add32 (hh s) (big_sigma1 (he s)))
                         (add32 (ch (he s) (hf s) (hg s)) (fst kw)))
                  (snd kw) in
  let t2 := add32 (big_sigma0 (ha s)) (maj (ha s) (hb s) (hc s)) in
  State (add32 t1 t2) (ha s) (hb s) (hc s)
        (add32 (hd s) t1) (he s) (hf s) (hg s).

Definition compress (s : state) (block : list N) : state :=
  let r := fold_left round (combine round_constants (schedule block)) s in
  State (add32 (ha s) (ha r)) (add32 (hb s) (hb r))
        (add32 (hc s) (hc r)) (add32 (hd s) (hd r))
        (add32 (he s) (he r)) (add32 (hf s) (hf r))
        (add32 (hg s) (hg r)) (add32 (hh s) (hh r)).

Fixpoint blocks (count : nat) (s : state) (bytes : list N) : state :=
  match count with
  | O => s
  | S count' =>
      match bytes with
      | [] => s
      | _ => let (ws, rest) := take_words 16 bytes in
             blocks count' (compress s ws) rest
      end
  end.

Definition bytes_of (data : string) : list N :=
  map code (list_ascii_of_string data).

Definition digest (data : string) : state :=
  let bytes := pad (bytes_of data) in
  blocks (length bytes) initial bytes.

(** The eight lower-case hexadecimal digits of a 32-bit word. *)
Definition hex8 (w : N) : string :=
  let d (i : N) := Encoder.hexdigit ((w / 16 ^ i) mod 16) in
  String (d 7) (String (d 6) (String (d 5) (String (d 4)
    (String (d 3) (String (d 2) (String (d 1) (String (d 0) "")))))))%string.

(** [hashlib.sha256(data).hexdigest()] *)
Definition hexdigest (data : string) : string :=
  let s := digest data in
  (hex8 (ha s) ++ hex8 (hb s) ++ hex8 (hc s) ++ hex8 (hd s)
   ++ hex8 (he s) ++ hex8 (hf s) ++ hex8 (hg s) ++ hex8 (hh s))%string.

End SHA256.


(** ** [app/utils.py] *)

(** [json.dumps(obj, sort_keys=True, ensure_ascii=False,
    separators=(",", ":")).encode("utf-8")] *)
Definition canonical_json (obj : json) : string :=
  Encoder.encode "," ":" (Encoder.sorted_keys obj).

Definition sha256_cid (data : string) : string :=
  "sha256:" ++ SHA256.hexdigest data.

(** ** What the embedding takes from the Python library and the remote
    service *)

(** A [datetime], in microseconds since the epoch; an aware one counts in
    UTC. *)
Inductive datetime : Type :=
| Naive (us : Z)
| Aware (us : Z).

(** [a >= b]: a naive and an aware [datetime] do not compare. *)
Definition datetime_ge (a b : datetime) : outcome bool :=
  match a, b with
  | Aware x, Aware y => Ret (y <=? x)%Z
  | Naive x, Naive y => Ret (y <=? x)%Z
  | _, _ => Raise TypeError
  end.

(** [now - datetime.timedelta(seconds=n)] for an aware [now]. *)
Definition minus_seconds (now n : Z) : datetime :=
  Aware (now - n * 1000000)%Z.

(** Three functions are taken as they are, with no model of their own:
    [datetime.datetime.fromisoformat] and [int] on a [str], and the answer
    of the remote service to [order_by("ts", DESCENDING).limit(1)]. *)
Class Library : Type := {
  fromisoformat : string -> outcome datetime;
  int_of_str : string -> outcome Z;
  latest_by_ts : list dict -> option dict
}.

(** ** State and exceptions *)

(** A call changes a state of type [S], and returns or raises. What it
    changed before raising stays changed. *)
Definition io (S A : Type) : Type := S -> outcome A * S.

Module IO.
Definition ret {S A} (a : A) : io S A := fun s => (Ret a, s).

Definition bind {S A B} (c : io S A) (k : A -> io S B) : io S B :=
  fun s =>
    match c s with
    | (Ret a, s') => k a s'
    | (Raise e, s') => (Raise e, s')
    end.

(** A computation that does not touch the state. *)
Definition lift {S A} (o : outcome A) : io S A := fun s => (o, s).

Definition get {S} : io S S := fun s => (Ret s, s).

Definition put {S} (s : S) : io S unit := fun _ => (Ret tt, s).
End IO.

Notation "x <- c ;; k" := (IO.bind c (fun x => k))
  (at level 61, c at next level, right associativity).
Notation "c ;;; k" := (IO.bind c (fun _ => k))
  (at level 61, right associativity).

(** [try: v = o  except Exception: v = dflt] *)
Definition or_else {A} (o : outcome A) (dflt : A) : A :=
  match o with Ret a => a | Raise _ => dflt end.

(** ** [app/receipts.py]: the file-backed store *)

Module ReceiptStore.
Import Text.

Record t : Type := Make {
  path : string;
  max_age_seconds : Z
}.

(** The file at [self.path]: [None] while there is no such file, its
    text otherwise. *)
Definition file : Type := option string.

Section Methods.
Context {lib : Library}.

(** [__init__]: [path_env] and [age_env] are the values of
    [ODIN_LOCAL_RECEIPTS] and [ODIN_RETENTION_MAX_AGE_SECONDS].  An
    empty string is false for [or]. *)
Definition init (path_env age_env : option string)
    (path : option string) (max_age_seconds : option Z) : t :=
  let nonempty (o : option string) :=
    match o with
    | Some s => if String.eqb s EmptyString then None else Some s
    | None => None
    end in
  let p :=
    match nonempty path, nonempty path_env with
    | Some p, _ => p
    | None, Some p => p
    | None, None => "receipts.log.jsonl"
    end in
  let arg :=
    match max_age_seconds with Some n => n | None => 0%Z end in
  let age :=
    match nonempty age_env with
    | Some v => or_else (int_of_str v) 0%Z
    | None => arg
    end in
  Make p age.

(** [open] in text mode turns each of CR LF and CR into LF before
    [splitlines] sees the text; [splitlines] closes a line at each of
    the three alike, so the lines are those of the text as stored. *)
Definition _read_lines : io file (list string) :=
  f <- IO.get ;;
  match f with
  | Some text =>
      IO.ret (filter (fun ln => negb (all_space ln)) (splitlines text))
  | None => IO.ret []
  end.

Definition _write_lines (lines : list string) : io file unit :=
  IO.put (Some (join_lines lines
                ++ match lines with [] => EmptyString | _ => str1 LF end)).

(** [fromisoformat(obj.get("ts"))]: only a [str] is accepted. *)
Definition parse_ts (v : json) : outcome datetime :=
  match v with
  | JStr s => fromisoformat s
  | _ => Raise TypeError
  end.

(** One turn of the loop of [_prune_by_age]: is [ln] kept? *)
Definition keeps (cutoff : datetime) (ln : string) : bool :=
  or_else
    (let! obj := Decoder.json_loads ln in
     let! d := as_dict obj in
     let! ts := parse_ts (Dict.get_or_none "ts" d) in
     datetime_ge ts cutoff)
    true.

(** [now] is the reading of [datetime.now(datetime.UTC)]. *)
Definition _prune_by_age (self : t) (now : Z) (lines : list string)
  : list string :=
  if (max_age_seconds self <=? 0)%Z then lines
  else
    let cutoff := minus_seconds now (max_age_seconds self) in
    filter (keeps cutoff) lines.

(** The cutoff is computed before the loop, outside any [try]:
    [timedelta(seconds=T)] raises [OverflowError] beyond 999999999
    days, and so does the subtraction when the result is before
    [datetime.min], the first instant of the year 1 (in microseconds
    since the epoch, [now] being read in UTC).  Within these bounds the
    cutoff is the [datetime] of [minus_seconds]. *)
Definition timedelta_max_seconds : Z := 86399999999999.

Definition datetime_min : Z := (-62135596800000000)%Z.

Definition cutoff_exists (self : t) (now : Z) : bool :=
  (max_age_seconds self <=? 0)%Z
  || ((max_age_seconds self <=? timedelta_max_seconds)%Z
      && (datetime_min <=? now - max_age_seconds self * 1000000)%Z).

(** [json.loads(lines[-1]).get("receipt_hash") if lines else None] *)
Definition last_receipt_hash (lines : list string) : outcome json :=
  match lines with
  | [] => Ret JNull
  | _ :: _ =>
      let! obj := Decoder.json_loads (List.last lines EmptyString) in
      let! d := as_dict obj in
      Ret (Dict.get_or_none "receipt_hash" d)
  end.

Definition add (self : t) (now : Z) (r : dict) : io file dict :=
  lines <- _read_lines ;;
  let lines := _prune_by_age self now lines in
  prev_hash <- IO.lift (last_receipt_hash lines) ;;
  let r2 := r in
  let r2 := Dict.set "prev_receipt_hash" prev_hash r2 in
  let rh :=
    sha256_cid (canonical_json (JObj (Dict.without "receipt_hash" r2))) in
  let r2 := Dict.set "receipt_hash" (JStr rh) r2 in
  let lines := (lines ++ [Encoder.json_dumps (JObj r2)])%list in
  _write_lines lines ;;;
  IO.ret r2.

(** The key of the sort of [chain]:
    [(x.get("hop", 0), x.get("ts", ""))]. *)
Definition sort_key (x : dict) : json * json :=
  (Dict.get_default "hop" (JInt 0) x,
   Dict.get_default "ts" (JStr EmptyString) x).

(** One turn of the loop of [chain]: what [ln] adds to [out]. *)
Definition matching (trace_id : string) (ln : string) : list dict :=
  or_else
    (let! obj := Decoder.json_loads ln in
     let! d := as_dict obj in
     Ret (if Py.eq (Dict.get_or_none "trace_id" d) (JStr trace_id)
          then [d] else []))
    [].

Definition chain (self : t) (trace_id : string) : io file (list dict) :=
  lines <- _read_lines ;;
  let out := flat_map (matching trace_id) lines in
  IO.lift (Py.sort sort_key Py.lt_pair out).

End Methods.
End ReceiptStore.

(** ** [app/receipts.py]: the remote store *)

Module FirestoreReceiptStore.

Record t : Type := Make {
  project_id : string;
  collection : string;
  path : string
}.

(** The documents of the collection, as the service streams them. *)
Definition documents : Type := list dict.

(** How the service answers during one call: a failed request raises in
    the client. *)
Record answers : Type := Answers {
  query_fails : bool;
  write_fails : bool
}.

Section Methods.
Context {lib : Library}.

(** [__init__]: [client_fails] tells whether the import guard or
    [firestore.Client(project=...)] raised. *)
Definition init (client_fails : bool) (project : string) : outcome t :=
  if client_fails then Raise RuntimeError
  else Ret (Make project "receipts"
                 ("firestore://" ++ project ++ "/" ++ "receipts")).

Definition _latest_receipt_hash (net : answers) : io documents json :=
  docs <- IO.get ;;
  if query_fails net then IO.ret JNull
  else
    match latest_by_ts docs with
    | Some d => IO.ret (Dict.get_or_none "receipt_hash" d)
    | None => IO.ret JNull
    end.

Definition add (self : t) (net : answers) (r : dict) : io documents dict :=
  prev_hash <- _latest_receipt_hash net ;;
  let r2 := r in
  let r2 := Dict.set "prev_receipt_hash" prev_hash r2 in
  let rh :=
    sha256_cid (canonical_json (JObj (Dict.without "receipt_hash" r2))) in
  let r2 := Dict.set "receipt_hash" (JStr rh) r2 in
  docs <- IO.get ;;
  (if write_fails net then IO.lift (Raise RuntimeError)
   else IO.put (docs ++ [r2])%list) ;;;
  IO.ret r2.

(** [where("trace_id", "==", trace_id)] *)
Definition where_trace_id (trace_id : string) (docs : documents)
  : list dict :=
  filter (fun d => Py.eq (Dict.get_or_none "trace_id" d) (JStr trace_id))
         docs.

Definition chain (self : t) (net : answers) (trace_id : string)
  : io documents (list dict) :=
  docs <- IO.get ;;
  let out :=
    if query_fails net then [] else where_trace_id trace_id docs in
  IO.lift (Py.sort ReceiptStore.sort_key Py.lt_pair out).

End Methods.
End FirestoreReceiptStore.

(** ** The capability set of a store *)

(** [add] and [chain] of a store of class [Self], with what the outside
    world gives one call ([Env]: a clock reading, the answers of the
    service) and the state they work on ([World]). *)
Class Store (Self Env World : Type) : Type := {
  store_add : Self -> Env -> dict -> io World dict;
  store_chain : Self -> Env -> string -> io World (list dict)
}.

#[export] Instance file_store {lib : Library}
  : Store ReceiptStore.t Z ReceiptStore.file := {
  store_add := ReceiptStore.add;
  store_chain := fun self _ => ReceiptStore.chain self
}.

#[export] Instance remote_store {lib : Library}
  : Store FirestoreReceiptStore.t FirestoreReceiptStore.answers
          FirestoreReceiptStore.documents := {
  store_add := FirestoreReceiptStore.add;
  store_chain := FirestoreReceiptStore.chain
}.

(** ** [app/receipts.py]: the caching decorator *)

Module CachingReceiptStore.

(** The object: the wrapped store, the two settings, and the three
    fields the methods update.  The keys of the two dictionaries are
    the strings [chain] was called with.  ([_by_trace] is never
    read.) *)
Record t (Self : Type) : Type := Make {
  store : Self;
  ttl_seconds : Z;
  max_size : Z;
  _chains : list (string * list dict);
  _last_refresh : list (string * Z);
  _total_cached : Z
}.
Arguments Make {Self}.
Arguments store {Self}.
Arguments ttl_seconds {Self}.
Arguments max_size {Self}.
Arguments _chains {Self}.
Arguments _last_refresh {Self}.
Arguments _total_cached {Self}.

Section Methods.
Context {lib : Library}.
Context {Self Env World : Type} {S : Store Self Env World}.

(** [__init__]: [ttl_env] and [size_env] are the values of
    [ODIN_RECEIPT_CACHE_TTL_SECONDS] and [ODIN_RECEIPT_CACHE_SIZE]. *)
Definition init (ttl_env size_env : option string) (inner : Self)
  : t Self :=
  let setting (o : option string) (dflt : Z) :=
    match o with
    | Some v => or_else (int_of_str v) dflt
    | None => dflt
    end in
  Make inner (setting ttl_env 300%Z) (setting size_env 1000%Z) [] [] 0%Z.

Definition with_cache (self : t Self)
    (chains : list (string * list dict)) (refresh : list (string * Z))
    (total : Z) : t Self :=
  Make (store self) (ttl_seconds self) (max_size self)
       chains refresh total.

(** [now] is the reading of the clock; the span
    [(now - ts).total_seconds()] is compared in microseconds. *)
Definition _expired (self : t Self) (now : Z) (trace_id : string)
  : bool :=
  match Dict.get trace_id (_last_refresh self) with
  | None => true
  | Some ts =>
      if (ttl_seconds self <=? 0)%Z then false
      else (ttl_seconds self * 1000000 <? now - ts)%Z
  end.

(** [sorted(self._last_refresh.items(), key=lambda x: x[1])]: stable,
    by the time of refresh. *)
Fixpoint insert_refresh (x : string * Z) (l : list (string * Z))
  : list (string * Z) :=
  match l with
  | [] => [x]
  | y :: l' =>
      if (snd y <? snd x)%Z then y :: insert_refresh x l'
      else x :: y :: l'
  end.

Definition oldest_first (l : list (string * Z)) : list (string * Z) :=
  fold_right insert_refresh [] l.

(** The loop of [_enforce_size] over [ordered]. *)
Fixpoint evict (self : t Self) (ordered : list (string * Z)) : t Self :=
  match ordered with
  | [] => self
  | (trace_id, _) :: rest =>
      let removed :=
        match Dict.get trace_id (_chains self) with
        | Some c => Z.of_nat (length c)
        | None => 0%Z
        end in
      let self' :=
        with_cache self
          (Dict.without trace_id (_chains self))
          (Dict.without trace_id (_last_refresh self))
          (_total_cached self - removed)%Z in
      if (_total_cached self' <=? max_size self')%Z then self'
      else evict self' rest
  end.

Definition _enforce_size (self : t Self) : t Self :=
  if (max_size self <=? 0)%Z then self
  else if (_total_cached self <=? max_size self)%Z then self
  else evict self (oldest_first (_last_refresh self)).

(** [self._chains.pop(trace_id, None)] and
    [self._last_refresh.pop(trace_id, None)] for the value found under
    ["trace_id"]: a list or a dictionary is not hashable, and a key
    that is no string is in neither dictionary. *)
Definition invalidate (self : t Self) (trace_id : json)
  : outcome (t Self) :=
  match trace_id with
  | JStr k =>
      Ret (with_cache self
             (Dict.without k (_chains self))
             (Dict.without k (_last_refresh self))
             (_total_cached self))
  | JArr _ | JObj _ => Raise TypeError
  | _ => Ret self
  end.

(** The state is the object and the world of the wrapped store. *)
Definition add (env : Env) (r : dict) : io (t Self * World) dict :=
  fun st =>
    let (self, w) := st in
    match store_add (store self) env r w with
    | (Raise e, w') => (Raise e, (self, w'))
    | (Ret added, w') =>
        let trace_id := Dict.get_or_none "trace_id" added in
        if Py.truthy trace_id then
          match invalidate self trace_id with
          | Ret self' => (Ret added, (self', w'))
          | Raise e => (Raise e, (self, w'))
          end
        else (Ret added, (self, w'))
    end.

(** [now] is read by [_expired], [now'] at the refresh. *)
Definition chain (env : Env) (now now' : Z) (trace_id : string)
  : io (t Self * World) (list dict) :=
  fun st =>
    let (self, w) := st in
    if Dict.mem trace_id (_chains self)
       && negb (_expired self now trace_id)
    then
      (Ret (match Dict.get trace_id (_chains self) with
            | Some c => c
            | None => []
            end), st)
    else
      match store_chain (store self) env trace_id w with
      | (Raise e, w') => (Raise e, (self, w'))
      | (Ret fresh, w') =>
          let chains := Dict.set trace_id fresh (_chains self) in
          let refresh := Dict.set trace_id now' (_last_refresh self) in
          let total :=
            fold_right (fun kv n => (Z.of_nat (length (snd kv)) + n)%Z)
                       0%Z chains in
          (Ret fresh,
           (_enforce_size (with_cache self chains refresh total), w'))
      end.

End Methods.
End CachingReceiptStore.

(** ** [app/receipts.py]: the selector *)

Inductive selected : Type :=
| FileBacked (s : ReceiptStore.t)
| RemoteBacked (s : FirestoreReceiptStore.t)
| Cached (c : CachingReceiptStore.t (ReceiptStore.t + FirestoreReceiptStore.t)).

(** The environment variables the selection reads, and whether building
    the client of the remote service fails. *)
Record environment : Type := Environment {
  FIRESTORE_PROJECT : option string;
  ODIN_RECEIPT_CACHE : option string;
  ODIN_RECEIPT_CACHE_TTL_SECONDS : option string;
  ODIN_RECEIPT_CACHE_SIZE : option string;
  ODIN_LOCAL_RECEIPTS : option string;
  ODIN_RETENTION_MAX_AGE_SECONDS : option string;
  client_fails : bool
}.

(** [s.lower()] on the letters A to Z; no other character becomes a
    letter of ["1"], ["true"], ["yes"] or ["on"]. *)
Fixpoint lower (s : string) : string :=
  match s with
  | EmptyString => EmptyString
  | String c r =>
      let n := Text.code c in
      String (if (65 <=? n)%N && (n <=? 90)%N then ascii_of_N (n + 32) else c)
             (lower r)
  end.

Section Selector.
Context {lib : Library}.

(** [ReceiptStore()] *)
Definition default_file_store (env : environment) : ReceiptStore.t :=
  ReceiptStore.init (ODIN_LOCAL_RECEIPTS env)
                    (ODIN_RETENTION_MAX_AGE_SECONDS env) None None.

Definition cache_enabled (env : environment) : bool :=
  let v :=
    lower (match ODIN_RECEIPT_CACHE env with
           | Some s => s
           | None => EmptyString
           end) in
  String.eqb v "1" || String.eqb v "true"
  || String.eqb v "yes" || String.eqb v "on".

Definition load_receipt_store (env : environment) : selected :=
  match FIRESTORE_PROJECT env with
  | Some (String c p) =>
      match FirestoreReceiptStore.init (client_fails env) (String c p) with
      | Ret s => RemoteBacked s
      | Raise _ => FileBacked (default_file_store env)
      end
  | _ =>
      let base_store := default_file_store env in
      if cache_enabled env then
        Cached (CachingReceiptStore.init
                  (ODIN_RECEIPT_CACHE_TTL_SECONDS env)
                  (ODIN_RECEIPT_CACHE_SIZE env)
                  (inl base_store))
      else FileBacked base_store
  end.
End Selector.

(** ** Calls of [ReceiptStore.add] running in several threads *)

Module Threads.
Import ReceiptStore.

(** [add] holds no lock, so another thread may run between its
    statements.  Only the two statements that touch the file matter:
    the read of [_read_lines] and the write of [_write_lines], each
    taken as one step.  A call is before its read, between its read and
    its write (holding the lines it is about to write and the receipt it
    is about to return), or over. *)
Inductive call : Type :=
| Ready (now : Z) (r : dict)
| Holding (lines : list string) (r2 : dict)
| Returned (r2 : dict)
| Raised (e : exn).

Section Steps.
Context {lib : Library}.

(** The next step of a call. *)
Definition step (self : t) (c : call) (f : file) : call * file :=
  match c with
  | Ready now r =>
      let lines := or_else (fst (_read_lines f)) [] in
      let lines := _prune_by_age self now lines in
      match last_receipt_hash lines with
      | Raise e => (Raised e, f)
      | Ret prev_hash =>
          let r2 := Dict.set "prev_receipt_hash" prev_hash r in
          let rh :=
            sha256_cid
              (canonical_json (JObj (Dict.without "receipt_hash" r2))) in
          let r2 := Dict.set "receipt_hash" (JStr rh) r2 in
          (Holding (lines ++ [Encoder.json_dumps (JObj r2)])%list r2, f)
      end
  | Holding lines r2 => (Returned r2, snd (_write_lines lines f))
  | Returned _ | Raised _ => (c, f)
  end.

(** The two calls and the file. *)
Definition system : Type := call * call * file.

(** [false] lets the first call take a step, [true] the second. *)
Definition turn (self : t) (who : bool) (st : system) : system :=
  let '(c1, c2, f) := st in
  if who then let (c2', f') := step self c2 f in (c1, c2', f')
  else let (c1', f') := step self c1 f in (c1', c2, f').

Definition run (self : t) (schedule : list bool) (st : system) : system :=
  fold_left (fun st who => turn self who st) schedule st.
End Steps.

Definition receipt (c : call) : option dict :=
  match c with Returned r2 => Some r2 | _ => None end.

End Threads.

(** ** [add] with its dictionaries as objects *)

Module Objects.

(** The dictionaries of the program, by address.  [add] changes
    dictionaries only at their top level, so the values they hold stay
    [json] trees. *)
Definition heap : Type := list dict.
Definition ref : Type := nat.

Definition read (p : ref) (h : heap) : dict := nth p h [].

Fixpoint update (p : ref) (g : dict -> dict) (h : heap) : heap :=
  match h, p with
  | [], _ => []
  | d :: h', O => g d :: h'
  | d :: h', S p' => d :: update p' g h'
  end.

(** [dict(x)]: a new dictionary with the items of [x]. *)
Definition copy {W} (x : ref) : io (heap * W) ref :=
  fun st =>
    let (h, w) := st in
    (Ret (length h), ((h ++ [read x h])%list, w)).

(** [x[k] = v] *)
Definition setitem {W} (x : ref) (k : string) (v : json)
  : io (heap * W) unit :=
  fun st => let (h, w) := st in (Ret tt, (update x (Dict.set k v) h, w)).

(** The items of [x], to compute with. *)
Definition items {W} (x : ref) : io (heap * W) dict :=
  fun st => (Ret (read x (fst st)), st).

(** A call that works on the world of the store only. *)
Definition outside {W A} (c : io W A) : io (heap * W) A :=
  fun st =>
    let (h, w) := st in
    let (o, w') := c w in (o, (h, w')).

Section Methods.
Context {lib : Library}.

(** [ReceiptStore.add] *)
Definition file_add (self : ReceiptStore.t) (now : Z) (r : ref)
  : io (heap * ReceiptStore.file) ref :=
  lines <- outside ReceiptStore._read_lines ;;
  let lines := ReceiptStore._prune_by_age self now lines in
  prev_hash <- IO.lift (ReceiptStore.last_receipt_hash lines) ;;
  r2 <- copy r ;;
  setitem r2 "prev_receipt_hash" prev_hash ;;;
  d <- items r2 ;;
  let rh :=
    sha256_cid (canonical_json (JObj (Dict.without "receipt_hash" d))) in
  setitem r2 "receipt_hash" (JStr rh) ;;;
  d <- items r2 ;;
  let lines := (lines ++ [Encoder.json_dumps (JObj d)])%list in
  outside (ReceiptStore._write_lines lines) ;;;
  IO.ret r2.

(** [FirestoreReceiptStore.add] *)
Definition remote_add (self : FirestoreReceiptStore.t)
    (net : FirestoreReceiptStore.answers) (r : ref)
  : io (heap * FirestoreReceiptStore.documents) ref :=
  prev_hash <- outside (FirestoreReceiptStore._latest_receipt_hash net) ;;
  r2 <- copy r ;;
  setitem r2 "prev_receipt_hash" prev_hash ;;;
  d <- items r2 ;;
  let rh :=
    sha256_cid (canonical_json (JObj (Dict.without "receipt_hash" d))) in
  setitem r2 "receipt_hash" (JStr rh) ;;;
  d <- items r2 ;;
  outside (docs <- IO.get ;;
           if FirestoreReceiptStore.write_fails net
           then IO.lift (Raise RuntimeError)
           else IO.put (docs ++ [d])%list) ;;;
  IO.ret r2.
End Methods.
End Objects.

(** ** A reference library *)

(** One [Library] to run the model on concrete inputs.  Its functions are
    the Python ones on the inputs they accept, and raise on the others:
    [fromisoformat] reads the timestamps [datetime.isoformat] writes
    (YYYY-MM-DDTHH:MM:SS, then an optional fraction of six digits, then an
    optional Z or an offset +HH:MM or -HH:MM), [int] reads an optional sign
    and decimal digits, and the service orders the documents whose ["ts"]
    is a string by that string and answers with the last of the
    greatest. *)
Module Reference.

Definition digit (c : ascii) : option Z :=
  if Decoder.is_digit c then Some (Z.of_N (Text.code c) - 48)%Z else None.

Fixpoint digits (acc : Z) (s : string) : option Z :=
  match s with
  | EmptyString => Some acc
  | String c r =>
      match digit c with
      | Some d => digits (acc * 10 + d)%Z r
      | None => None
      end
  end.

(** The number written on the [len] characters of [s] from [start]. *)
Definition field (start len : nat) (s : string) : option Z :=
  let t := substring start len s in
  if Nat.eqb (String.length t) len then digits 0%Z t else None.

Definition char_at (i : nat) (c : string) (s : string) : bool :=
  String.eqb (substring i 1 s) c.

Definition leap (y : Z) : bool :=
  ((y mod 4 =? 0) && negb (y mod 100 =? 0) || (y mod 400 =? 0))%Z.

Definition days_in_month (y m : Z) : Z :=
  if (m =? 2)%Z then (if leap y then 29 else 28)%Z
  else if ((m =? 4) || (m =? 6) || (m =? 9) || (m =? 11))%Z then 30%Z
  else 31%Z.

(** Days from 1970-01-01 to the given date of the Gregorian calendar. *)
Definition days_from_civil (y m d : Z) : Z :=
  let y' := if (m <=? 2)%Z then (y - 1)%Z else y in
  let era := (y' / 400)%Z in
  let yoe := (y' - era * 400)%Z in
  let mp := ((m + 9) mod 12)%Z in
  let doy := ((153 * mp + 2) / 5 + d - 1)%Z in
  let doe := (yoe * 365 + yoe / 4 - yoe / 100 + doy)%Z in
  (era * 146097 + doe - 719468)%Z.

(** The zone that ends a timestamp: none, Z, or an offset; the result is
    the offset in minutes. *)
Definition zone (s : string) : outcome (option Z) :=
  if String.eqb s EmptyString then Ret None
  else if String.eqb s "Z" then Ret (Some 0%Z)
  else
    match field 1 2 s, field 4 2 s with
    | Some h, Some m =>
        if Nat.eqb (String.length s) 6 && char_at 3 ":" s
           && (h <? 24)%Z && (m <? 60)%Z
        then
          if char_at 0 "+" s then Ret (Some (h * 60 + m)%Z)
          else if char_at 0 "-" s then Ret (Some (- (h * 60 + m))%Z)
          else Raise ValueError
        else Raise ValueError
    | _, _ => Raise ValueError
    end.

Definition iso (s : string) : outcome datetime :=
  match field 0 4 s, field 5 2 s, field 8 2 s,
        field 11 2 s, field 14 2 s, field 17 2 s with
  | Some y, Some mo, Some d, Some h, Some mi, Some se =>
      if char_at 4 "-" s && char_at 7 "-" s && char_at 10 "T" s
         && char_at 13 ":" s && char_at 16 ":" s
         && ((1 <=? y) && (1 <=? mo) && (mo <=? 12) && (1 <=? d)
             && (d <=? days_in_month y mo)
             && (h <? 24) && (mi <? 60) && (se <? 60))%Z
      then
        let tail := substring 19 (String.length s - 19) s in
        let frac_rest :=
          if char_at 0 "." tail then
            match field 1 6 tail with
            | Some f => Ret (f, substring 7 (String.length tail - 7) tail)
            | None => Raise ValueError
            end
          else Ret (0%Z, tail) in
        let! fr := frac_rest in
        let! z := zone (snd fr) in
        let local :=
          ((((days_from_civil y mo d * 24 + h) * 60 + mi) * 60 + se)
           * 1000000 + fst fr)%Z in
        match z with
        | None => Ret (Naive local)
        | Some minutes => Ret (Aware (local - minutes * 60000000)%Z)
        end
      else Raise ValueError
  | _, _, _, _, _, _ => Raise ValueError
  end.

Definition int (s : string) : outcome Z :=
  let (neg, body) :=
    match s with
    | String c r =>
        if (Text.code c =? 45)%N then (true, r)
        else if (Text.code c =? 43)%N then (false, r)
        else (false, s)
    | EmptyString => (false, s)
    end in
  match body with
  | EmptyString => Raise ValueError
  | _ =>
      match digits 0%Z body with
      | Some n => Ret (if neg then (- n)%Z else n)
      | None => Raise ValueError
      end
  end.

Fixpoint latest (best : option (string * dict)) (docs : list dict)
  : option dict :=
  match docs with
  | [] => option_map snd best
  | d :: docs' =>
      match Dict.get "ts" d, best with
      | Some (JStr ts), Some (ts', _) =>
          if String.leb ts' ts then latest (Some (ts, d)) docs'
          else latest best docs'
      | Some (JStr ts), None => latest (Some (ts, d)) docs'
      | _, _ => latest best docs'
      end
  end.

#[export] Instance library : Library := {
  fromisoformat := iso;
  int_of_str := int;
  latest_by_ts := latest None
}.

End Reference.


(** ** The effect of the methods, as plain functions *)

(** What the proofs below say about the methods is said with these. *)

(** The lines [_read_lines] returns. *)
Definition lines_of (f : ReceiptStore.file) : list string :=
  match f with
  | Some text =>
      filter (fun ln => negb (Text.all_space ln)) (Text.splitlines text)
  | None => []
  end.



(** The file [_write_lines] leaves. *)
Definition file_of (lines : list string) : ReceiptStore.file :=
  Some (Text.join_lines lines
        ++ match lines with [] => EmptyString | _ => Text.str1 Text.LF end).

(** The content address of [r] linked to [prev_hash]. *)
Definition receipt_hash_of (prev_hash : json) (r : dict) : string :=
  sha256_cid
    (canonical_json
       (JObj (Dict.without "receipt_hash"
                (Dict.set "prev_receipt_hash" prev_hash r)))).

(** The receipt made of [r] and [prev_hash]. *)
Definition receipt_of (prev_hash : json) (r : dict) : dict :=
  Dict.set "receipt_hash" (JStr (receipt_hash_of prev_hash r))
           (Dict.set "prev_receipt_hash" prev_hash r).

(** The heap after the statements of [add] that build [r2] from [r]. *)
Definition sealed_heap (prev : json) (r : Objects.ref) (h : Objects.heap)
  : Objects.heap :=
  Objects.update (length h)
    (Dict.set "receipt_hash"
       (JStr (receipt_hash_of prev (Objects.read r h))))
    (Objects.update (length h) (Dict.set "prev_receipt_hash" prev)
       (h ++ [Objects.read r h])%list).


(** ** The content of a JSON value *)

(** Induction on a JSON value, with the hypothesis for every element of
    an array and every member of an object. *)
Section JsonInduction.
Variable P : json -> Prop.
Hypothesis on_null : P JNull.
Hypothesis on_bool : forall b, P (JBool b).
Hypothesis on_int : forall n, P (JInt n).
Hypothesis on_str : forall s, P (JStr s).
Hypothesis on_arr : forall xs, Forall P xs -> P (JArr xs).
Hypothesis on_obj :
  forall kvs, Forall (fun kv => P (snd kv)) kvs -> P (JObj kvs).

Fixpoint json_induction (v : json) : P v :=
  match v with
  | JNull => on_null
  | JBool b => on_bool b
  | JInt n => on_int n
  | JStr s => on_str s
  | JArr xs =>
      on_arr xs
        ((fix all (l : list json) : Forall P l :=
            match l with
            | [] => Forall_nil P
            | x :: l' => Forall_cons x (json_induction x) (all l')
            end) xs)
  | JObj kvs =>
      on_obj kvs
        ((fix all (l : list (string * json))
            : Forall (fun kv => P (snd kv)) l :=
            match l with
            | [] => Forall_nil _
            | kv :: l' =>
                Forall_cons kv (json_induction (snd kv)) (all l')
            end) kvs)
  end.
End JsonInduction.

(** No string occurs twice in [l]. *)
Fixpoint distinct (l : list string) : bool :=
  match l with
  | [] => true
  | k :: l' => negb (existsb (String.eqb k) l') && distinct l'
  end.

(** Every dictionary of the value has each key once, as a Python
    dictionary has. *)
Fixpoint unique_keys (v : json) : bool :=
  match v with
  | JArr xs => forallb unique_keys xs
  | JObj kvs =>
      distinct (map fst kvs)
      && forallb (fun kv => unique_keys (snd kv)) kvs
  | _ => true
  end.

(** Two values have the same content: they are equal up to the order of
    the members of their dictionaries, at every depth. *)
Fixpoint same_content (a b : json) {struct a} : bool :=
  match a, b with
  | JNull, JNull => true
  | JBool x, JBool y => Bool.eqb x y
  | JInt n, JInt m => (n =? m)%Z
  | JStr s, JStr t => String.eqb s t
  | JArr xs, JArr ys =>
      (fix same_list (xs ys : list json) {struct xs} : bool :=
         match xs, ys with
         | [], [] => true
         | x :: xs', y :: ys' => same_content x y && same_list xs' ys'
         | _, _ => false
         end) xs ys
  | JObj d1, JObj d2 =>
      (length d1 =? length d2)%nat
      && (fix sub (d : list (string * json)) {struct d} : bool :=
            match d with
            | [] => true
            | (k, v) :: d' =>
                match Dict.get k d2 with
                | Some w => same_content v w && sub d'
                | None => false
                end
            end) d1
  | _, _ => false
  end.

(** A digit of lower-case hexadecimal. *)
Definition is_lower_hex (c : ascii) : bool :=
  let n := Text.code c in
  ((48 <=? n)%N && (n <=? 57)%N) || ((97 <=? n)%N && (n <=? 102)%N).

Fixpoint all_lower_hex (s : string) : bool :=
  match s with
  | EmptyString => true
  | String c r => is_lower_hex c && all_lower_hex r
  end.

(** The order of the members of a sorted dictionary. *)
Definition key_le (a b : string * json) : Prop :=
  String.leb (fst a) (fst b) = true.


(** The members of [d1] found in [d2], as [same_content] checks them. *)
Definition members_match (d1 d2 : list (string * json)) : bool :=
  (fix sub (d : list (string * json)) : bool :=
     match d with
     | [] => true
     | (k, v) :: d' =>
         match Dict.get k d2 with
         | Some w => same_content v w && sub d'
         | None => false
         end
     end) d1.


(** ** What [chain] is to return *)

(** The records of the log under the correlation key [k], in the order of
    the log: the lines that are the JSON text of a dictionary whose
    ["trace_id"] is the string [k]. *)
Definition is_under (k : string) (d : dict) : bool :=
  match Dict.get "trace_id" d with
  | Some (JStr t) => String.eqb t k
  | _ => false
  end.

Definition records_under (k : string) (lines : list string) : list dict :=
  flat_map
    (fun ln =>
       match Decoder.json_loads ln with
       | Ret (JObj d) => if is_under k d then [d] else []
       | _ => []
       end)
    lines.



(** The hop of the record is an integer and its timestamp a string, or
    they are missing. *)
Definition plain_key (x : dict) : bool :=
  match ReceiptStore.sort_key x with
  | (JInt _, JStr _) => true
  | _ => false
  end.



(** ** Line boundaries inside a text *)

(** A line boundary of [str.splitlines] starts at the head of [s]. *)
Definition boundary_at (s : string) : bool :=
  match s with
  | String c1 r1 =>
      Text.is_break1 c1 || Text.is_cr c1
      || match r1 with
         | String c2 r2 =>
             Text.is_nel c1 c2
             || match r2 with
                | String c3 _ => Text.is_lsep c1 c2 c3
                | EmptyString => false
                end
         | EmptyString => false
         end
  | EmptyString => false
  end.

(** A line boundary starts inside [cur] when [cur] is followed by [s]. *)
Fixpoint breaks_within (cur s : string) : bool :=
  match cur with
  | EmptyString => false
  | String _ r => boundary_at (cur ++ s) || breaks_within r s
  end.

(** A line boundary stands in [s]. *)
Definition has_break (s : string) : bool := breaks_within s EmptyString.

(** The text [_write_lines] writes for the lines [ls] followed by the
    text [tail]. *)
Fixpoint written_text (ls : list string) (tail : string) : string :=
  match ls with
  | [] => tail
  | l :: ls' => (l ++ String Text.LF (written_text ls' tail))%string
  end.


(** ** What serialized calls of [add] would guarantee *)

(** The outcome of a call of [add] as the state of a call that is over. *)
Definition call_of (o : outcome dict) : Threads.call :=
  match o with
  | Ret r2 => Threads.Returned r2
  | Raise e => Threads.Raised e
  end.

(** Each of the two calls takes its two steps. *)
Definition complete (schedule : list bool) : bool :=
  (length (filter negb schedule) =? 2)%nat
  && (length (filter (fun b => b) schedule) =? 2)%nat.

(** However the steps of the two calls are interleaved, when both return
    the log holds the line of either receipt (no update is lost) and the
    two receipts do not claim the same predecessor. *)
Definition serialized {lib : Library} (self : ReceiptStore.t)
    (now1 now2 : Z) (r1 r2 : dict) (f : ReceiptStore.file) : Prop :=
  forall schedule : list bool,
    complete schedule = true ->
    let '(c1, c2, f') :=
      Threads.run self schedule
        (Threads.Ready now1 r1, Threads.Ready now2 r2, f) in
    forall x y : dict,
      Threads.receipt c1 = Some x -> Threads.receipt c2 = Some y ->
      (In (Encoder.json_dumps (JObj x)) (lines_of f')
       /\ In (Encoder.json_dumps (JObj y)) (lines_of f'))
      /\ Dict.get "prev_receipt_hash" x <> Dict.get "prev_receipt_hash" y.

(** ** The text of [json.dumps], for reading it back *)

Section TextOfDumps.
Import Text Encoder Decoder.

(** What may follow a value in the text of [json.dumps]: nothing, or a
    comma, a closing bracket or a closing brace. *)
Definition closes (rest : string) : bool :=
  match rest with
  | EmptyString => true
  | String c _ =>
      (code c =? 44)%N || (code c =? 93)%N || (code c =? 125)%N
  end.

(** The elements of an array and the members of a dictionary, as
    [json.dumps] writes them between the brackets. *)
Fixpoint items_text (xs : list json) : string :=
  match xs with
  | [] => EmptyString
  | x :: xs' =>
      match xs' with
      | [] => json_dumps x
      | _ => json_dumps x ++ ", " ++ items_text xs'
      end
  end.

Fixpoint members_text (kvs : list (string * json)) : string :=
  match kvs with
  | [] => EmptyString
  | (k, x) :: kvs' =>
      match kvs' with
      | [] => quoted k ++ ": " ++ json_dumps x
      | _ => quoted k ++ ": " ++ json_dumps x ++ ", " ++ members_text kvs'
      end
  end.

(** The steps [scan_once] needs for the text of a value. *)
Fixpoint weight (v : json) : nat :=
  match v with
  | JArr xs =>
      S ((fix go (xs : list json) : nat :=
            match xs with
            | [] => 0
            | x :: xs' => S (weight x + go xs')
            end) xs)
  | JObj kvs =>
      S ((fix go (kvs : list (string * json)) : nat :=
            match kvs with
            | [] => 0
            | (_, x) :: kvs' => S (weight x + go kvs')
            end) kvs)
  | _ => 1
  end.

Definition items_weight (xs : list json) : nat :=
  fold_right (fun x n => S (weight x + n)) 0 xs.

Definition members_weight (kvs : list (string * json)) : nat :=
  fold_right (fun kv n => S (weight (snd kv) + n)) 0 kvs.

(** The text of a value starts with a character that is no white space
    and closes nothing. *)
Definition opens (s : string) : Prop :=
  match s with
  | String c _ =>
      is_ws c = false /\ (code c =? 93)%N = false /\ (code c =? 125)%N = false
  | EmptyString => False
  end.

(** The text of [v], followed by [rest], is read back as [v] and
    [rest]. *)
Definition reads_back (v : json) : Prop :=
  forall (rest : string) (fuel : nat),
    weight v <= fuel -> closes rest = true ->
    scan_once fuel (json_dumps v ++ rest) = Some (v, rest).

(** A text without its first character. *)
Definition behind (s : string) : string :=
  match s with
  | String _ t => t
  | EmptyString => EmptyString
  end.

(** An ASCII character that is no line boundary. *)
Definition inert_char (c : ascii) : bool :=
  (code c <? 128)%N && negb (is_break1 c) && negb (is_cr c).

Fixpoint inert (s : string) : bool :=
  match s with
  | EmptyString => true
  | String c r => inert_char c && inert r
  end.

(** The text is empty or starts with an ASCII character. *)
Definition ascii_head (s : string) : bool :=
  match s with
  | EmptyString => true
  | String c _ => (code c <? 128)%N
  end.

(** Every string of the value, keys included, is free of line
    boundaries. *)
Fixpoint plain_text (v : json) : bool :=
  match v with
  | JStr s => negb (has_break s)
  | JArr xs => forallb plain_text xs
  | JObj kvs =>
      forallb (fun kv => negb (has_break (fst kv)) && plain_text (snd kv)) kvs
  | _ => true
  end.

End TextOfDumps.

(** ** What a chain of receipts is *)

(** The calls of [add] one after the other, as a loop makes them: each
    with the reading of the clock at its time.  The loop ends at the
    first call that raises. *)
Fixpoint add_each {lib : Library} (self : ReceiptStore.t)
    (calls : list (Z * dict)) : io ReceiptStore.file (list dict) :=
  match calls with
  | [] => IO.ret []
  | (now, r) :: rest =>
      x <- ReceiptStore.add self now r ;;
      xs <- add_each self rest ;;
      IO.ret (x :: xs)
  end.

(** Each receipt carries [prev] as predecessor, where [prev] is the
    [receipt_hash] of the receipt before it, and [first] for the
    first. *)
Fixpoint linked (first : json) (receipts : list dict) : Prop :=
  match receipts with
  | [] => True
  | x :: rest =>
      Dict.get "prev_receipt_hash" x = Some first
      /\ exists h, Dict.get "receipt_hash" x = Some (JStr h)
                   /\ linked (JStr h) rest
  end.

(** The pruning of a call at [now] keeps the receipt of the record
    [r0]: pruning is off, or the timestamp of [r0] does not compare
    older than the cutoff. *)
Definition kept_at {lib : Library} (self : ReceiptStore.t) (now : Z)
    (r0 : dict) : bool :=
  (ReceiptStore.max_age_seconds self <=? 0)%Z
  || or_else
       (let! ts := ReceiptStore.parse_ts (Dict.get_or_none "ts" r0) in
        datetime_ge ts (minus_seconds now (ReceiptStore.max_age_seconds self)))
       true.

(** Every call keeps the receipt of the call before it. *)
Fixpoint kept_in_turn {lib : Library} (self : ReceiptStore.t)
    (previous : option dict) (calls : list (Z * dict)) : Prop :=
  match calls with
  | [] => True
  | (now, r) :: rest =>
      match previous with
      | Some r0 => kept_at self now r0 = true
      | None => True
      end
      /\ kept_in_turn self (Some r) rest
  end.

(** A record as a Python dictionary of JSON values: each key once, at
    every depth. And one whose strings hold no line boundary. *)
Definition well_formed (r : dict) : bool := unique_keys (JObj r).

Definition one_line (r : dict) : bool := plain_text (JObj r).

(** What the log holds before a call, for the receipts so far to be
    linked: nothing and no predecessor, or the line of the receipt of
    [r0] last and its hash as predecessor. *)
Definition chained (f : ReceiptStore.file) (prev : json)
    (previous : option dict) : Prop :=
  match previous with
  | None => lines_of f = [] /\ prev = JNull
  | Some r0 =>
      exists (L : list string) (p0 : json),
        lines_of f = (L ++ [Encoder.json_dumps (JObj (receipt_of p0 r0))])%list
        /\ prev = JStr (receipt_hash_of p0 r0)
        /\ well_formed r0 = true /\ unique_keys p0 = true
  end.


(** ** Concrete inputs *)

(** The inputs at which the properties below are run. *)
Module Sample.

Definition store : ReceiptStore.t := ReceiptStore.Make "receipts.log.jsonl" 0.

Definition remote : FirestoreReceiptStore.t :=
  FirestoreReceiptStore.Make "demo-project" "receipts"
    "firestore://demo-project/receipts".

Definition online : FirestoreReceiptStore.answers :=
  FirestoreReceiptStore.Answers false false.

(** A plain record. *)
Definition hop0 : dict :=
  [("trace_id", JStr "trace-x"); ("hop", JInt 0);
   ("ts", JStr "2025-01-01T00:00:00Z")].

Definition hop1 : dict :=
  [("trace_id", JStr "trace-x"); ("hop", JInt 1);
   ("ts", JStr "2025-01-01T00:00:10Z")].

(** U+0085 NEXT LINE, in UTF-8. *)
Definition NEL : string :=
  String (ascii_of_N 194) (String (ascii_of_N 133) EmptyString).

(** A record with a NEXT LINE character in one of its strings. *)
Definition with_nel : dict :=
  [("trace_id", JStr "trace-x"); ("hop", JInt 0);
   ("note", JStr ("a" ++ NEL ++ "b"))].

End Sample.

(** A remote project and the caching flag are both configured. *)
Definition remote_and_cache (fails : bool) : environment :=
  {| FIRESTORE_PROJECT := Some "demo-project";
     ODIN_RECEIPT_CACHE := Some "1";
     ODIN_RECEIPT_CACHE_TTL_SECONDS := None;
     ODIN_RECEIPT_CACHE_SIZE := None;
     ODIN_LOCAL_RECEIPTS := None;
     ODIN_RETENTION_MAX_AGE_SECONDS := None;
     client_fails := fails |}.


Module CacheSample.

(** A decorator over the file-backed store, with the default settings. *)
Definition fresh_cache : CachingReceiptStore.t ReceiptStore.t :=
  CachingReceiptStore.Make Sample.store 300 1000 [] [] 0.


(** The decorator and the log before anything happened. *)
Definition start : CachingReceiptStore.t ReceiptStore.t * ReceiptStore.file :=
  (fresh_cache, None).

(** The two methods of the decorator over the file-backed store, with the
    reference library. *)
Definition add (now : Z) (r : dict)
  : io (CachingReceiptStore.t ReceiptStore.t * ReceiptStore.file) dict :=
  CachingReceiptStore.add (S := file_store (lib := Reference.library)) now r.

Definition chain (now : Z) (trace_id : string)
  : io (CachingReceiptStore.t ReceiptStore.t * ReceiptStore.file) (list dict) :=
  CachingReceiptStore.chain (S := file_store (lib := Reference.library))
    now now now trace_id.

End CacheSample.

Module EncoderSample.

(** One mapping written in two orders, with a nested mapping written in
    two orders as well. *)
Definition written_one_way : json :=
  JObj [("trace_id", JStr "trace-x"); ("hop", JInt 0);
        ("payload", JObj [("n", JInt 1); ("m", JArr [JBool true; JNull])])].

Definition written_another_way : json :=
  JObj [("payload", JObj [("m", JArr [JBool true; JNull]); ("n", JInt 1)]);
        ("hop", JInt 0); ("trace_id", JStr "trace-x")].

End EncoderSample.

Module ChainSample.



(** The documents of a collection: two under [trace-x], hop 1 before
    hop 0, and one under another key. *)
Definition documents : FirestoreReceiptStore.documents :=
  [Sample.hop1;
   [("trace_id", JStr "other"); ("hop", JInt 0)];
   Sample.hop0].

(** Three calls of [add], with the reading of the clock at each: the
    records of hops 2, 0 and 1 under [trace-x]. *)
Definition calls : list (Z * dict) :=
  [(0%Z, [("trace_id", JStr "trace-x"); ("hop", JInt 2);
          ("ts", JStr "2025-01-01T00:00:00Z")]);
   (1%Z, Sample.hop0);
   (2%Z, Sample.hop1)].

(** The receipts these calls return, from a store without log. *)
Definition receipts : list dict :=
  Eval vm_compute in
    match fst (add_each (lib := Reference.library) Sample.store calls None)
    with
    | Ret returned => returned
    | Raise _ => []
    end.

End ChainSample.

Module PruneSample.

(** A store that keeps its entries for one minute. *)
Definition store : ReceiptStore.t := ReceiptStore.Make "receipts.log.jsonl" 60.

(** The line of a record stamped 2025-01-01T00:00:00Z. *)
Definition old_line : string :=
  Text.dq "{'trace_id': 'trace-x', 'hop': 0, 'ts': '2025-01-01T00:00:00Z'}".

Definition old_record : dict :=
  [("trace_id", JStr "trace-x"); ("hop", JInt 0);
   ("ts", JStr "2025-01-01T00:00:00Z")].

Definition log : ReceiptStore.file :=
  Some (old_line ++ Text.str1 Text.LF).

(** One hour later, in microseconds since the epoch. *)
Definition now : Z := 1735693200000000.

(** The record added then. *)
Definition fresh : dict :=
  [("trace_id", JStr "trace-x"); ("hop", JInt 1);
   ("ts", JStr "2025-01-01T01:00:00Z")].




End PruneSample.

(* ================================================================== *)
(** * Further definitions: the log, the cache and the callers *)
(* ================================================================== *)

(** ** What the file-backed store can date *)


(** ** [app/receipts.py]: the statistics of the decorator *)

(** [CachingReceiptStore.cache_stats] *)
Definition cache_stats {Self : Type} (self : CachingReceiptStore.t Self)
  : dict :=
  [("trace_ids",
    JInt (Z.of_nat (length (CachingReceiptStore._chains self))));
   ("receipts", JInt (CachingReceiptStore._total_cached self));
   ("ttl_seconds", JInt (CachingReceiptStore.ttl_seconds self));
   ("max_size", JInt (CachingReceiptStore.max_size self))].

(** ** Calls on the decorator, one after the other *)

(** A call of [add] or of [chain] with what the outside world gives it:
    for [add] what the wrapped store reads of the world, for [chain]
    also the two readings of the clock. *)
Inductive request (Env : Type) : Type :=
| Add (env : Env) (r : dict)
| Chain (env : Env) (now now' : Z) (trace_id : string).
Arguments Add {Env} env r.
Arguments Chain {Env} env now now' trace_id.

Section Requests.
Context {Self Env World : Type} {S : Store Self Env World}.

(** The decorator and the world after the call, whether it returned or
    raised. *)
Definition serve (st : CachingReceiptStore.t Self * World)
    (c : request Env) : CachingReceiptStore.t Self * World :=
  match c with
  | Add env r => snd (CachingReceiptStore.add env r st)
  | Chain env now now' k => snd (CachingReceiptStore.chain env now now' k st)
  end.

Definition serve_all (calls : list (request Env))
    (st : CachingReceiptStore.t Self * World)
  : CachingReceiptStore.t Self * World :=
  fold_left serve calls st.

End Requests.

(** The receipts the decorator holds: [sum(len(v) for v in
    self._chains.values())]. *)
Definition receipts_in (chains : list (string * list dict)) : Z :=
  fold_right (fun kv n => (Z.of_nat (length (snd kv)) + n)%Z) 0%Z chains.

Definition cached_receipts {Self : Type} (self : CachingReceiptStore.t Self)
  : Z :=
  receipts_in (CachingReceiptStore._chains self).

(** The two dictionaries of the decorator hold the same keys in the same
    order, each once. *)
Definition in_step {Self : Type} (self : CachingReceiptStore.t Self) : Prop :=
  map fst (CachingReceiptStore._chains self)
  = map fst (CachingReceiptStore._last_refresh self)
  /\ distinct (map fst (CachingReceiptStore._chains self)) = true.

(** What every call keeps of the decorator: the two dictionaries in
    step, the count [_total_cached] not below the receipts held, and
    within [max_size] when there is a bound. *)
Definition bounded {Self : Type} (self : CachingReceiptStore.t Self) : Prop :=
  in_step self
  /\ (cached_receipts self <= CachingReceiptStore._total_cached self)%Z
  /\ (0 < CachingReceiptStore.max_size self ->
      CachingReceiptStore._total_cached self
      <= CachingReceiptStore.max_size self)%Z.

(** ** Records as the request handler builds them *)

(** The record is a dictionary of JSON values with each key once, holds
    no line boundary in its strings, and its ["trace_id"] is a string
    that is not empty. *)
Definition keyed (r : dict) : bool :=
  match Dict.get "trace_id" r with
  | Some (JStr k) => negb (String.eqb k EmptyString)
  | _ => false
  end.

Definition admissible {Env : Type} (c : request Env) : bool :=
  match c with
  | Add _ r => well_formed r && one_line r && keyed r
  | Chain _ _ _ _ => true
  end.

(** Every line of the log is the text [json.dumps] writes for a
    dictionary with each key once and no line boundary in its strings:
    what [add] leaves of a log it started. *)
Definition receipt_line (ln : string) : Prop :=
  exists d : dict,
    ln = Encoder.json_dumps (JObj d)
    /\ well_formed d = true /\ one_line d = true.

Definition well_kept (f : ReceiptStore.file) : Prop :=
  Forall receipt_line (lines_of f).

(** What the decorator over the file-backed store [store0] holds is what
    the store returns on the log as it is, and the log holds receipt
    lines only. *)
Definition coherent (store0 : ReceiptStore.t)
    (st : CachingReceiptStore.t ReceiptStore.t * ReceiptStore.file)
  : Prop :=
  CachingReceiptStore.store (fst st) = store0
  /\ well_kept (snd st)
  /\ forall (k : string) (out : list dict),
       Dict.get k (CachingReceiptStore._chains (fst st)) = Some out ->
       fst (ReceiptStore.chain store0 k (snd st)) = Ret out.

(** ** [app/main.py]: the health endpoint *)

(** [store.path]: the two stores set the attribute in [__init__]; the
    decorator sets none and defines no [__getattr__]. *)
Definition store_path (store : selected) : outcome string :=
  match store with
  | FileBacked s => Ret (ReceiptStore.path s)
  | RemoteBacked s => Ret (FirestoreReceiptStore.path s)
  | Cached _ => Raise AttributeError
  end.

(** [healthz]: [signer] tells whether a signer was loaded, [version] is
    [app.version]. *)
Definition healthz (signer : bool) (store : selected) (version : string)
  : outcome dict :=
  let! receipts_path := store_path store in
  Ret [("ok", JBool true);
       ("signer", JBool signer);
       ("receipts_path", JStr receipts_path);
       ("version", JStr version)].

(** ** [app/utils.py]: base64 for URLs *)

(** A [bytes] object is a [string]: one character for each byte. *)

Module Base64.
Import Text.

Local Open Scope N_scope.

(** The character of the URL-safe alphabet that stands for a value
    below 64: A to Z, a to z, 0 to 9, then [-] and [_]. *)
Definition url_char (n : N) : ascii :=
  if n <? 26 then ascii_of_N (65 + n)
  else if n <? 52 then ascii_of_N (97 + (n - 26))
  else if n <? 62 then ascii_of_N (48 + (n - 52))
  else if n =? 62 then ascii_of_N 45
  else ascii_of_N 95.

Definition PAD : ascii := ascii_of_N 61.

(** [base64.urlsafe_b64encode]: three bytes are written as four
    characters of six bits each; one or two bytes left at the end are
    written as two or three characters and padded to four with [=].
    The shifts and masks are written as divisions and remainders. *)
Fixpoint urlsafe_b64encode (data : string) : string :=
  match data with
  | EmptyString => EmptyString
  | String a EmptyString =>
      let x := code a in
      String (url_char (x / 4))
        (String (url_char ((x mod 4) * 16))
           (String PAD (String PAD EmptyString)))
  | String a (String b EmptyString) =>
      let x := code a in
      let y := code b in
      String (url_char (x / 4))
        (String (url_char ((x mod 4) * 16 + y / 16))
           (String (url_char ((y mod 16) * 4))
              (String PAD EmptyString)))
  | String a (String b (String c rest)) =>
      let x := code a in
      let y := code b in
      let z := code c in
      String (url_char (x / 4))
        (String (url_char ((x mod 4) * 16 + y / 16))
           (String (url_char ((y mod 16) * 4 + z / 64))
              (String (url_char (z mod 64))
                 (urlsafe_b64encode rest))))
  end.

(** [s.rstrip("=")] *)
Fixpoint rstrip_pad (s : string) : string :=
  match s with
  | EmptyString => EmptyString
  | String c r =>
      match rstrip_pad r with
      | EmptyString =>
          if code c =? 61 then EmptyString else String c EmptyString
      | r' => String c r'
      end
  end.

(** The value of a character of the standard alphabet (A to Z, a to z,
    0 to 9, [+] and [/]), as [binascii] looks it up. *)
Definition std_value (c : ascii) : option N :=
  let n := code c in
  if (65 <=? n) && (n <=? 90) then Some (n - 65)
  else if (97 <=? n) && (n <=? 122) then Some (n - 97 + 26)
  else if (48 <=? n) && (n <=? 57) then Some (n - 48 + 52)
  else if n =? 43 then Some 62
  else if n =? 47 then Some 63
  else None.

(** [binascii.a2b_base64] without strict mode, from a position
    [quad_pos] in the current group of four characters, with the bits
    [leftchar] left over and [pads] padding characters seen since the
    last character of the alphabet.  A character outside the alphabet is
    skipped.  A [=] counts only from the third place of a group on, and
    the padding that completes the group ends the decoding, whatever
    follows.  The text must end with a complete group. *)
Fixpoint a2b_from (quad_pos : nat) (leftchar : N) (pads : nat) (s : string)
  : outcome string :=
  match s with
  | EmptyString =>
      match quad_pos with
      | O => Ret EmptyString
      | _ => Raise ValueError
      end
  | String c r =>
      if code c =? 61 then
        if Nat.leb 2 quad_pos then
          if Nat.leb 4 (quad_pos + S pads) then Ret EmptyString
          else a2b_from quad_pos leftchar (S pads) r
        else a2b_from quad_pos leftchar pads r
      else
        match std_value c with
        | None => a2b_from quad_pos leftchar pads r
        | Some v =>
            match quad_pos with
            | 0%nat => a2b_from 1 v 0 r
            | 1%nat =>
                let! rest := a2b_from 2 (v mod 16) 0 r in
                Ret (String (ascii_of_N (leftchar * 4 + v / 16)) rest)
            | 2%nat =>
                let! rest := a2b_from 3 (v mod 4) 0 r in
                Ret (String (ascii_of_N (leftchar * 16 + v / 4)) rest)
            | _ =>
                let! rest := a2b_from 0 0 0 r in
                Ret (String (ascii_of_N (leftchar * 64 + v)) rest)
            end
        end
  end.

Definition a2b_base64 (s : string) : outcome string := a2b_from 0 0 0 s.

Definition is_ascii (s : string) : bool :=
  (fix go (s : string) : bool :=
     match s with
     | EmptyString => true
     | String c r => (code c <? 128) && go r
     end) s.

(** [s.translate(_urlsafe_decode_translation)]: [-] becomes [+] and [_]
    becomes [/]. *)
Definition to_standard_char (c : ascii) : ascii :=
  if code c =? 45 then ascii_of_N 43
  else if code c =? 95 then ascii_of_N 47
  else c.

Fixpoint to_standard (s : string) : string :=
  match s with
  | EmptyString => EmptyString
  | String c r => String (to_standard_char c) (to_standard r)
  end.

(** [base64.urlsafe_b64decode] of a [str]: a character that is not
    ASCII is refused, then the text is decoded without validation. *)
Definition urlsafe_b64decode (s : string) : outcome string :=
  if is_ascii s then a2b_base64 (to_standard s) else Raise ValueError.

Fixpoint padding (n : nat) : string :=
  match n with
  | O => EmptyString
  | S n' => String PAD (padding n')
  end.

(** A character of the URL-safe alphabet. *)
Definition is_url_char (c : ascii) : bool :=
  let n := code c in
  ((65 <=? n) && (n <=? 90)) || ((97 <=? n) && (n <=? 122))
  || ((48 <=? n) && (n <=? 57)) || (n =? 45) || (n =? 95).

Fixpoint all_url_chars (s : string) : bool :=
  match s with
  | EmptyString => true
  | String c r => is_url_char c && all_url_chars r
  end.

End Base64.

(** [b64u] *)
Definition b64u (data : string) : string :=
  Base64.rstrip_pad (Base64.urlsafe_b64encode data).

(** [b64u_decode].  The length of a [str] is its number of characters;
    on a text with a character that is not ASCII the number of bytes
    taken here differs, and the decoding raises whatever the padding. *)
Definition b64u_decode (s : string) : outcome string :=
  let pad := Base64.padding ((4 - String.length s mod 4) mod 4) in
  Base64.urlsafe_b64decode (s ++ pad).

(** ** [app/crypto.py]: the signer *)

(** The two functions of Ed25519 the signer uses, taken as they are: the
    public key of a seed of 32 bytes, and the signature of a message
    under a seed. *)
Class Ed25519 : Type := {
  public_bytes : string -> string;
  sign_bytes : string -> string -> string
}.

Module GatewaySigner.

(** The object: [kid] and the seed [_priv] was made of. *)
Record t : Type := Make {
  kid : string;
  seed : string
}.

(** [__init__]: [Ed25519PrivateKey.from_private_bytes] takes any 32
    bytes. *)
Definition init (priv_seed_b64u kid : string) : outcome t :=
  let! seed := b64u_decode priv_seed_b64u in
  if Nat.eqb (String.length seed) 32 then Ret (Make kid seed)
  else Raise ValueError.

Section Methods.
Context {ed : Ed25519}.

Definition sign (self : t) (message : string) : string :=
  b64u (sign_bytes (seed self) message).

Definition public_jwk (self : t) : dict :=
  [("kty", JStr "OKP"); ("crv", JStr "Ed25519");
   ("x", JStr (b64u (public_bytes (seed self))));
   ("kid", JStr (kid self)); ("status", JStr "active")].

End Methods.
End GatewaySigner.

(** The dictionaries a [for] loop over [v] meets.  A list gives its
    elements; a dictionary gives its keys and a string its characters,
    none of which is a dictionary; nothing else can be iterated. *)
Definition dict_elements (v : json) : outcome (list dict) :=
  match v with
  | JArr xs =>
      Ret (flat_map (fun x => match x with JObj d => [d] | _ => [] end) xs)
  | JObj _ | JStr _ => Ret []
  | _ => Raise TypeError
  end.

(** [a or b] *)
Definition py_or (a b : json) : json := if Py.truthy a then a else b.

(** [merge_jwks] *)
Definition merge_jwks (active : option dict) (additional_json : option string)
  : dict :=
  let keys :=
    match active with
    | Some (kv :: d) => [kv :: d]
    | _ => []
    end in
  let more :=
    match additional_json with
    | Some (String c s) =>
        or_else
          (let! extra := Decoder.json_loads (String c s) in
           let! d := as_dict extra in
           dict_elements (py_or (Dict.get_or_none "keys" d) (JArr [])))
          []
    | _ => []
    end in
  [("keys", JArr (map JObj (keys ++ more)%list))].

(** [jwks]: [signer] is the signer loaded at start, [additional] the
    value of [ODIN_ADDITIONAL_PUBLIC_JWKS]. *)
Definition jwks {ed : Ed25519} (signer : option GatewaySigner.t)
    (additional : option string) : dict :=
  let active :=
    match signer with
    | Some s => Some (GatewaySigner.public_jwk s)
    | None => None
    end in
  merge_jwks active additional.

(** ** [hmac] with SHA-256 *)

Module Hmac.
Import Text.

Definition of_codes (l : list N) : string :=
  fold_right (fun n s => String (ascii_of_N n) s) EmptyString l.

(** [hashlib.sha256(data).digest()]: the eight words, big end first. *)
Definition sha256_digest (data : string) : string :=
  let s := SHA256.digest data in
  of_codes
    (flat_map (SHA256.be_bytes 4)
       [SHA256.ha s; SHA256.hb s; SHA256.hc s; SHA256.hd s;
        SHA256.he s; SHA256.hf s; SHA256.hg s; SHA256.hh s]).

Fixpoint xor_with (pad : N) (key : string) : string :=
  match key with
  | EmptyString => EmptyString
  | String c r => String (ascii_of_N (N.lxor (code c) pad)) (xor_with pad r)
  end.

Fixpoint zeros (n : nat) : string :=
  match n with
  | O => EmptyString
  | S n' => String (ascii_of_N 0) (zeros n')
  end.

(** [hmac.new(key, msg, hashlib.sha256).digest()]: a key longer than the
    block of 64 bytes is hashed first, a shorter one is filled with
    zeros. *)
Definition hmac_sha256 (key msg : string) : string :=
  let key :=
    if Nat.ltb 64 (String.length key) then sha256_digest key else key in
  let key := (key ++ zeros (64 - String.length key))%string in
  sha256_digest (xor_with 92 key ++ sha256_digest (xor_with 54 key ++ msg)).

End Hmac.

(** ** More of [str] *)

Module Str.
Import Text.

(** [s.lstrip()], [s.rstrip()] and [s.strip()]: white space is what
    [str.isspace] holds for. *)
Fixpoint lstrip (s : string) : string :=
  match s with
  | EmptyString => EmptyString
  | String c1 r1 =>
      if is_space1 c1 then lstrip r1
      else
        match r1 with
        | String c2 r2 =>
            if is_space2 c1 c2 then lstrip r2
            else
              match r2 with
              | String c3 r3 =>
                  if is_space3 c1 c2 c3 then lstrip r3 else s
              | EmptyString => s
              end
        | EmptyString => s
        end
  end.

Fixpoint rstrip (s : string) : string :=
  match s with
  | EmptyString => EmptyString
  | String c r => if all_space s then EmptyString else String c (rstrip r)
  end.

Definition strip (s : string) : string := rstrip (lstrip s).

(** [s.split(sep)] for a separator of one character; [cur] is the item
    read so far. *)
Fixpoint split_from (sep : ascii) (cur s : string) : list string :=
  match s with
  | EmptyString => [cur]
  | String c r =>
      if Ascii.eqb c sep then cur :: split_from sep EmptyString r
      else split_from sep (cur ++ str1 c) r
  end.

Definition split (sep : ascii) (s : string) : list string :=
  split_from sep EmptyString s.

(** [s.replace(old, new)] for an [old] that is not empty: the
    occurrences are taken from the left and do not overlap.  [fuel]
    bounds the number of steps; the length of [s] is enough. *)
Fixpoint replace_from (fuel : nat) (old new s : string) : string :=
  match fuel with
  | O => s
  | S fuel' =>
      match s with
      | EmptyString => EmptyString
      | String c r =>
          match Decoder.strip_prefix old s with
          | Some rest => (new ++ replace_from fuel' old new rest)%string
          | None => String c (replace_from fuel' old new r)
          end
      end
  end.

Definition replace (old new s : string) : string :=
  replace_from (String.length s) old new s.

End Str.

(** ** [app/hel.py] *)

(** [urlparse(url).hostname or ""], taken as it is; it raises
    [ValueError] on some texts. *)
Class Urls : Type := {
  hostname : string -> outcome string
}.

Module Hel.

(** [_parse_allowlist]: [allowlist] is the value of [HEL_ALLOWLIST]. *)
Definition _parse_allowlist (allowlist : option string) : list string :=
  let s := Str.strip (match allowlist with
                      | Some v => v
                      | None => EmptyString
                      end) in
  match s with
  | EmptyString => []
  | _ =>
      let s := Str.replace "__SL__" "/" s in
      flat_map
        (fun h => match Str.strip h with
                  | EmptyString => []
                  | item => [item]
                  end)
        (Str.split "," s)
  end.

Definition check_forward_allowed {urls : Urls} (allowlist : option string)
    (forward_url : option string) : outcome (bool * string) :=
  match forward_url with
  | Some (String c u) =>
      let! host := hostname (String c u) in
      match _parse_allowlist allowlist with
      | [] => Ret (false, "deny_no_allowlist_configured")
      | allow =>
          let listed := existsb (String.eqb host) allow in
          Ret (listed,
               ((if listed then "allowed" else "blocked") ++ ":" ++ host)%string)
      end
  | _ => Ret (true, "no_forward_url")
  end.

End Hel.

(** ** [app/sft.py] *)

Module Sft.

(** [first] of [_to_iso20022_invoice], called with [names]. *)
Fixpoint first (payload : dict) (names : list string) : json :=
  match names with
  | [] => JNull
  | n :: rest =>
      match Dict.get n payload with
      | Some JNull | None => first payload rest
      | Some v => v
      end
  end.

(** One element of [norm_lines]. *)
Definition norm_line (ln : dict) : dict :=
  let get (k : string) := Dict.get_or_none k ln in
  [("description", py_or (get "description") (get "name"));
   ("quantity", py_or (py_or (get "quantity") (get "qty")) (JInt 1));
   ("unit_price",
    py_or (py_or (get "unit_price") (get "price")) (get "unitPrice"));
   ("total", py_or (py_or (get "total") (get "line_total")) (get "amount"))].

Definition _to_iso20022_invoice (payload : dict) : outcome dict :=
  let total :=
    first payload ["total"; "amount_total"; "gross_amount"; "amount"] in
  let currency :=
    py_or (first payload ["currency"; "ccy"; "iso_currency"]) (JStr "USD") in
  let invoice_id := first payload ["invoice_id"; "id"; "number"] in
  let supplier := first payload ["supplier"; "vendor"; "from"] in
  let customer := first payload ["customer"; "to"; "recipient"] in
  let issue_date := first payload ["issue_date"; "date"; "created_at"] in
  let lines :=
    py_or (py_or (Dict.get_or_none "lines" payload)
                 (Dict.get_or_none "items" payload))
          (JArr []) in
  let! found := dict_elements lines in
  let norm_lines := map (fun ln => JObj (norm_line ln)) found in
  Ret [("type", JStr "invoice.iso20022.v1");
       ("invoice_id", invoice_id);
       ("currency", currency);
       ("total", total);
       ("issue_date", issue_date);
       ("supplier", supplier);
       ("customer", customer);
       ("lines", JArr norm_lines);
       ("raw_source", JObj payload)].

Definition is_invoice (payload_type target_type : string) : bool :=
  String.eqb target_type "invoice.iso20022.v1"
  && (String.eqb payload_type "openai.tooluse.invoice.v1"
      || String.eqb payload_type "invoice.vendor.v1").

Definition normalize (payload : dict) (payload_type target_type : string)
  : outcome dict :=
  if is_invoice payload_type target_type then _to_iso20022_invoice payload
  else Ret payload.

(** [str(e)] for the one exception [normalize] raises: the [for] loop
    over a number or over [True]. *)
Definition not_iterable (payload : dict) : string :=
  match py_or (py_or (Dict.get_or_none "lines" payload)
                     (Dict.get_or_none "items" payload))
              (JArr []) with
  | JBool _ => "'bool' object is not iterable"
  | _ => "'int' object is not iterable"
  end.

End Sft.

(** ** [app/billing.py], as the request handler sees it *)

(** The two functions of the billing module the handler calls, taken as
    they are, on a state of the module of type [B]:
    [enforce_quota(project_id)], which returns or raises
    [HTTPException(402)] ([true] is the quota exceeded) and may reset the
    counters of a new month, and [record_receipt(project_id,
    metered=True)], which returns. *)
Class Billing (B : Type) : Type := {
  enforce_quota : string -> B -> bool * B;
  record_receipt : string -> B -> B
}.

(** ** [app/main.py]: the envelope endpoint *)

Module Main.

(** What a handler answers: it returns, raises an [HTTPException], or
    raises an exception that nothing catches. *)
Inductive response (A : Type) : Type :=
| Return (a : A)
| HTTPException (status_code : Z) (detail : string)
| Unhandled (e : exn).
Arguments Return {A} a.
Arguments HTTPException {A} status_code detail.
Arguments Unhandled {A} e.

Record Envelope : Type := {
  payload : dict;
  payload_type : string;
  target_type : string;
  trace_id : option string;
  ts : option string;
  forward_url : option string
}.

(** The environment variables the handler reads. *)
Record environ : Type := {
  ODIN_API_KEY_SECRETS : option string;
  BILLING_PROJECT_ID : option string;
  FIRESTORE_PROJECT : option string;
  HEL_ALLOWLIST : option string
}.

(** What the outside world gives one call: the text [now_iso()]
    returns, what the store reads of the world, and what the forward
    target answers if it is asked (a status code, or the text of the
    exception of the client). *)
Record outside (Env : Type) : Type := {
  now_iso : string;
  store_env : Env;
  forward_answer : Z + string
}.
Arguments now_iso {Env}.
Arguments store_env {Env}.
Arguments forward_answer {Env}.

(** [a or b] on texts: an empty or missing text is false. *)
Definition text_or (a : option string) (b : string) : string :=
  match a with
  | Some (String c s) => String c s
  | _ => b
  end.

Definition truthy_text (a : option string) : option string :=
  match a with
  | Some (String c s) => Some (String c s)
  | _ => None
  end.

(** [os.getenv("BILLING_PROJECT_ID") or os.getenv("FIRESTORE_PROJECT")
    or "local-project"] *)
Definition project_id (vars : environ) : string :=
  text_or (BILLING_PROJECT_ID vars)
          (text_or (FIRESTORE_PROJECT vars) "local-project").

(** The message whose MAC and whose signature are taken:
    [f"{cid}|{trace_id}|{ts}".encode()]. *)
Definition bound_message (cid trace ts : string) : string :=
  (cid ++ "|" ++ trace ++ "|" ++ ts)%string.

(** The verification of the MAC of the API key, when
    [ODIN_API_KEY_SECRETS] is set.  [hmac.compare_digest] takes two
    [str] of ASCII characters only, and raises [TypeError] otherwise. *)
Definition verify_mac (vars : environ)
    (x_odin_api_key x_odin_api_mac : option string) (mac_message : string)
  : response unit :=
  match truthy_text (ODIN_API_KEY_SECRETS vars) with
  | None => Return tt
  | Some secrets_json =>
      match Decoder.json_loads secrets_json with
      | Raise _ => HTTPException 500 "Server key config invalid"
      | Ret key_map =>
          match truthy_text x_odin_api_key, truthy_text x_odin_api_mac with
          | Some key, Some mac =>
              match as_dict key_map with
              | Raise e => Unhandled e
              | Ret d =>
                  let secret := Dict.get_or_none key d in
                  if negb (Py.truthy secret) then
                    HTTPException 401 "Unknown API key"
                  else
                    match secret with
                    | JStr secret =>
                        let expected :=
                          b64u (Hmac.hmac_sha256 secret mac_message) in
                        if negb (Base64.is_ascii mac) then Unhandled TypeError
                        else if String.eqb expected mac then Return tt
                        else HTTPException 401 "Invalid MAC"
                    | _ => Unhandled AttributeError
                    end
              end
          | _, _ => HTTPException 401 "Missing API key or MAC"
          end
      end
  end.

(** The receipt the handler builds. *)
Definition build_receipt (trace ts : string) (env : Envelope)
    (normalized_cid : string) (allowed : bool) (reason : string) : dict :=
  [("trace_id", JStr trace);
   ("hop", JInt 0);
   ("ts", JStr ts);
   ("payload_type", JStr (payload_type env));
   ("target_type", JStr (target_type env));
   ("normalized_cid", JStr normalized_cid);
   ("policy", JObj [("engine", JStr "HEL"); ("allowed", JBool allowed);
                    ("reason", JStr reason)])].

Section Handler.
Context {lib : Library} {ed : Ed25519} {urls : Urls}.
Context {Self Env World : Type} {S : Store Self Env World}.
Context {B : Type} {billing : Billing B}.

(** The headers set on the response: the content address of the body,
    and with a signer the signature of the bound message and the key
    identifier. *)
Definition signed_headers (signer : option GatewaySigner.t)
    (cid trace ts : string) : list (string * string) :=
  ("X-ODIN-Response-CID", cid)
  :: match signer with
     | Some s =>
         [("X-ODIN-Signature",
           GatewaySigner.sign s (bound_message cid trace ts));
          ("X-ODIN-KID", GatewaySigner.kid s)]
     | None => []
     end.

(** [handle_envelope].  The state is the world of the store and the
    state of the billing module.  The latency metrics of the module are
    left out: recording them reads no input of the handler and changes
    nothing it returns. *)
Definition handle_envelope (vars : environ)
    (signer : option GatewaySigner.t) (store : Self) (out : outside Env)
    (env : Envelope) (x_odin_api_key x_odin_api_mac : option string)
    (w : World) (b : B)
  : response (dict * list (string * string)) * (World * B) :=
  match Sft.normalize (payload env) (payload_type env) (target_type env) with
  | Raise _ =>
      (HTTPException 400
         ("Normalization failed: " ++ Sft.not_iterable (payload env))%string,
       (w, b))
  | Ret normalized =>
      let normalized_cid := sha256_cid (canonical_json (JObj normalized)) in
      match Hel.check_forward_allowed (HEL_ALLOWLIST vars) (forward_url env) with
      | Raise e => (Unhandled e, (w, b))
      | Ret (allowed, reason) =>
          let ts := text_or (ts env) (now_iso out) in
          let trace := text_or (trace_id env) ("trace-" ++ ts)%string in
          match verify_mac vars x_odin_api_key x_odin_api_mac
                  (bound_message normalized_cid trace ts) with
          | HTTPException code detail => (HTTPException code detail, (w, b))
          | Unhandled e => (Unhandled e, (w, b))
          | Return _ =>
              let pid := project_id vars in
              let (exceeded, b1) := enforce_quota pid b in
              if exceeded then
                (HTTPException 402 "Free tier monthly receipt quota exceeded",
                 (w, b1))
              else
                let receipt :=
                  build_receipt trace ts env normalized_cid allowed reason in
                match store_add store (store_env out) receipt w with
                | (Raise e, w1) => (Unhandled e, (w1, b1))
                | (Ret receipt, w1) =>
                    let b2 := record_receipt pid b1 in
                    match truthy_text (forward_url env) with
                    | Some _ =>
                        if negb allowed then
                          (HTTPException 403
                             ("Forward blocked by HEL: " ++ reason)%string,
                           (w1, b2))
                        else
                          let forwarded :=
                            match forward_answer out with
                            | inl status => JObj [("status_code", JInt status)]
                            | inr text => JObj [("error", JStr text)]
                            end in
                          let response_body :=
                            [("trace_id", JStr trace);
                             ("receipt", JObj receipt);
                             ("forwarded", forwarded)] in
                          let resp_cid :=
                            sha256_cid (canonical_json (JObj response_body)) in
                          (Return (response_body,
                                   signed_headers signer resp_cid trace ts),
                           (w1, b2))
                    | None =>
                        let response_body :=
                          [("trace_id", JStr trace);
                           ("receipt", JObj receipt);
                           ("forwarded", JNull)] in
                        let resp_cid :=
                          sha256_cid (canonical_json (JObj response_body)) in
                        (Return (response_body,
                                 signed_headers signer resp_cid trace ts),
                         (w1, b2))
                    end
                end
          end
      end
  end.

(** [get_chain] *)
Definition get_chain (store : Self) (env : Env) (trace : string) (w : World)
  : response dict * World :=
  match store_chain store env trace w with
  | (Raise e, w1) => (Unhandled e, w1)
  | (Ret chain, w1) =>
      (Return [("trace_id", JStr trace); ("chain", JArr (map JObj chain))],
       w1)
  end.

End Handler.

(** [scripts/compute_mac.py]: the MAC a client sends, for the payload
    it read, the secret of its key, and the trace and the timestamp it
    gives or the defaults the script takes ([now] is what [now_iso()]
    returns there). *)
Definition client_mac (secret : string) (raw : dict)
    (payload_type target_type : string) (trace ts : option string)
    (now : string) : outcome (string * string * string) :=
  let! normalized := Sft.normalize raw payload_type target_type in
  let cid := sha256_cid (canonical_json (JObj normalized)) in
  let ts := text_or ts now in
  let trace := text_or trace ("trace-" ++ ts)%string in
  let mac := b64u (Hmac.hmac_sha256 secret (bound_message cid trace ts)) in
  Ret (trace, ts, mac).

End Main.

(** The decorator as a store: the object is part of the state, and a
    call is given what the wrapped store reads of the world and the two
    readings of the clock. *)
Definition cached_store {Self Env World : Type} {S : Store Self Env World}
  : Store unit (Env * Z * Z) (CachingReceiptStore.t Self * World) := {|
  store_add := fun _ e r => CachingReceiptStore.add (fst (fst e)) r;
  store_chain :=
    fun _ e k => CachingReceiptStore.chain (fst (fst e)) (snd (fst e)) (snd e) k
|}.

(** ** A gateway for the examples *)

Module GatewaySample.
Import Main.

(** The examples load no signer and forward nothing, so that neither
    Ed25519 nor [urlparse] is ever asked; a free tier of 500 receipts
    stands for the billing module. *)
Definition ed25519 : Ed25519 := {|
  public_bytes := fun seed => seed;
  sign_bytes := fun _ message => message
|}.

Definition urls : Urls := {| hostname := fun _ => Ret EmptyString |}.

Definition free_tier : Billing Z := {|
  enforce_quota := fun _ used => ((500 <=? used)%Z, used);
  record_receipt := fun _ used => (used + 1)%Z
|}.

Definition secrets : dict := [("k1", JStr "s3cret")].

Definition vars : environ := {|
  ODIN_API_KEY_SECRETS := Some (Encoder.json_dumps (JObj secrets));
  BILLING_PROJECT_ID := None;
  FIRESTORE_PROJECT := None;
  HEL_ALLOWLIST := None
|}.

Definition no_keys : environ := {|
  ODIN_API_KEY_SECRETS := None;
  BILLING_PROJECT_ID := None;
  FIRESTORE_PROJECT := None;
  HEL_ALLOWLIST := None
|}.

Definition invoice : dict := [("amount", JInt 5); ("ccy", JStr "EUR")].

(** What the client script prints for the invoice. *)
Definition signed : string * string * string :=
  Eval vm_compute in
    match client_mac "s3cret" invoice "invoice.vendor.v1"
            "invoice.iso20022.v1" (Some "trace-x") None
            "2025-01-01T00:00:00+00:00" with
    | Ret printed => printed
    | Raise _ => (EmptyString, EmptyString, EmptyString)
    end.

Definition envelope : Envelope := {|
  payload := invoice;
  payload_type := "invoice.vendor.v1";
  target_type := "invoice.iso20022.v1";
  trace_id := Some (fst (fst signed));
  ts := Some (snd (fst signed));
  forward_url := None
|}.

(** The handler over the decorator over the file-backed store. *)
Definition handle (vars : environ) (key mac : option string)
    (c : CachingReceiptStore.t ReceiptStore.t) (f : ReceiptStore.file)
    (used : Z) :=
  handle_envelope (ed := ed25519) (urls := urls)
    (S := cached_store (S := file_store (lib := Reference.library)))
    (billing := free_tier)
    vars None tt
    {| now_iso := "2025-01-01T00:00:05+00:00";
       store_env := (0%Z, 0%Z, 0%Z);
       forward_answer := inl 200%Z |}
    envelope key mac (c, f) used.

(** The answer to the signed envelope, from a decorator that holds a
    chain of [trace-x] read before. *)
Definition warm : CachingReceiptStore.t ReceiptStore.t :=
  fst (snd (CacheSample.chain 0 "trace-x" CacheSample.start)).

Definition answer :=
  Eval vm_compute in
    handle vars (Some "k1") (Some (snd signed)) warm None 0.

Definition body : dict :=
  match fst answer with
  | Return (body, _) => body
  | _ => []
  end.

Definition headers : list (string * string) :=
  match fst answer with
  | Return (_, headers) => headers
  | _ => []
  end.

Definition cache_after : CachingReceiptStore.t ReceiptStore.t :=
  fst (fst (snd answer)).

Definition log_after : ReceiptStore.file := snd (fst (snd answer)).

End GatewaySample.

(* ================================================================== *)
(** * Properties *)
(* ================================================================== *)

(** ** Dictionaries *)

Section DictFacts.
Context {A : Type}.
Implicit Types (d : list (string * A)) (k : string) (v : A).

Lemma get_set_same k v d : Dict.get k (Dict.set k v d) = Some v.
Proof.
  induction d as [|[k' v'] d IH]; simpl.
  - now rewrite String.eqb_refl.
  - destruct (String.eqb k k') eqn:E; simpl; rewrite E; auto.
Qed.

Lemma get_set_other k k' v d :
  k <> k' -> Dict.get k (Dict.set k' v d) = Dict.get k d.
Proof.
  intros Hne. induction d as [|[k0 v0] d IH]; simpl.
  - apply String.eqb_neq in Hne. now rewrite Hne.
  - destruct (String.eqb k' k0) eqn:E; simpl.
    + apply String.eqb_eq in E. subst k0.
      apply String.eqb_neq in Hne. now rewrite Hne.
    + now rewrite IH.
Qed.

Lemma without_set k v d :
  Dict.without k (Dict.set k v d) = Dict.without k d.
Proof.
  unfold Dict.without.
  induction d as [|[k' v'] d IH]; simpl.
  - now rewrite String.eqb_refl.
  - destruct (String.eqb k k') eqn:E; simpl.
    + rewrite String.eqb_sym, E. reflexivity.
    + rewrite IH. reflexivity.
Qed.

Lemma without_set_other k k' v d :
  k <> k' ->
  Dict.without k (Dict.set k' v d) = Dict.set k' v (Dict.without k d).
Proof.
  intros Hne. unfold Dict.without.
  induction d as [|[k0 v0] d IH]; simpl.
  - apply String.eqb_neq in Hne. rewrite String.eqb_sym, Hne. reflexivity.
  - destruct (String.eqb k' k0) eqn:E; simpl.
    + apply String.eqb_eq in E. subst k0.
      apply String.eqb_neq in Hne. rewrite String.eqb_sym, Hne. simpl.
      now rewrite String.eqb_refl.
    + destruct (String.eqb k0 k) eqn:E0; simpl.
      * exact IH.
      * rewrite E. now rewrite IH.
Qed.

Lemma get_without_same k d : Dict.get k (Dict.without k d) = None.
Proof.
  unfold Dict.without.
  induction d as [|[k' v'] d IH]; simpl; auto.
  destruct (String.eqb k' k) eqn:E; simpl; auto.
  rewrite String.eqb_sym, E. exact IH.
Qed.

Lemma mem_without_same k d : Dict.mem k (Dict.without k d) = false.
Proof. unfold Dict.mem. now rewrite get_without_same. Qed.
End DictFacts.

(** ** The file-backed [add], step by step *)

Section FileStoreFacts.
Context {lib : Library}.

Lemma read_lines_run f : ReceiptStore._read_lines f = (Ret (lines_of f), f).
Proof. destruct f; reflexivity. Qed.

Lemma write_lines_run lines f :
  ReceiptStore._write_lines lines f = (Ret tt, file_of lines).
Proof. reflexivity. Qed.

(** [add] raises exactly when the last line that survives pruning does
    not yield a predecessor hash, and then leaves the file alone;
    otherwise it writes the surviving lines and the new receipt. *)
Lemma add_run self now r f :
  ReceiptStore.add self now r f =
  let lines := ReceiptStore._prune_by_age self now (lines_of f) in
  match ReceiptStore.last_receipt_hash lines with
  | Raise e => (Raise e, f)
  | Ret prev_hash =>
      let r2 := receipt_of prev_hash r in
      (Ret r2, file_of (lines ++ [Encoder.json_dumps (JObj r2)])%list)
  end.
Proof.
  unfold ReceiptStore.add, IO.bind. rewrite read_lines_run.
  unfold IO.lift.
  destruct (ReceiptStore.last_receipt_hash _); reflexivity.
Qed.

Lemma chain_run self k f :
  ReceiptStore.chain self k f =
  (Py.sort ReceiptStore.sort_key Py.lt_pair
     (flat_map (ReceiptStore.matching k) (lines_of f)), f).
Proof.
  unfold ReceiptStore.chain, IO.bind. rewrite read_lines_run. reflexivity.
Qed.
End FileStoreFacts.

(** ** C2: an unparseable last line *)

(** The log used below: one line that is no JSON text. *)
Lemma lines_of_not_json : lines_of (Some "not json") = ["not json"].
Proof. reflexivity. Qed.

(** C2 (the code departs from the claim). The claim is that [add] and
    [chain] never let a parse or storage exception reach the caller,
    also on a log whose last line is no valid JSON.  [chain] and
    [_prune_by_age] catch the exception of [json.loads]; [add] calls
    [json.loads(lines[-1])] outside any [try]: on the log made of the line
    [not json], whatever the store settings, the clock and the record,
    [add] raises [JSONDecodeError] and leaves the log as it was. *)
Theorem add_raises_on_unparseable_last_line :
  forall (lib : Library) (self : ReceiptStore.t) (now : Z) (r : dict),
    ReceiptStore.add self now r (Some "not json")
    = (Raise JSONDecodeError, Some "not json").
Proof.
  intros lib self now r. rewrite add_run, lines_of_not_json.
  unfold ReceiptStore._prune_by_age.
  destruct (ReceiptStore.max_age_seconds self <=? 0)%Z; reflexivity.
Qed.

(** On the same log [chain] does skip the line. *)
Lemma chain_skips_unparseable_line :
  forall (lib : Library) (self : ReceiptStore.t) (k : string),
    ReceiptStore.chain self k (Some "not json") = (Ret [], Some "not json").
Proof. intros. rewrite chain_run. reflexivity. Qed.

(** ** C3: the selector *)

(** C3 (the code departs from the claim). The claim is that an enabled
    caching flag wraps whichever backend was selected.  With a remote
    project configured and the flag set to [1], [load_receipt_store]
    returns from inside its first branch: the remote store when the client
    can be built and the file-backed store when it cannot, neither of
    them wrapped.  Only a selection without remote project reaches the
    wrapping. *)
Theorem remote_selection_skips_the_cache :
  forall (lib : Library),
    cache_enabled (remote_and_cache false) = true
    /\ load_receipt_store (remote_and_cache false)
       = RemoteBacked
           (FirestoreReceiptStore.Make "demo-project" "receipts"
              "firestore://demo-project/receipts")
    /\ load_receipt_store (remote_and_cache true)
       = FileBacked (ReceiptStore.Make "receipts.log.jsonl" 0).
Proof. intros lib. repeat split. Qed.

(** Without a remote project the flag does wrap the file-backed store. *)
Lemma file_selection_is_cached :
  forall (lib : Library) (env : environment),
    FIRESTORE_PROJECT env = None ->
    cache_enabled env = true ->
    exists c, load_receipt_store env = Cached c
              /\ CachingReceiptStore.store c = inl (default_file_store env).
Proof.
  intros lib env Hp Hc. unfold load_receipt_store. rewrite Hp, Hc.
  eexists. split; reflexivity.
Qed.

(** ** C6: one content address on both backends *)

Lemma receipt_hash_ignores_supplied_hash prev x r :
  receipt_hash_of prev (Dict.set "receipt_hash" x r) = receipt_hash_of prev r.
Proof.
  unfold receipt_hash_of. do 3 f_equal.
  rewrite !(without_set_other "receipt_hash" "prev_receipt_hash")
    by discriminate.
  now rewrite without_set.
Qed.

Lemma receipt_of_hash prev r :
  Dict.get "receipt_hash" (receipt_of prev r)
  = Some (JStr (receipt_hash_of prev r)).
Proof. unfold receipt_of. apply get_set_same. Qed.

Lemma receipt_of_prev prev r :
  Dict.get "prev_receipt_hash" (receipt_of prev r) = Some prev.
Proof.
  unfold receipt_of. rewrite get_set_other by discriminate.
  apply get_set_same.
Qed.

Lemma file_add_returns_receipt {lib : Library} self now r f r2 f' :
  ReceiptStore.add self now r f = (Ret r2, f') ->
  exists prev, r2 = receipt_of prev r.
Proof.
  rewrite add_run. cbv zeta.
  destruct (ReceiptStore.last_receipt_hash _) as [prev|e]; intros H;
    inversion H; subst. now exists prev.
Qed.

Lemma remote_add_run {lib : Library} self net r docs :
  FirestoreReceiptStore.add self net r docs =
  let prev :=
    if FirestoreReceiptStore.query_fails net then JNull
    else match latest_by_ts docs with
         | Some d => Dict.get_or_none "receipt_hash" d
         | None => JNull
         end in
  if FirestoreReceiptStore.write_fails net then (Raise RuntimeError, docs)
  else (Ret (receipt_of prev r), (docs ++ [receipt_of prev r])%list).
Proof.
  unfold FirestoreReceiptStore.add, FirestoreReceiptStore._latest_receipt_hash,
    IO.bind, IO.get, IO.ret, IO.lift, IO.put.
  destruct (FirestoreReceiptStore.query_fails net);
    [|destruct (latest_by_ts docs)];
    destruct (FirestoreReceiptStore.write_fails net); reflexivity.
Qed.

Lemma remote_add_returns_receipt {lib : Library} self net r docs r2 docs' :
  FirestoreReceiptStore.add self net r docs = (Ret r2, docs') ->
  exists prev, r2 = receipt_of prev r.
Proof.
  rewrite remote_add_run. cbv zeta.
  destruct (FirestoreReceiptStore.write_fails net); intros H;
    inversion H; subst. eexists; reflexivity.
Qed.

(** C6. When the file-backed [add] and the remote [add] both return for
    the same record [r], and the two receipts carry the same predecessor
    hash [prev], they carry the same [receipt_hash]: the content address
    of the canonical encoding of [r] with [prev_receipt_hash] set to
    [prev] and the field [receipt_hash] left out.  A [receipt_hash] the
    caller put in [r] does not change it. *)
Theorem same_receipt_hash_on_both_backends :
  forall (lib : Library)
         (fs : ReceiptStore.t) (now : Z) (f f' : ReceiptStore.file)
         (rs : FirestoreReceiptStore.t) (net : FirestoreReceiptStore.answers)
         (docs docs' : FirestoreReceiptStore.documents)
         (r r2 r2' : dict) (prev : json),
    ReceiptStore.add fs now r f = (Ret r2, f') ->
    FirestoreReceiptStore.add rs net r docs = (Ret r2', docs') ->
    Dict.get "prev_receipt_hash" r2 = Some prev ->
    Dict.get "prev_receipt_hash" r2' = Some prev ->
    let address :=
      sha256_cid
        (canonical_json
           (JObj (Dict.without "receipt_hash"
                    (Dict.set "prev_receipt_hash" prev r)))) in
    Dict.get "receipt_hash" r2 = Some (JStr address)
    /\ Dict.get "receipt_hash" r2' = Some (JStr address)
    /\ Dict.get "receipt_hash"
         (Dict.without "receipt_hash" (Dict.set "prev_receipt_hash" prev r))
       = None
    /\ forall x : json,
        sha256_cid
          (canonical_json
             (JObj (Dict.without "receipt_hash"
                      (Dict.set "prev_receipt_hash" prev
                         (Dict.set "receipt_hash" x r)))))
        = address.
Proof.
  intros lib fs now f f' rs net docs docs' r r2 r2' prev Hf Hr Hp Hp'.
  apply file_add_returns_receipt in Hf as [p ->].
  apply remote_add_returns_receipt in Hr as [p' ->].
  rewrite receipt_of_prev in Hp, Hp'.
  inversion Hp; inversion Hp'; subst p p'.
  cbv zeta. repeat split.
  - apply receipt_of_hash.
  - apply receipt_of_hash.
  - apply get_without_same.
  - intros x. apply (receipt_hash_ignores_supplied_hash prev x r).
Qed.

Lemma same_receipt_hash_on_both_backends_witness :
  Dict.get "receipt_hash" (receipt_of JNull Sample.hop0)
  = Some (JStr (sha256_cid
                  (canonical_json
                     (JObj (Dict.without "receipt_hash"
                              (Dict.set "prev_receipt_hash" JNull
                                 Sample.hop0)))))).
Proof.
  refine (proj1 (same_receipt_hash_on_both_backends Reference.library
            Sample.store 0 None
            (file_of [Encoder.json_dumps (JObj (receipt_of JNull Sample.hop0))])
            Sample.remote Sample.online []
            [receipt_of JNull Sample.hop0]
            Sample.hop0 (receipt_of JNull Sample.hop0)
            (receipt_of JNull Sample.hop0) JNull _ _ _ _)).
  - vm_compute. reflexivity.
  - vm_compute. reflexivity.
  - vm_compute. reflexivity.
  - vm_compute. reflexivity.
Defined.

(** ** C1: the chain across a line boundary inside a record *)

(** C1 (the code departs from the claim). The claim is that the receipt
    of every call after the first carries the hash of the receipt before
    it.  [json.dumps(..., ensure_ascii=False)] writes U+0085 as it is, and
    [str.splitlines] ends a line at U+0085 (as at U+2028 and U+2029): the
    line of a receipt that holds such a character is read back as two
    lines, neither of them JSON.  Starting from no file, with pruning off,
    the first [add] of such a record returns a receipt without
    predecessor, and the second [add], of a plain record, raises
    [JSONDecodeError] instead of returning a linked receipt. *)
Theorem chain_breaks_after_line_boundary_in_record :
  forall (lib : Library) (now1 now2 : Z),
    let first := ReceiptStore.add Sample.store now1 Sample.with_nel None in
    let second := ReceiptStore.add Sample.store now2 Sample.hop0 (snd first) in
    fst first = Ret (receipt_of JNull Sample.with_nel)
    /\ length (lines_of (snd first)) = 2
    /\ fst second = Raise JSONDecodeError.
Proof.
  intros lib now1 now2. cbv zeta. rewrite !add_run.
  unfold ReceiptStore._prune_by_age. simpl (ReceiptStore.max_age_seconds _).
  cbv iota beta delta [Z.leb Z.compare].
  repeat split; vm_compute; reflexivity.
Qed.

(** ** C10: what [add] does to its argument *)

Section ObjectFacts.
Import Objects.

Lemma read_app_old (h : heap) (extra : list dict) (p : ref) :
  p < length h -> read p (h ++ extra)%list = read p h.
Proof. intros Hp. unfold read. now rewrite app_nth1. Qed.

Lemma read_app_new (h : heap) (d : dict) :
  read (length h) (h ++ [d])%list = d.
Proof. unfold read. rewrite app_nth2, Nat.sub_diag by lia. reflexivity. Qed.

Lemma update_length (p : ref) (g : dict -> dict) (h : heap) :
  length (update p g h) = length h.
Proof.
  revert p. induction h as [|d h IH]; intros [|p]; simpl; auto.
Qed.

Lemma read_update_same (p : ref) (g : dict -> dict) (h : heap) :
  p < length h -> read p (update p g h) = g (read p h).
Proof.
  revert p. induction h as [|d h IH]; intros [|p] Hp; simpl in *;
    try lia; auto.
  apply IH. lia.
Qed.

Lemma read_update_other (p q : ref) (g : dict -> dict) (h : heap) :
  p <> q -> read q (update p g h) = read q h.
Proof.
  revert p q. induction h as [|d h IH]; intros [|p] [|q] Hne; simpl;
    try reflexivity; try congruence.
  apply IH. congruence.
Qed.

Lemma sealed_heap_new prev r h :
  read (length h) (sealed_heap prev r h) = receipt_of prev (read r h).
Proof.
  unfold sealed_heap.
  rewrite read_update_same.
  - rewrite read_update_same.
    + rewrite read_app_new. reflexivity.
    + rewrite length_app. simpl. lia.
  - rewrite update_length, length_app. simpl. lia.
Qed.

Lemma read_linked prev r h :
  read (length h)
    (update (length h) (Dict.set "prev_receipt_hash" prev)
       (h ++ [read r h])%list)
  = Dict.set "prev_receipt_hash" prev (read r h).
Proof.
  rewrite read_update_same.
  - now rewrite read_app_new.
  - rewrite length_app. simpl. lia.
Qed.

Lemma sealed_heap_old prev r h p :
  p < length h -> read p (sealed_heap prev r h) = read p h.
Proof.
  intros Hp. unfold sealed_heap.
  rewrite !read_update_other by lia. now apply read_app_old.
Qed.

Context {lib : Library}.

Lemma file_add_object_run self now r h f :
  file_add self now r (h, f) =
  let lines := ReceiptStore._prune_by_age self now (lines_of f) in
  match ReceiptStore.last_receipt_hash lines with
  | Raise e => (Raise e, (h, f))
  | Ret prev =>
      (Ret (length h),
       (sealed_heap prev r h,
        file_of (lines
                 ++ [Encoder.json_dumps
                       (JObj (read (length h) (sealed_heap prev r h)))])%list))
  end.
Proof.
  unfold file_add, IO.bind, outside. rewrite read_lines_run. cbv zeta.
  unfold IO.lift.
  destruct (ReceiptStore.last_receipt_hash _) as [prev|e]; [|reflexivity].
  unfold copy, setitem, items, IO.ret. simpl fst.
  rewrite read_linked. reflexivity.
Qed.

Lemma remote_add_object_run self net r h docs :
  remote_add self net r (h, docs) =
  let prev :=
    if FirestoreReceiptStore.query_fails net then JNull
    else match latest_by_ts docs with
         | Some d => Dict.get_or_none "receipt_hash" d
         | None => JNull
         end in
  if FirestoreReceiptStore.write_fails net
  then (Raise RuntimeError, (sealed_heap prev r h, docs))
  else (Ret (length h),
        (sealed_heap prev r h,
         (docs ++ [read (length h) (sealed_heap prev r h)])%list)).
Proof.
  destruct (FirestoreReceiptStore.query_fails net) eqn:Hq;
    [|destruct (latest_by_ts docs) eqn:Hl];
    destruct (FirestoreReceiptStore.write_fails net) eqn:Hw;
    cbv beta iota zeta delta
      [remote_add IO.bind outside FirestoreReceiptStore._latest_receipt_hash
       IO.get IO.ret copy setitem items IO.lift IO.put fst];
    rewrite ?Hq, ?Hl, ?Hw;
    cbv beta iota zeta; rewrite ?Hw; cbv beta iota zeta;
    rewrite read_linked; reflexivity.
Qed.

(** C10. Whatever the heap, the log and the record: the file-backed [add]
    and the remote [add] leave every dictionary that existed before the
    call as it was, the argument [r] among them.  When they return, the
    result is a dictionary that did not exist before, it is the receipt
    the value-level [add] returns for the items of [r], and it is what
    was persisted. *)
Theorem add_leaves_its_argument_alone :
  forall (self : ReceiptStore.t) (now : Z)
         (rself : FirestoreReceiptStore.t)
         (net : FirestoreReceiptStore.answers)
         (r : ref) (h : heap) (f : ReceiptStore.file)
         (docs : FirestoreReceiptStore.documents),
    (let '(o, (h', f')) := file_add self now r (h, f) in
     (forall p, p < length h -> read p h' = read p h)
     /\ match o with
        | Ret r2 =>
            r2 = length h
            /\ ReceiptStore.add self now (read r h) f = (Ret (read r2 h'), f')
        | Raise e =>
            ReceiptStore.add self now (read r h) f = (Raise e, f')
        end)
    /\
    (let '(o, (h', docs')) := remote_add rself net r (h, docs) in
     (forall p, p < length h -> read p h' = read p h)
     /\ match o with
        | Ret r2 =>
            r2 = length h
            /\ FirestoreReceiptStore.add rself net (read r h) docs
               = (Ret (read r2 h'), docs')
        | Raise e =>
            FirestoreReceiptStore.add rself net (read r h) docs
            = (Raise e, docs')
        end).
Proof.
  intros self now rself net r h f docs. split.
  - rewrite file_add_object_run, add_run. cbv zeta.
    destruct (ReceiptStore.last_receipt_hash _) as [prev|e].
    + split; [intros p Hp; now apply sealed_heap_old|].
      split; [reflexivity|]. now rewrite sealed_heap_new.
    + split; [reflexivity|reflexivity].
  - rewrite remote_add_object_run, remote_add_run. cbv zeta.
    destruct (FirestoreReceiptStore.write_fails net).
    + split; [intros p Hp; now apply sealed_heap_old|reflexivity].
    + split; [intros p Hp; now apply sealed_heap_old|].
      split; [reflexivity|]. now rewrite sealed_heap_new.
Qed.

End ObjectFacts.

(** ** C4: the cache after an [add] *)

Section CacheFacts.
Context {Self Env World : Type} {S : Store Self Env World}.

(** Without an entry for [k], [chain] asks the wrapped store and returns
    its answer. *)
Lemma chain_without_entry (self : CachingReceiptStore.t Self) (w : World)
    (env : Env) (now now' : Z) (k : string) :
  Dict.mem k (CachingReceiptStore._chains self) = false ->
  fst (CachingReceiptStore.chain env now now' k (self, w))
  = fst (store_chain (CachingReceiptStore.store self) env k w).
Proof.
  intros Hm. unfold CachingReceiptStore.chain. rewrite Hm. simpl.
  destruct (store_chain _ env k w) as [[fresh|e] w']; reflexivity.
Qed.

(** An [add] that returns a receipt with a string [k] that is not empty
    under ["trace_id"] leaves no entry for [k], and keeps the wrapped
    store. *)
Lemma add_evicts (self self' : CachingReceiptStore.t Self) (w w' : World)
    (env : Env) (r added : dict) (k : string) :
  CachingReceiptStore.add env r (self, w) = (Ret added, (self', w')) ->
  Dict.get "trace_id" added = Some (JStr k) ->
  k <> EmptyString ->
  Dict.mem k (CachingReceiptStore._chains self') = false
  /\ Dict.mem k (CachingReceiptStore._last_refresh self') = false
  /\ CachingReceiptStore.store self' = CachingReceiptStore.store self.
Proof.
  intros Hadd Hk Hne. unfold CachingReceiptStore.add in Hadd.
  destruct (store_add _ env r w) as [[a|e] w0]; [|discriminate].
  unfold Dict.get_or_none in Hadd.
  destruct (Dict.get "trace_id" a) as [v|] eqn:Hv.
  - destruct (Py.truthy v) eqn:Ht.
    + destruct (CachingReceiptStore.invalidate self v) as [s1|e] eqn:Hi;
        [|discriminate].
      inversion Hadd; subst. rewrite Hv in Hk. inversion Hk; subst v.
      simpl in Hi. inversion Hi; subst. simpl.
      repeat split; apply mem_without_same.
    + inversion Hadd; subst. rewrite Hv in Hk. inversion Hk; subst v.
      simpl in Ht. apply negb_false_iff, String.eqb_eq in Ht. contradiction.
  - simpl in Hadd. inversion Hadd; subst. rewrite Hv in Hk. discriminate.
Qed.




End CacheFacts.


(** ** C8: the canonical encoder *)

Section StringOrder.

Lemma string_leb_refl (s : string) : String.leb s s = true.
Proof. destruct (String.leb_total s s); assumption. Qed.

Lemma string_compare_lt_trans (s1 s2 s3 : string) :
  String.compare s1 s2 = Lt -> String.compare s2 s3 = Lt ->
  String.compare s1 s3 = Lt.
Proof.
  revert s2 s3.
  induction s1 as [|c1 s1 IH]; intros [|c2 s2] [|c3 s3]; simpl;
    try discriminate; auto.
  unfold Ascii.compare.
  destruct (N.compare_spec (N_of_ascii c1) (N_of_ascii c2)) as [E12|L12|G12];
    destruct (N.compare_spec (N_of_ascii c2) (N_of_ascii c3)) as [E23|L23|G23];
    try discriminate; intros H12 H23.
  - rewrite E12, E23, N.compare_refl. eauto.
  - rewrite E12. apply N.compare_lt_iff in L23. now rewrite L23.
  - rewrite <- E23. apply N.compare_lt_iff in L12. now rewrite L12.
  - assert (L13 : (N_of_ascii c1 < N_of_ascii c3)%N) by lia.
    apply N.compare_lt_iff in L13. now rewrite L13.
Qed.

Lemma string_leb_trans (s1 s2 s3 : string) :
  String.leb s1 s2 = true -> String.leb s2 s3 = true ->
  String.leb s1 s3 = true.
Proof.
  unfold String.leb.
  destruct (String.compare s1 s2) eqn:E12; try discriminate;
    destruct (String.compare s2 s3) eqn:E23; try discriminate; intros _ _.
  - apply String.compare_eq_iff in E12, E23. subst.
    destruct (String.compare s3 s3) eqn:E; auto.
    pose proof (String.compare_antisym s3 s3) as Ha.
    rewrite E in Ha. discriminate.
  - apply String.compare_eq_iff in E12. subst. now rewrite E23.
  - apply String.compare_eq_iff in E23. subst. now rewrite E12.
  - now rewrite (string_compare_lt_trans _ _ _ E12 E23).
Qed.

End StringOrder.

Section SortItems.
Import Encoder.

Lemma insert_item_perm kv l : Permutation (kv :: l) (insert_item kv l).
Proof.
  induction l as [|kv' l IH]; simpl; auto.
  destruct (String.leb (fst kv) (fst kv')); auto.
  eapply perm_trans; [apply perm_swap|]. now constructor.
Qed.

Lemma sort_items_perm l : Permutation l (sort_items l).
Proof.
  induction l as [|kv l IH]; simpl; auto.
  eapply perm_trans; [|apply insert_item_perm]. now constructor.
Qed.

Lemma insert_item_sorted kv l :
  StronglySorted key_le l -> StronglySorted key_le (insert_item kv l).
Proof.
  induction 1 as [|kv' l Hs IH Hall]; simpl.
  - repeat constructor.
  - destruct (String.leb (fst kv) (fst kv')) eqn:E.
    + constructor; [now constructor|].
      constructor; [exact E|].
      eapply Forall_impl; [|exact Hall].
      intros x Hx. unfold key_le in *.
      now apply (string_leb_trans _ (fst kv')).
    + constructor; [exact IH|].
      apply (Permutation_Forall (insert_item_perm kv l)).
      constructor; [|exact Hall].
      unfold key_le. destruct (String.leb_total (fst kv) (fst kv')); congruence.
Qed.

Lemma sort_items_sorted l : StronglySorted key_le (sort_items l).
Proof.
  induction l as [|kv l IH]; simpl; [constructor|].
  now apply insert_item_sorted.
Qed.

(** Two sorted lists with the same members, no key twice, are equal. *)
Lemma sorted_unique (l1 l2 : list (string * json)) :
  StronglySorted key_le l1 -> StronglySorted key_le l2 ->
  NoDup (map fst l1) -> Permutation l1 l2 -> l1 = l2.
Proof.
  intros Hs1. revert l2.
  induction Hs1 as [|a l1 Hs1 IH Ha]; intros l2 Hs2 Hnd Hp.
  - apply Permutation_nil in Hp. now subst.
  - destruct Hs2 as [|b l2 Hs2 Hb].
    + apply Permutation_sym, Permutation_nil in Hp. discriminate.
    + assert (Hnd2 : NoDup (map fst (b :: l2))).
      { eapply Permutation_NoDup; [|exact Hnd]. now apply Permutation_map. }
      assert (Hab : a = b).
      { assert (Hin_a : In a (b :: l2))
          by (eapply Permutation_in; [exact Hp|now left]).
        assert (Hin_b : In b (a :: l1))
          by (eapply Permutation_in;
              [apply Permutation_sym; exact Hp|now left]).
        destruct Hin_a as [->|Hin_a]; [reflexivity|].
        destruct Hin_b as [->|Hin_b]; [reflexivity|].
        rewrite Forall_forall in Ha, Hb.
        pose proof (Ha _ Hin_b) as Hle1. pose proof (Hb _ Hin_a) as Hle2.
        unfold key_le in *.
        pose proof (String.leb_antisym _ _ Hle1 Hle2) as Hk.
        exfalso. inversion Hnd2 as [|? ? Hnin _]; subst.
        apply Hnin. rewrite <- Hk. now apply in_map. }
      subst b. f_equal. apply IH; auto.
      * simpl in Hnd. now inversion Hnd.
      * now apply Permutation_cons_inv in Hp.
Qed.

Lemma sort_items_unique (l1 l2 : list (string * json)) :
  NoDup (map fst l1) -> Permutation l1 l2 -> sort_items l1 = sort_items l2.
Proof.
  intros Hnd Hp. apply sorted_unique.
  - apply sort_items_sorted.
  - apply sort_items_sorted.
  - eapply Permutation_NoDup; [|exact Hnd].
    apply Permutation_map, sort_items_perm.
  - eapply perm_trans; [apply Permutation_sym, sort_items_perm|].
    eapply perm_trans; [exact Hp|apply sort_items_perm].
Qed.

End SortItems.

Section SameContent.
Import Encoder.

Lemma distinct_NoDup (l : list string) : distinct l = true -> NoDup l.
Proof.
  induction l as [|k l IH]; simpl; intros H; constructor.
  - apply andb_true_iff in H as [H _]. apply negb_true_iff in H.
    intros Hin. apply not_true_iff_false in H. apply H.
    apply existsb_exists. exists k. split; auto. apply String.eqb_refl.
  - apply andb_true_iff in H as [_ H]. auto.
Qed.

Lemma get_In {A} (k : string) (v : A) (d : list (string * A)) :
  Dict.get k d = Some v -> In (k, v) d.
Proof.
  induction d as [|[k' v'] d IH]; simpl; [discriminate|].
  destruct (String.eqb k k') eqn:E.
  - apply String.eqb_eq in E. subst. intros H. inversion H. now left.
  - intros H. right. auto.
Qed.

Lemma members_match_In d1 d2 k v :
  members_match d1 d2 = true -> In (k, v) d1 ->
  exists w, In (k, w) d2 /\ same_content v w = true.
Proof.
  induction d1 as [|[k' v'] d1 IH]; simpl; [tauto|].
  destruct (Dict.get k' d2) as [w|] eqn:Hg; [|discriminate].
  intros H [Heq|Hin].
  - inversion Heq; subst. apply andb_true_iff in H as [H _].
    exists w. split; auto. now apply get_In.
  - apply andb_true_iff in H as [_ H]. auto.
Qed.

Lemma forallb_In {A} (f : A -> bool) (l : list A) (x : A) :
  forallb f l = true -> In x l -> f x = true.
Proof. intros H Hin. rewrite forallb_forall in H. auto. Qed.

(** Values with the same content have the same members in order of key,
    at every depth. *)
Lemma same_content_sorted_keys (a : json) :
  forall b : json,
    unique_keys a = true -> unique_keys b = true ->
    same_content a b = true ->
    sorted_keys a = sorted_keys b.
Proof.
  induction a as [| x | n | s | xs IH | d1 IH] using json_induction;
    intros [| y | m | t | ys | d2] Ha Hb Hs; simpl in Hs;
    try discriminate; try reflexivity.
  - apply Bool.eqb_prop in Hs. now subst.
  - apply Z.eqb_eq in Hs. now subst.
  - apply String.eqb_eq in Hs. now subst.
  - simpl. f_equal. simpl in Ha, Hb.
    revert ys Hb Hs.
    induction IH as [|x xs Hx _ IHxs]; intros [|y ys] Hb Hs;
      try discriminate; [reflexivity|].
    simpl in Ha, Hb.
    apply andb_true_iff in Ha as [Hax Haxs].
    apply andb_true_iff in Hb as [Hby Hbys].
    apply andb_true_iff in Hs as [Hsx Hsxs].
    simpl. f_equal; auto.
  - simpl. f_equal. simpl in Ha, Hb.
    apply andb_true_iff in Ha as [Hd1 Hv1].
    apply andb_true_iff in Hb as [Hd2 Hv2].
    apply andb_true_iff in Hs as [Hlen Hsub].
    apply Nat.eqb_eq in Hlen.
    fold (members_match d1 d2) in Hsub.
    set (norm := fun kv : string * json => (fst kv, sorted_keys (snd kv))).
    assert (Hkeys : forall d, map fst (map norm d) = map fst d).
    { intros d. rewrite map_map. reflexivity. }
    apply sort_items_unique.
    + rewrite Hkeys. now apply distinct_NoDup.
    + apply NoDup_Permutation_bis.
      * apply (NoDup_map_inv fst). rewrite Hkeys. now apply distinct_NoDup.
      * rewrite !length_map. lia.
      * intros [k v'] Hin. apply in_map_iff in Hin as [[k0 v] [Heq Hin]].
        unfold norm in Heq. simpl in Heq. inversion Heq; subst k0 v'.
        destruct (members_match_In _ _ _ _ Hsub Hin) as [w [Hw Hsw]].
        rewrite Forall_forall in IH.
        assert (Heqv : sorted_keys v = sorted_keys w).
        { apply (IH _ Hin w).
          - apply (forallb_In _ _ _ Hv1 Hin).
          - apply (forallb_In _ _ _ Hv2 Hw).
          - exact Hsw. }
        rewrite Heqv. apply in_map_iff. exists (k, w). split; auto.
Qed.

End SameContent.

Section ContentAddress.

Lemma string_length_app (a b : string) :
  String.length (a ++ b) = String.length a + String.length b.
Proof. induction a as [|c a IH]; simpl; auto. Qed.

Lemma all_lower_hex_app (a b : string) :
  all_lower_hex (a ++ b) = all_lower_hex a && all_lower_hex b.
Proof.
  induction a as [|c a IH]; simpl; auto.
  rewrite IH. now rewrite andb_assoc.
Qed.

Lemma hexdigit_lower (n : N) :
  (n < 16)%N -> is_lower_hex (Encoder.hexdigit n) = true.
Proof.
  intros Hn.
  assert (H : In n [0; 1; 2; 3; 4; 5; 6; 7; 8; 9; 10; 11; 12; 13; 14; 15]%N).
  { simpl. lia. }
  simpl in H.
  repeat (destruct H as [<-|H]; [reflexivity|]). contradiction.
Qed.

Lemma hex8_form (w : N) :
  String.length (SHA256.hex8 w) = 8
  /\ all_lower_hex (SHA256.hex8 w) = true.
Proof.
  split; [reflexivity|].
  unfold SHA256.hex8. cbn [all_lower_hex].
  rewrite !hexdigit_lower by (apply N.mod_lt; discriminate).
  reflexivity.
Qed.

(** The digest is written on 64 digits of lower-case hexadecimal. *)
Lemma hexdigest_form (data : string) :
  String.length (SHA256.hexdigest data) = 64
  /\ all_lower_hex (SHA256.hexdigest data) = true.
Proof.
  unfold SHA256.hexdigest. cbv zeta.
  rewrite !string_length_app, !all_lower_hex_app.
  repeat match goal with
         | |- context [SHA256.hex8 ?w] =>
             let Hl := fresh in let Hh := fresh in
             destruct (hex8_form w) as [Hl Hh]; rewrite Hl, Hh;
             clear Hl Hh
         end.
  split; reflexivity.
Qed.

(** The digests of three short messages, as FIPS 180 gives them. *)
Lemma sha256_known_answers :
  SHA256.hexdigest EmptyString
  = "e3b0c44298fc1c149afbf4c8996fb92427ae41e4649b934ca495991b7852b855"
  /\ SHA256.hexdigest "abc"
     = "ba7816bf8f01cfea414140de5dae2223b00361a396177a9cb410ff61f20015ad"
  /\ SHA256.hexdigest
       "abcdbcdecdefdefgefghfghighijhijkijkljklmklmnlmnomnopnopq"
     = "248d6a61d20638b8e5c026930c3e6039a33ce45964ff2167f6ecedd419db06c1".
Proof. repeat split; vm_compute; reflexivity. Qed.

(** C8. Two values with the same content, whatever the order in which
    their members were inserted (at any depth), have the same canonical
    encoding, byte for byte, and so the same content address; and the
    content address of any data is [sha256:] followed by the SHA-256
    digest of the data on 64 lower-case hexadecimal digits.  Both are
    functions, so a repeated call returns the same value. *)
Theorem canonical_encoding_ignores_insertion_order :
  forall a b : json,
    unique_keys a = true -> unique_keys b = true ->
    same_content a b = true ->
    canonical_json a = canonical_json b
    /\ sha256_cid (canonical_json a) = sha256_cid (canonical_json b)
    /\ (forall data : string,
          sha256_cid data = "sha256:" ++ SHA256.hexdigest data
          /\ String.length (SHA256.hexdigest data) = 64
          /\ all_lower_hex (SHA256.hexdigest data) = true).
Proof.
  intros a b Ha Hb Hs.
  assert (E : canonical_json a = canonical_json b).
  { unfold canonical_json. f_equal. now apply same_content_sorted_keys. }
  split; [exact E|]. split; [now rewrite E|].
  intros data. split; [reflexivity|]. apply hexdigest_form.
Qed.

Lemma canonical_encoding_ignores_insertion_order_witness :
  canonical_json EncoderSample.written_one_way
  = canonical_json EncoderSample.written_another_way.
Proof.
  refine (proj1 (canonical_encoding_ignores_insertion_order
                   EncoderSample.written_one_way
                   EncoderSample.written_another_way _ _ _)).
  - vm_compute. reflexivity.
  - vm_compute. reflexivity.
  - vm_compute. reflexivity.
Defined.

End ContentAddress.

(** ** C5: [chain] sorts the records under the key *)

(** [list.sort] on keys that [<] orders. *)
Section SortFacts.
Context {A K : Type} (key : A -> K) (less : K -> K -> outcome bool).
Variable good : K -> bool.
Variable lt : K -> K -> bool.
Hypothesis less_lt :
  forall a b, good a = true -> good b = true -> less a b = Ret (lt a b).
Hypothesis lt_asym :
  forall a b, good a = true -> good b = true ->
              lt a b = true -> lt b a = false.
Hypothesis not_lt_trans :
  forall a b c, good a = true -> good b = true -> good c = true ->
                lt b a = false -> lt c b = false -> lt c a = false.




End SortFacts.

Section PlainKeys.






End PlainKeys.

Section ChainFacts.

Lemma py_eq_str (v : json) (k : string) :
  Py.eq v (JStr k) = match v with JStr t => String.eqb t k | _ => false end.
Proof. destruct v as [| [|] | | | |]; reflexivity. Qed.

(** The loop of [chain] collects the records under the key. *)
Lemma matching_selected (k : string) (lines : list string) :
  flat_map (ReceiptStore.matching k) lines = records_under k lines.
Proof.
  unfold records_under. induction lines as [|ln lines IH]; simpl; [reflexivity|].
  rewrite IH. f_equal.
  unfold ReceiptStore.matching, is_under, Dict.get_or_none.
  destruct (Decoder.json_loads ln) as [[| | | | |d]|e]; simpl; try reflexivity.
  rewrite py_eq_str.
  destruct (Dict.get "trace_id" d) as [[| | | | |]|]; reflexivity.
Qed.

(** The query of the remote [chain] selects the documents under the
    key. *)
Lemma where_trace_id_selected (k : string) (docs : list dict) :
  FirestoreReceiptStore.where_trace_id k docs = filter (is_under k) docs.
Proof.
  unfold FirestoreReceiptStore.where_trace_id. apply filter_ext.
  intros d. unfold is_under, Dict.get_or_none. rewrite py_eq_str.
  destruct (Dict.get "trace_id" d) as [[| | | | |]|]; reflexivity.
Qed.



End ChainFacts.



(** ** Lines written and read back *)

Section SplitLines.
Import Text.

Lemma string_app_assoc (a b c : string) : ((a ++ b) ++ c = a ++ (b ++ c))%string.
Proof. induction a as [|x a IH]; simpl; congruence. Qed.

Lemma string_app_empty (a : string) : (a ++ EmptyString)%string = a.
Proof. induction a as [|x a IH]; simpl; congruence. Qed.

(** Where no boundary starts, [splitlines] moves one character to the
    current line. *)
Lemma splitlines_no_boundary (cur : string) (c1 : ascii) (r1 : string) :
  boundary_at (String c1 r1) = false ->
  splitlines_from cur (String c1 r1) = splitlines_from (cur ++ str1 c1) r1.
Proof.
  simpl. intros H.
  apply orb_false_iff in H as [H H3].
  apply orb_false_iff in H as [H1 H2].
  rewrite H1, H2.
  destruct r1 as [|c2 r2]; [reflexivity|].
  apply orb_false_iff in H3 as [H3 H4]. rewrite H3.
  destruct r2 as [|c3 r3]; [reflexivity|].
  now rewrite H4.
Qed.

(** A boundary that starts at the head of a text still starts there when
    the text goes on. *)
Lemma boundary_at_app (u s : string) :
  boundary_at u = true -> boundary_at (u ++ s) = true.
Proof.
  destruct u as [|c1 [|c2 [|c3 r3]]]; simpl; try discriminate.
  - rewrite orb_false_r. intros ->. reflexivity.
  - rewrite orb_false_r. intros H.
    apply orb_true_iff in H as [->|H]; [reflexivity|].
    destruct s; simpl; rewrite H; now rewrite !orb_true_r.
  - auto.
Qed.

(** A line feed that follows does not complete a boundary. *)
Lemma boundary_at_before_lf (u rest : string) :
  u <> EmptyString ->
  boundary_at (u ++ String LF rest) = boundary_at u.
Proof.
  destruct u as [|c1 [|c2 [|c3 r3]]]; simpl; try congruence; intros _.
  - rewrite orb_false_r.
    assert (E : is_nel c1 LF = false)
      by (unfold is_nel; simpl; now rewrite andb_false_r).
    rewrite E. simpl.
    destruct rest as [|c r]; simpl; [now rewrite orb_false_r|].
    assert (E' : is_lsep c1 LF c = false)
      by (unfold is_lsep; simpl; now rewrite andb_false_r).
    rewrite E'. now rewrite orb_false_r.
  - assert (E : is_lsep c1 c2 LF = false)
      by (unfold is_lsep; simpl; now rewrite andb_false_r).
    rewrite E. reflexivity.
Qed.

Lemma has_break_cons (c : ascii) (r : string) :
  has_break (String c r) = boundary_at (String c r) || has_break r.
Proof.
  unfold has_break. cbn [breaks_within]. now rewrite string_app_empty.
Qed.

(** A line without boundary, closed by a line feed, is read back as it
    is. *)
Lemma splitlines_line (l cur rest : string) :
  has_break l = false ->
  splitlines_from cur (l ++ String LF rest)
  = (cur ++ l)%string :: splitlines_from EmptyString rest.
Proof.
  revert cur. induction l as [|c l IH]; intros cur H.
  - simpl. now rewrite string_app_empty.
  - rewrite has_break_cons in H. apply orb_false_iff in H as [Hb Hl].
    change ((String c l ++ String LF rest)%string)
      with (String c (l ++ String LF rest)).
    rewrite splitlines_no_boundary.
    + rewrite (IH _ Hl). now rewrite string_app_assoc.
    + change (String c (l ++ String LF rest))
        with ((String c l ++ String LF rest)%string).
      rewrite boundary_at_before_lf by discriminate. exact Hb.
Qed.

Lemma written_lines (ls : list string) (tail : string) :
  Forall (fun l => has_break l = false) ls ->
  splitlines (written_text ls tail) = (ls ++ splitlines tail)%list.
Proof.
  unfold splitlines. induction 1 as [|l ls Hl _ IH]; simpl; [reflexivity|].
  rewrite (splitlines_line l EmptyString _ Hl). simpl. now rewrite IH.
Qed.

Lemma join_lines_written (ls : list string) (x : string) :
  (join_lines (ls ++ [x]) ++ str1 LF)%string = written_text ls (x ++ str1 LF).
Proof.
  induction ls as [|l ls IH]; simpl; [reflexivity|].
  destruct (ls ++ [x])%list as [|y ys] eqn:E.
  - destruct ls; discriminate.
  - rewrite <- IH. rewrite string_app_assoc. reflexivity.
Qed.

Lemma breaks_within_step (cur : string) (c1 : ascii) (r1 : string) :
  breaks_within cur (String c1 r1) = false ->
  boundary_at (String c1 r1) = false ->
  breaks_within (cur ++ str1 c1) r1 = false.
Proof.
  induction cur as [|c cur IH]; simpl; intros H Hb.
  - now rewrite Hb.
  - apply orb_false_iff in H as [H1 H2].
    rewrite string_app_assoc. simpl. rewrite H1. simpl. auto.
Qed.

Lemma breaks_within_empty (cur s : string) :
  breaks_within cur s = false -> has_break cur = false.
Proof.
  unfold has_break. induction cur as [|c cur IH]; simpl; auto.
  intros H. apply orb_false_iff in H as [H1 H2].
  rewrite (IH H2), orb_false_r.
  destruct (boundary_at (String c (cur ++ EmptyString))) eqn:E; auto.
  apply (boundary_at_app _ s) in E. simpl in E.
  rewrite string_app_assoc in E. simpl in E. congruence.
Qed.

(** No line that [splitlines] returns holds a boundary. *)
Lemma splitlines_from_clean (n : nat) :
  forall (s cur x : string),
    String.length s <= n ->
    breaks_within cur s = false ->
    In x (splitlines_from cur s) -> has_break x = false.
Proof.
  induction n as [|n IH]; intros s cur x Hlen Hcur Hin.
  - destruct s; [|simpl in Hlen; lia].
    simpl in Hin. destruct cur; [contradiction|].
    destruct Hin as [<-|[]]. now apply (breaks_within_empty _ EmptyString).
  - destruct s as [|c1 r1].
    + simpl in Hin. destruct cur; [contradiction|].
      destruct Hin as [<-|[]]. now apply (breaks_within_empty _ EmptyString).
    + simpl in Hlen.
      destruct (boundary_at (String c1 r1)) eqn:Hb.
      * assert (Hx : x = cur \/
                     exists r, String.length r <= n
                               /\ In x (splitlines_from EmptyString r)).
        { simpl in Hin, Hb.
          destruct (is_break1 c1).
          { destruct Hin as [<-|Hin]; [now left|].
            right. exists r1. split; [lia|exact Hin]. }
          destruct (is_cr c1).
          { destruct r1 as [|c2 r2].
            - destruct Hin as [<-|Hin]; [now left|].
              right. exists EmptyString. split; [simpl; lia|exact Hin].
            - destruct (code c2 =? 10)%N.
              + destruct Hin as [<-|Hin]; [now left|].
                right. exists r2. split; [simpl in Hlen; lia|exact Hin].
              + destruct Hin as [<-|Hin]; [now left|].
                right. exists (String c2 r2). split; [lia|exact Hin]. }
          simpl in Hb.
          destruct r1 as [|c2 r2]; [discriminate|].
          destruct (is_nel c1 c2).
          { destruct Hin as [<-|Hin]; [now left|].
            right. exists r2. split; [simpl in Hlen; lia|exact Hin]. }
          simpl in Hb.
          destruct r2 as [|c3 r3]; [discriminate|].
          rewrite Hb in Hin.
          destruct Hin as [<-|Hin]; [now left|].
          right. exists r3. split; [simpl in Hlen; lia|exact Hin]. }
        destruct Hx as [->|(r & Hr & Hin')].
        -- now apply (breaks_within_empty _ (String c1 r1)).
        -- apply (IH r EmptyString x Hr); auto.
      * rewrite (splitlines_no_boundary _ _ _ Hb) in Hin.
        apply (IH r1 (cur ++ str1 c1)%string x); auto; [lia|].
        now apply breaks_within_step.
Qed.

Lemma lines_of_clean (f : ReceiptStore.file) :
  Forall (fun l => has_break l = false) (lines_of f).
Proof.
  apply Forall_forall. intros x Hx. destruct f as [text|]; [|contradiction].
  simpl in Hx. apply filter_In in Hx as [Hx _].
  apply (splitlines_from_clean (String.length text) text EmptyString x);
    auto.
Qed.

Lemma lines_of_not_blank (f : ReceiptStore.file) :
  Forall (fun l => all_space l = false) (lines_of f).
Proof.
  apply Forall_forall. intros x Hx. destruct f as [text|]; [|contradiction].
  simpl in Hx. apply filter_In in Hx as [_ Hx].
  now apply negb_true_iff in Hx.
Qed.

Lemma filter_all {A} (p : A -> bool) (l : list A) :
  Forall (fun x => p x = true) l -> filter p l = l.
Proof.
  induction 1 as [|x l Hx _ IH]; simpl; [reflexivity|].
  now rewrite Hx, IH.
Qed.

(** The log after [_write_lines(ls + [x])], when the lines [ls] hold no
    boundary and are not blank: these lines, then the lines the text [x]
    is read back as. *)
Lemma lines_of_file_of (ls : list string) (x : string) :
  Forall (fun l => has_break l = false) ls ->
  Forall (fun l => all_space l = false) ls ->
  lines_of (file_of (ls ++ [x]))
  = (ls ++ lines_of (Some (x ++ str1 LF)%string))%list.
Proof.
  intros Hclean Hblank. unfold file_of, lines_of.
  destruct (ls ++ [x])%list as [|y ys] eqn:E;
    [destruct ls; discriminate|].
  rewrite <- E. rewrite join_lines_written.
  rewrite (written_lines _ _ Hclean), filter_app. f_equal.
  apply filter_all. eapply Forall_impl; [|exact Hblank].
  intros l Hl. simpl in Hl. now rewrite Hl.
Qed.

End SplitLines.

(** ** C7: pruning by age *)

Section SortPermutation.
Context {A K : Type} (key : A -> K) (less : K -> K -> outcome bool).

Lemma insert_permutation (x : A) (l out : list A) :
  Py.insert key less x l = Ret out -> Permutation (x :: l) out.
Proof.
  revert out. induction l as [|y l IH]; simpl; intros out H.
  - inversion H. reflexivity.
  - destruct (less (key y) (key x)) as [[|]|e]; simpl in H;
      try discriminate.
    + destruct (Py.insert key less x l) as [r|e]; simpl in H;
        [|discriminate].
      inversion H; subst.
      eapply perm_trans; [apply perm_swap|]. constructor. now apply IH.
    + inversion H. reflexivity.
Qed.

(** When the sort returns, it returns its input in another order. *)
Lemma sort_permutation (l out : list A) :
  Py.sort key less l = Ret out -> Permutation l out.
Proof.
  revert out. induction l as [|x l IH]; simpl; intros out H.
  - inversion H. reflexivity.
  - destruct (Py.sort key less l) as [s|e]; simpl in H; [|discriminate].
    eapply perm_trans; [|apply (insert_permutation _ _ _ H)].
    constructor. now apply IH.
Qed.

End SortPermutation.

Section PruneFacts.
Context {lib : Library}.

Lemma records_under_app (k : string) (l1 l2 : list string) :
  records_under k (l1 ++ l2)
  = (records_under k l1 ++ records_under k l2)%list.
Proof. unfold records_under. apply flat_map_app. Qed.

Lemma Forall_filter_keep {A} (P : A -> Prop) (p : A -> bool) (l : list A) :
  Forall P l -> Forall P (filter p l).
Proof.
  intros H. apply Forall_forall. intros x Hx.
  apply filter_In in Hx as [Hx _]. rewrite Forall_forall in H. auto.
Qed.

Lemma prune_subset (self : ReceiptStore.t) (now : Z) (lines : list string)
    (P : string -> Prop) :
  Forall P lines -> Forall P (ReceiptStore._prune_by_age self now lines).
Proof.
  unfold ReceiptStore._prune_by_age.
  destruct (ReceiptStore.max_age_seconds self <=? 0)%Z; auto.
  apply Forall_filter_keep.
Qed.

(** The log after an [add] that returns: the lines that survive the
    pruning, then the lines the text of the new receipt is read back
    as. *)
Lemma lines_after_add (self : ReceiptStore.t) (now : Z) (r r2 : dict)
    (f f' : ReceiptStore.file) :
  ReceiptStore.add self now r f = (Ret r2, f') ->
  f' = file_of (ReceiptStore._prune_by_age self now (lines_of f)
                ++ [Encoder.json_dumps (JObj r2)])
  /\ lines_of f'
     = (ReceiptStore._prune_by_age self now (lines_of f)
        ++ lines_of (Some (Encoder.json_dumps (JObj r2)
                           ++ Text.str1 Text.LF)%string))%list.
Proof.
  rewrite add_run. cbv zeta.
  destruct (ReceiptStore.last_receipt_hash _) as [prev|e]; intros H;
    inversion H; subst.
  split; [reflexivity|].
  apply lines_of_file_of.
  - apply prune_subset, lines_of_clean.
  - apply prune_subset, lines_of_not_blank.
Qed.





End PruneFacts.



(** ** C9: calls of [add] in two threads *)

Section ThreadFacts.
Context {lib : Library}.

(** The two steps of one call, with nothing in between, are [add]. *)
Lemma two_steps_are_add (self : ReceiptStore.t) (now : Z) (r : dict)
    (f : ReceiptStore.file) :
  Threads.step self (fst (Threads.step self (Threads.Ready now r) f))
                    (snd (Threads.step self (Threads.Ready now r) f))
  = (call_of (fst (ReceiptStore.add self now r f)),
     snd (ReceiptStore.add self now r f)).
Proof.
  rewrite add_run. cbv zeta.
  cbn [Threads.step]. rewrite read_lines_run. cbn [fst or_else].
  destruct (ReceiptStore.last_receipt_hash _) as [prev|e]; reflexivity.
Qed.

Lemma turn_first (self : ReceiptStore.t) (c1 c2 : Threads.call)
    (f : ReceiptStore.file) :
  Threads.turn self false (c1, c2, f)
  = (fst (Threads.step self c1 f), c2, snd (Threads.step self c1 f)).
Proof. unfold Threads.turn. now destruct (Threads.step self c1 f). Qed.

Lemma turn_second (self : ReceiptStore.t) (c1 c2 : Threads.call)
    (f : ReceiptStore.file) :
  Threads.turn self true (c1, c2, f)
  = (c1, fst (Threads.step self c2 f), snd (Threads.step self c2 f)).
Proof. unfold Threads.turn. now destruct (Threads.step self c2 f). Qed.

(** C9 (as amended). [add] takes no lock: it reads the log in one step
    and rewrites it in a later one, and a call of another thread may run
    in between.  When the two calls do not overlap, the one running both
    its steps before the other starts, they have the effect of the two
    [add] in sequence, in either order. *)
Theorem calls_that_do_not_overlap_are_sequential :
  forall (self : ReceiptStore.t) (now1 now2 : Z) (r1 r2 : dict)
         (f : ReceiptStore.file),
    (let (o1, f1) := ReceiptStore.add self now1 r1 f in
     let (o2, f2) := ReceiptStore.add self now2 r2 f1 in
     Threads.run self [false; false; true; true]
       (Threads.Ready now1 r1, Threads.Ready now2 r2, f)
     = (call_of o1, call_of o2, f2))
    /\
    (let (o2, f1) := ReceiptStore.add self now2 r2 f in
     let (o1, f2) := ReceiptStore.add self now1 r1 f1 in
     Threads.run self [true; true; false; false]
       (Threads.Ready now1 r1, Threads.Ready now2 r2, f)
     = (call_of o1, call_of o2, f2)).
Proof.
  intros self now1 now2 r1 r2 f.
  unfold Threads.run. cbn [fold_left].
  rewrite !turn_first, !turn_second, !turn_first.
  rewrite !two_steps_are_add. split.
  - destruct (ReceiptStore.add self now1 r1 f) as [o1 f1]. cbn [fst snd].
    destruct (ReceiptStore.add self now2 r2 f1) as [o2 f2]. reflexivity.
  - destruct (ReceiptStore.add self now2 r2 f) as [o2 f1]. cbn [fst snd].
    destruct (ReceiptStore.add self now1 r1 f1) as [o1 f2]. reflexivity.
Qed.

End ThreadFacts.

(** C9 (counterexample). The claim is that the calls of several threads
    are serialized.  Nothing in [add] serializes them: from no file, let
    each of two calls read the log before either writes it.  Both
    return, both receipts carry no predecessor, and the log holds the
    second receipt only. *)
Lemma interleaved_calls_lose_a_receipt :
  ~ serialized (lib := Reference.library) Sample.store 0 0
      Sample.hop0 Sample.hop1 None.
Proof.
  intros H. specialize (H [false; true; false; true] eq_refl).
  vm_compute in H.
  match type of H with
  | forall x y, Some ?a = Some x -> Some ?b = Some y -> _ =>
      destruct (H a b eq_refl eq_refl) as [[Hlost _] _]
  end.
  destruct Hlost as [Hlost|[]].
  discriminate Hlost.
Qed.

(** ** The log read back: [json.loads] after [json.dumps] *)

Section ReadBack.
Import Text Encoder Decoder.

Lemma closes_not_digit rest : closes rest = true -> starts_with_digit rest = false.
Proof.
  destruct rest as [|c r]; simpl; auto. unfold is_digit.
  intros H. apply orb_true_iff in H as [H|H];
    [apply orb_true_iff in H as [H|H]|]; apply N.eqb_eq in H; rewrite H;
    reflexivity.
Qed.

Lemma closes_not_float rest : closes rest = true -> float_tail rest = false.
Proof.
  destruct rest as [|c r]; simpl; auto.
  intros H. apply orb_true_iff in H as [H|H];
    [apply orb_true_iff in H as [H|H]|]; apply N.eqb_eq in H; rewrite H;
    reflexivity.
Qed.

Lemma span_digits_uint (d : uint) (rest : string) :
  starts_with_digit rest = false ->
  span_digits (NilEmpty.string_of_uint d ++ rest)
  = (NilEmpty.string_of_uint d, rest).
Proof.
  intros Hr. induction d; simpl;
    try (rewrite IHd; reflexivity).
  destruct rest as [|c r]; simpl in *; [reflexivity|]. now rewrite Hr.
Qed.

Lemma nzhead_head (d : uint) :
  match nzhead d with D0 _ => False | _ => True end.
Proof. induction d; simpl; auto. Qed.

(** The digits of a positive number do not start with a zero. *)
Lemma to_uint_head (p : positive) :
  match Pos.to_uint p with Nil | D0 _ => False | _ => True end.
Proof.
  pose proof (DecimalPos.Unsigned.to_of (Pos.to_uint p)) as H.
  rewrite DecimalPos.Unsigned.of_to in H. simpl in H.
  pose proof (DecimalPos.Unsigned.to_uint_nonzero p) as Hz.
  pose proof (nzhead_head (Pos.to_uint p)) as Hh.
  revert H Hz Hh. generalize (Pos.to_uint p). intros d H Hz Hh.
  unfold unorm in H.
  destruct (nzhead d); subst d; try exact I; contradiction.
Qed.

Lemma scan_positive (p : positive) (neg : bool) (rest : string) :
  closes rest = true ->
  scan_number
    ((if neg then "-" else EmptyString)
     ++ NilEmpty.string_of_uint (Pos.to_uint p) ++ rest)
  = Some (JInt (if neg then Z.neg p else Z.pos p), rest).
Proof.
  intros Hr.
  pose proof (to_uint_head p) as Hh.
  pose proof (NilEmpty.usu (Pos.to_uint p)) as Hu.
  pose proof (DecimalPos.Unsigned.of_to p) as Hof.
  assert (Hval : Z.of_uint (Pos.to_uint p) = Z.pos p).
  { unfold Z.of_uint. now rewrite Hof. }
  assert (Hbody : forall d,
             d = Pos.to_uint p ->
             scan_number (NilEmpty.string_of_uint d ++ rest)
             = Some (JInt (Z.pos p), rest)
             /\ (scan_number (String "-" (NilEmpty.string_of_uint d ++ rest))
                 = Some (JInt (Z.neg p), rest))).
  { intros d Hd. rewrite <- Hd in Hh, Hu, Hval.
    destruct d; try contradiction;
      unfold scan_number; simpl; rewrite (span_digits_uint _ _ (closes_not_digit _ Hr));
      rewrite (closes_not_float _ Hr);
      simpl in Hu; unfold NilZero.uint_of_string; simpl;
      rewrite Hu; rewrite ?Hval; simpl; auto. }
  destruct (Hbody _ eq_refl) as [H1 H2].
  destruct neg; simpl; auto.
Qed.

Lemma scan_decimal (n : Z) (rest : string) :
  closes rest = true ->
  scan_number (decimal n ++ rest) = Some (JInt n, rest).
Proof.
  intros Hr. unfold decimal.
  destruct n as [|p|p]; simpl.
  - unfold scan_number. simpl. now rewrite (closes_not_float _ Hr).
  - pose proof (to_uint_head p) as Hh.
    pose proof (scan_positive p false rest Hr) as H. simpl in H.
    unfold NilZero.string_of_uint.
    destruct (Pos.to_uint p); try contradiction; exact H.
  - pose proof (to_uint_head p) as Hh.
    pose proof (scan_positive p true rest Hr) as H. simpl in H.
    unfold NilZero.string_of_uint.
    destruct (Pos.to_uint p); try contradiction; exact H.
Qed.

(** What [scanstring] makes of one escaped character. *)
Lemma scanstring_escape_char (c : ascii) (t : string) (fuel : nat) :
  scanstring (S fuel) (escape_char c ++ t)
  = match scanstring fuel t with
    | Some (u, rest) => Some (String c u, rest)
    | None => None
    end.
Proof.
  destruct c as [[|] [|] [|] [|] [|] [|] [|] [|]]; reflexivity.
Qed.

Lemma escape_char_length (c : ascii) : 1 <= String.length (escape_char c).
Proof.
  destruct c as [[|] [|] [|] [|] [|] [|] [|] [|]]; vm_compute; lia.
Qed.

Lemma scanstring_escape (s rest : string) (fuel : nat) :
  String.length (escape s) < fuel ->
  scanstring fuel (escape s ++ String quote rest) = Some (s, rest).
Proof.
  revert fuel. induction s as [|c s IH]; intros fuel Hf.
  - destruct fuel; [simpl in Hf; lia|]. reflexivity.
  - destruct fuel; [lia|].
    simpl escape. rewrite string_app_assoc, scanstring_escape_char.
    rewrite IH; [reflexivity|].
    simpl in Hf. rewrite string_length_app in Hf.
    pose proof (escape_char_length c). lia.
Qed.

Lemma dumps_array xs : json_dumps (JArr xs) = "[" ++ items_text xs ++ "]".
Proof.
  reflexivity.
Qed.

Lemma dumps_object kvs :
  json_dumps (JObj kvs) = "{" ++ members_text kvs ++ "}".
Proof.
  reflexivity.
Qed.

Lemma weight_array xs : weight (JArr xs) = S (items_weight xs).
Proof.
  reflexivity.
Qed.

Lemma weight_object kvs : weight (JObj kvs) = S (members_weight kvs).
Proof.
  simpl. f_equal. induction kvs as [|[k x] kvs IH]; simpl; congruence.
Qed.

Lemma decimal_head (n : Z) :
  match decimal n with
  | String c _ => is_digit c = true \/ code c = 45%N
  | EmptyString => False
  end.
Proof.
  unfold decimal. destruct n as [|p|p]; simpl.
  - now left.
  - pose proof (to_uint_head p) as H. unfold NilZero.string_of_uint.
    destruct (Pos.to_uint p); try contradiction; simpl; now left.
  - now right.
Qed.

Lemma digit_code c : is_digit c = true -> (48 <= code c <= 57)%N.
Proof.
  unfold is_digit. intros H. apply andb_true_iff in H as [H1 H2].
  apply N.leb_le in H1, H2. lia.
Qed.

Lemma opens_dumps (v : json) (rest : string) : opens (json_dumps v ++ rest).
Proof.
  destruct v as [| [|] | n | s | xs | kvs];
    try (rewrite ?dumps_array, ?dumps_object; simpl; repeat split; reflexivity).
  unfold json_dumps. simpl.
  pose proof (decimal_head n) as H.
  destruct (decimal n) as [|c r]; [contradiction|]. simpl.
  unfold is_ws.
  destruct H as [H|H].
  - apply digit_code in H.
    repeat split; repeat (apply orb_false_iff; split); apply N.eqb_neq; lia.
  - rewrite H. repeat split.
Qed.

Lemma skip_ws_opens (s : string) : opens s -> skip_ws s = s.
Proof. destruct s as [|c r]; simpl; [tauto|]. now intros [-> _]. Qed.

Lemma skip_space_opens (t : string) : opens t -> skip_ws (String " " t) = t.
Proof. intros H. simpl. now apply skip_ws_opens. Qed.

Lemma items_text_cons (x y : json) (ys : list json) :
  items_text (x :: y :: ys) = json_dumps x ++ ", " ++ items_text (y :: ys).
Proof. reflexivity. Qed.

Lemma opens_items (xs : list json) (rest : string) :
  xs <> [] -> opens (items_text xs ++ rest).
Proof.
  destruct xs as [|x [|y ys]]; [congruence| |]; intros _.
  - apply opens_dumps.
  - rewrite items_text_cons, string_app_assoc. apply opens_dumps.
Qed.

Lemma scan_elements_items (xs : list json) :
  xs <> [] -> Forall reads_back xs ->
  forall (rest : string) (fuel : nat),
    items_weight xs <= fuel ->
    scan_elements fuel (items_text xs ++ String "]" rest) = Some (xs, rest).
Proof.
  intros Hne Hall. induction Hall as [|x xs Hx Hxs IH]; [congruence|].
  intros rest fuel Hf. clear Hne.
  destruct fuel as [|fuel]; [simpl in Hf; lia|].
  simpl in Hf. cbn [scan_elements].
  destruct xs as [|y ys].
  - cbn [items_text]. rewrite (Hx (String "]" rest) fuel); [|lia|reflexivity].
    reflexivity.
  - rewrite items_text_cons, !string_app_assoc.
    rewrite (Hx _ fuel); [|lia|reflexivity].
    cbn [String.append skip_ws is_ws code N_of_ascii N_of_digits].
    simpl skip_ws.
    change (is_ws "," ) with false. cbv iota.
    change ((code "," =? 93)%N) with false.
    change ((code "," =? 44)%N) with true. cbv iota.
    rewrite skip_space_opens by (apply opens_items; discriminate).
    rewrite IH; [reflexivity|discriminate|].
    simpl items_weight in Hf |- *. lia.
Qed.

Lemma members_text_cons (k : string) (x : json) (kv : string * json)
    (kvs : list (string * json)) :
  members_text ((k, x) :: kv :: kvs)
  = quoted k ++ ": " ++ json_dumps x ++ ", " ++ members_text (kv :: kvs).
Proof. reflexivity. Qed.

Lemma members_text_quote (kvs : list (string * json)) :
  kvs <> [] -> exists t, members_text kvs = String quote t.
Proof.
  destruct kvs as [|[k x] [|kv kvs]]; [congruence| |]; intros _;
    eexists; reflexivity.
Qed.

Lemma scan_members_eq (fuel : nat) (s : string) :
  scan_members (S fuel) s
  = match scanstring (S (String.length s)) s with
    | None => None
    | Some (key, r) =>
        match skip_ws r with
        | String c r1 =>
            if (code c =? 58)%N then
              match scan_once fuel (skip_ws r1) with
              | Some (v, r2) =>
                  match skip_ws r2 with
                  | String d r3 =>
                      if (code d =? 125)%N then Some ([(key, v)], r3)
                      else if (code d =? 44)%N then
                        match skip_ws r3 with
                        | String q r4 =>
                            if (code q =? 34)%N then
                              match scan_members fuel r4 with
                              | Some (kvs, r5) => Some ((key, v) :: kvs, r5)
                              | None => None
                              end
                            else None
                        | EmptyString => None
                        end
                      else None
                  | EmptyString => None
                  end
              | None => None
              end
            else None
        | EmptyString => None
        end
    end.
Proof. reflexivity. Qed.

Lemma quoted_app (k tail : string) :
  quoted k ++ tail = String quote (escape k ++ String quote tail).
Proof. unfold quoted. simpl. now rewrite string_app_assoc. Qed.

Lemma skip_ws_colon (t : string) : skip_ws (String ":" t) = String ":" t.
Proof. reflexivity. Qed.

Lemma skip_ws_comma (t : string) : skip_ws (String "," t) = String "," t.
Proof. reflexivity. Qed.

Lemma skip_ws_brace (t : string) : skip_ws (String "}" t) = String "}" t.
Proof. reflexivity. Qed.

Lemma skip_ws_bracket (t : string) : skip_ws (String "]" t) = String "]" t.
Proof. reflexivity. Qed.

Lemma skip_ws_quote (t : string) :
  skip_ws (String " " (String quote t)) = String quote t.
Proof. reflexivity. Qed.

Lemma scan_key (k tail : string) :
  scanstring (S (String.length (escape k ++ String quote tail)))
    (escape k ++ String quote tail) = Some (k, tail).
Proof.
  apply scanstring_escape. rewrite string_length_app. simpl. lia.
Qed.

(** The last member of a dictionary, from after the opening quote of its
    key. *)
Lemma scan_members_last (fuel : nat) (k : string) (x : json) (rest : string) :
  reads_back x -> weight x <= fuel ->
  scan_members (S fuel)
    (escape k ++ String quote (String ":" (String " "
       (json_dumps x ++ String "}" rest))))
  = Some ([(k, x)], rest).
Proof.
  intros Hx Hf. rewrite scan_members_eq, scan_key, skip_ws_colon.
  cbv match. change ((code ":" =? 58)%N) with true. cbv match.
  rewrite (skip_space_opens _ (opens_dumps x _)).
  rewrite (Hx (String "}" rest) fuel Hf eq_refl).
  rewrite skip_ws_brace. reflexivity.
Qed.

(** A member that another one follows. *)
Lemma scan_members_more (fuel : nat) (k : string) (x : json) (t : string) :
  reads_back x -> weight x <= fuel ->
  scan_members (S fuel)
    (escape k ++ String quote (String ":" (String " "
       (json_dumps x ++ String "," (String " " (String quote t))))))
  = match scan_members fuel t with
    | Some (kvs, rest) => Some ((k, x) :: kvs, rest)
    | None => None
    end.
Proof.
  intros Hx Hf. rewrite scan_members_eq, scan_key, skip_ws_colon.
  cbv match. change ((code ":" =? 58)%N) with true. cbv match.
  rewrite (skip_space_opens _ (opens_dumps x _)).
  rewrite (Hx (String "," (String " " (String quote t))) fuel Hf eq_refl).
  rewrite skip_ws_comma. cbv match.
  change ((code "," =? 125)%N) with false.
  change ((code "," =? 44)%N) with true. cbv match.
  rewrite skip_ws_quote. cbv match.
  change ((code quote =? 34)%N) with true. cbv match.
  reflexivity.
Qed.

Lemma members_text_one (k : string) (x : json) (rest : string) :
  members_text [(k, x)] ++ rest
  = String quote (escape k ++ String quote (String ":" (String " "
      (json_dumps x ++ rest)))).
Proof.
  cbn [members_text]. rewrite !string_app_assoc, quoted_app. reflexivity.
Qed.

Lemma members_text_more (k : string) (x : json) (kv : string * json)
    (kvs : list (string * json)) (rest : string) :
  members_text ((k, x) :: kv :: kvs) ++ rest
  = String quote (escape k ++ String quote (String ":" (String " "
      (json_dumps x ++ String "," (String " "
         (members_text (kv :: kvs) ++ rest)))))).
Proof.
  rewrite members_text_cons, !string_app_assoc, quoted_app. reflexivity.
Qed.

Lemma behind_cons (c : ascii) (t : string) : behind (String c t) = t.
Proof. reflexivity. Qed.

Lemma scan_members_text (kvs : list (string * json)) :
  kvs <> [] -> Forall (fun kv => reads_back (snd kv)) kvs ->
  forall (rest : string) (fuel : nat),
    members_weight kvs <= fuel ->
    scan_members fuel (behind (members_text kvs ++ String "}" rest))
    = Some (kvs, rest).
Proof.
  intros Hne Hall. induction Hall as [|[k x] kvs Hx Hkvs IH]; [congruence|].
  intros rest fuel Hf. clear Hne. simpl in Hx.
  destruct fuel as [|fuel]; [simpl in Hf; lia|].
  simpl in Hf.
  destruct kvs as [|kv kvs].
  - rewrite members_text_one, behind_cons.
    apply scan_members_last; [exact Hx|lia].
  - rewrite members_text_more, behind_cons.
    destruct (members_text_quote (kv :: kvs)) as [t' Ht']; [discriminate|].
    assert (Hq : members_text (kv :: kvs) ++ String "}" rest
                 = String quote (t' ++ String "}" rest))
      by (now rewrite Ht').
    specialize (IH ltac:(discriminate) rest fuel).
    rewrite Hq in IH |- *. rewrite behind_cons in IH.
    rewrite scan_members_more; [|exact Hx|lia].
    rewrite IH; [reflexivity|].
    simpl members_weight in Hf |- *. lia.
Qed.

Lemma scan_once_string (fuel : nat) (r : string) :
  scan_once (S fuel) (String quote r)
  = match scanstring (S (String.length r)) r with
    | Some (t, rest) => Some (JStr t, rest)
    | None => None
    end.
Proof. reflexivity. Qed.

Lemma scan_once_bracket (fuel : nat) (r : string) :
  scan_once (S fuel) (String "[" r)
  = match skip_ws r with
    | String c1 r1 =>
        if (code c1 =? 93)%N then Some (JArr [], r1)
        else
          match scan_elements fuel (String c1 r1) with
          | Some (xs, rest) => Some (JArr xs, rest)
          | None => None
          end
    | EmptyString => None
    end.
Proof. reflexivity. Qed.

Lemma scan_once_brace (fuel : nat) (r : string) :
  scan_once (S fuel) (String "{" r)
  = match skip_ws r with
    | String c1 r1 =>
        if (code c1 =? 125)%N then Some (JObj [], r1)
        else if (code c1 =? 34)%N then
          match scan_members fuel r1 with
          | Some (kvs, rest) => Some (JObj (Dict.of_pairs kvs), rest)
          | None => None
          end
        else None
    | EmptyString => None
    end.
Proof. reflexivity. Qed.

Lemma scan_once_number (fuel : nat) (c : ascii) (r : string) :
  is_digit c = true \/ code c = 45%N ->
  scan_once (S fuel) (String c r) = scan_number (String c r).
Proof.
  intros [H|H].
  - destruct c as [[|] [|] [|] [|] [|] [|] [|] [|]];
      vm_compute in H; try discriminate H; reflexivity.
  - destruct c as [[|] [|] [|] [|] [|] [|] [|] [|]];
      vm_compute in H; try discriminate H; reflexivity.
Qed.

Lemma set_fresh {A} (k : string) (v : A) (d : list (string * A)) :
  existsb (String.eqb k) (map fst d) = false ->
  Dict.set k v d = (d ++ [(k, v)])%list.
Proof.
  induction d as [|[k' v'] d IH]; simpl; [reflexivity|].
  intros H. apply orb_false_iff in H as [H1 H2].
  rewrite H1. now rewrite IH.
Qed.

Lemma existsb_app_false {A} (p : A -> bool) (l1 l2 : list A) :
  existsb p l1 = false -> existsb p l2 = false ->
  existsb p (l1 ++ l2) = false.
Proof. intros H1 H2. now rewrite existsb_app, H1, H2. Qed.

(** A sequence of pairs without repeated key is the dictionary it
    builds. *)
Lemma of_pairs_distinct {A} (kvs : list (string * A)) :
  distinct (map fst kvs) = true -> Dict.of_pairs kvs = kvs.
Proof.
  unfold Dict.of_pairs.
  assert (H : forall acc,
             distinct (map fst (acc ++ kvs)) = true ->
             fold_left (fun d kv => Dict.set (fst kv) (snd kv) d) kvs acc
             = (acc ++ kvs)%list).
  { induction kvs as [|[k v] kvs IH]; intros acc Hd; simpl.
    - now rewrite List.app_nil_r.
    - rewrite set_fresh.
      + rewrite IH; rewrite <- List.app_assoc; [reflexivity|exact Hd].
      + clear IH. induction acc as [|[k' v'] acc IHa]; [reflexivity|].
        simpl in Hd |- *. apply andb_true_iff in Hd as [Hn Hd].
        rewrite (IHa Hd), orb_false_r.
        apply negb_true_iff in Hn.
        rewrite map_app, existsb_app in Hn.
        apply orb_false_iff in Hn as [_ Hn]. simpl in Hn.
        apply orb_false_iff in Hn as [Hn _].
        now rewrite String.eqb_sym. }
  intros Hd. apply (H []). exact Hd.
Qed.

(** The text [json.dumps] writes for a value is read back as the
    value. *)
Lemma dumps_reads_back (v : json) : unique_keys v = true -> reads_back v.
Proof.
  induction v as [| b | n | s | xs IH | kvs IH] using json_induction;
    intros Hu rest fuel Hf Hr;
    (destruct fuel as [|fuel]; [simpl in Hf; lia|]).
  - reflexivity.
  - destruct b; reflexivity.
  - unfold json_dumps. cbn [encode].
    pose proof (decimal_head n) as Hh.
    pose proof (scan_decimal n rest Hr) as Hs.
    destruct (decimal n) as [|c r]; [contradiction|].
    change (String c r ++ rest) with (String c (r ++ rest)) in *.
    now rewrite scan_once_number.
  - unfold json_dumps. cbn [encode]. unfold quoted.
    change (String quote (escape s ++ str1 quote) ++ rest)
      with (String quote ((escape s ++ str1 quote) ++ rest)).
    rewrite string_app_assoc.
    change (str1 quote ++ rest) with (String quote rest).
    rewrite scan_once_string, scan_key. reflexivity.
  - rewrite dumps_array.
    change (("[" ++ items_text xs ++ "]") ++ rest)
      with (String "[" ((items_text xs ++ "]") ++ rest)).
    rewrite string_app_assoc.
    change ("]" ++ rest) with (String "]" rest).
    rewrite scan_once_bracket.
    destruct xs as [|x xs]; [reflexivity|].
    pose proof (opens_items (x :: xs) (String "]" rest) ltac:(discriminate))
      as Ho.
    rewrite (skip_ws_opens _ Ho).
    pose proof (scan_elements_items (x :: xs) ltac:(discriminate)) as He.
    destruct (items_text (x :: xs) ++ String "]" rest) as [|c1 r1] eqn:E;
      [contradiction|].
    destruct Ho as (_ & Hc & _). rewrite Hc, <- E.
    rewrite He; [reflexivity| |].
    + simpl in Hu. rewrite Forall_forall in IH |- *. intros y Hy.
      apply (IH y Hy).
      change (forallb unique_keys (x :: xs) = true) in Hu.
      rewrite forallb_forall in Hu. auto.
    + rewrite weight_array in Hf. lia.
  - rewrite dumps_object.
    change (("{" ++ members_text kvs ++ "}") ++ rest)
      with (String "{" ((members_text kvs ++ "}") ++ rest)).
    rewrite string_app_assoc.
    change ("}" ++ rest) with (String "}" rest).
    rewrite scan_once_brace.
    destruct kvs as [|kv kvs]; [reflexivity|].
    simpl in Hu. apply andb_true_iff in Hu as [Hd Hu].
    pose proof (scan_members_text (kv :: kvs) ltac:(discriminate)) as Hm.
    destruct (members_text_quote (kv :: kvs)) as [t Ht]; [discriminate|].
    specialize (Hm ltac:(
      rewrite Forall_forall in IH |- *; intros y Hy; apply (IH y Hy);
      change (forallb (fun kv => unique_keys (snd kv)) (kv :: kvs) = true)
        in Hu;
      rewrite forallb_forall in Hu; auto) rest fuel).
    rewrite Ht in Hm |- *.
    change (String quote t ++ String "}" rest)
      with (String quote (t ++ String "}" rest)) in *.
    rewrite behind_cons in Hm.
    rewrite skip_ws_opens by (simpl; auto).
    change ((code quote =? 125)%N) with false.
    change ((code quote =? 34)%N) with true. cbv match.
    rewrite Hm by (rewrite weight_object in Hf; lia).
    rewrite of_pairs_distinct; [reflexivity|exact Hd].
Qed.

Lemma decimal_length (n : Z) : 1 <= String.length (decimal n).
Proof.
  pose proof (decimal_head n) as H.
  destruct (decimal n); [contradiction|simpl; lia].
Qed.

Lemma dumps_length (v : json) : 1 <= String.length (json_dumps v).
Proof.
  pose proof (opens_dumps v EmptyString) as H.
  destruct (json_dumps v ++ EmptyString) as [|c r] eqn:E; [contradiction|].
  assert (E' : String.length (json_dumps v ++ EmptyString) = S (String.length r))
    by (now rewrite E).
  rewrite string_length_app in E'. simpl in E'. lia.
Qed.

Lemma items_weight_bound (xs : list json) :
  Forall (fun x => weight x <= 2 * String.length (json_dumps x)) xs ->
  items_weight xs <= 2 * String.length (items_text xs) + 2.
Proof.
  induction 1 as [|x xs Hx Hxs IH]; [simpl; lia|].
  destruct xs as [|y ys].
  - simpl. lia.
  - rewrite items_text_cons. rewrite !string_length_app.
    change (items_weight (x :: y :: ys))
      with (S (weight x + items_weight (y :: ys))).
    simpl String.length at 2. lia.
Qed.

Lemma quoted_length (k : string) : 2 <= String.length (quoted k).
Proof. unfold quoted. simpl. rewrite string_length_app. simpl. lia. Qed.

Lemma members_weight_bound (kvs : list (string * json)) :
  Forall (fun kv => weight (snd kv) <= 2 * String.length (json_dumps (snd kv)))
         kvs ->
  members_weight kvs <= 2 * String.length (members_text kvs) + 2.
Proof.
  induction 1 as [|[k x] kvs Hx Hkvs IH]; [simpl; lia|].
  simpl in Hx. destruct kvs as [|kv kvs].
  - cbn [members_text]. rewrite !string_length_app. simpl. lia.
  - rewrite members_text_cons. rewrite !string_length_app.
    change (members_weight ((k, x) :: kv :: kvs))
      with (S (weight x + members_weight (kv :: kvs))).
    simpl String.length at 2 4. lia.
Qed.

Lemma weight_bound (v : json) : weight v <= 2 * String.length (json_dumps v).
Proof.
  induction v as [| b | n | s | xs IH | kvs IH] using json_induction.
  - simpl. lia.
  - destruct b; simpl; lia.
  - pose proof (dumps_length (JInt n)). simpl weight. lia.
  - pose proof (dumps_length (JStr s)). simpl weight. lia.
  - rewrite weight_array, dumps_array.
    pose proof (items_weight_bound xs IH).
    rewrite !string_length_app. simpl String.length. lia.
  - rewrite weight_object, dumps_object.
    pose proof (members_weight_bound kvs IH).
    rewrite !string_length_app. simpl String.length. lia.
Qed.

(** [json.loads(json.dumps(v))] is [v], for a value whose dictionaries
    have each key once. *)
Lemma loads_dumps (v : json) :
  unique_keys v = true -> json_loads (json_dumps v) = Ret v.
Proof.
  intros Hu. unfold json_loads.
  pose proof (opens_dumps v EmptyString) as Ho.
  rewrite string_app_empty in Ho. rewrite (skip_ws_opens _ Ho).
  pose proof (dumps_reads_back v Hu EmptyString
                (2 * String.length (json_dumps v) + 2)) as H.
  rewrite string_app_empty in H. rewrite H; [reflexivity| |reflexivity].
  pose proof (weight_bound v). lia.
Qed.

Lemma nel_needs_high c1 c2 :
  is_nel c1 c2 = true -> (code c1 <? 128)%N = false /\ (code c2 <? 128)%N = false.
Proof.
  unfold is_nel. intros H. apply andb_true_iff in H as [H1 H2].
  apply N.eqb_eq in H1, H2. rewrite H1, H2. split; reflexivity.
Qed.

Lemma lsep_needs_high c1 c2 c3 :
  is_lsep c1 c2 c3 = true ->
  (code c1 <? 128)%N = false /\ (code c2 <? 128)%N = false
  /\ (code c3 <? 128)%N = false.
Proof.
  unfold is_lsep. intros H. apply andb_true_iff in H as [H H3].
  apply andb_true_iff in H as [H1 H2].
  apply N.eqb_eq in H1, H2. rewrite H1, H2.
  apply orb_true_iff in H3 as [H3|H3]; apply N.eqb_eq in H3; rewrite H3;
    repeat split; reflexivity.
Qed.

Lemma boundary_inert (c : ascii) (r : string) :
  inert_char c = true -> boundary_at (String c r) = false.
Proof.
  unfold inert_char. intros H.
  apply andb_true_iff in H as [H H3]. apply andb_true_iff in H as [H1 H2].
  apply negb_true_iff in H2, H3. simpl. rewrite H2, H3. simpl.
  destruct r as [|c2 r2]; [reflexivity|].
  destruct (is_nel c c2) eqn:En.
  { apply nel_needs_high in En as [En _]. congruence. }
  destruct r2 as [|c3 r3]; [reflexivity|].
  destruct (is_lsep c c2 c3) eqn:El; [|reflexivity].
  apply lsep_needs_high in El as [El _]. congruence.
Qed.

Lemma has_break_inert (a b : string) :
  inert a = true -> has_break (a ++ b) = has_break b.
Proof.
  induction a as [|c a IH]; simpl; [reflexivity|].
  intros H. apply andb_true_iff in H as [Hc Ha].
  rewrite has_break_cons, (boundary_inert _ _ Hc). simpl. auto.
Qed.

(** An escaped character is written with inert characters, or it is a
    character beyond ASCII written as it is. *)
Lemma escape_char_kind (c : ascii) :
  inert (escape_char c) = true
  \/ (escape_char c = str1 c /\ (code c <? 128)%N = false).
Proof.
  destruct c as [[|] [|] [|] [|] [|] [|] [|] [|]];
    first [left; reflexivity | right; split; reflexivity].
Qed.

Lemma inert_head (a b : string) :
  inert a = true -> a <> EmptyString -> ascii_head (a ++ b) = true.
Proof.
  destruct a as [|c a]; [congruence|]. simpl. intros H _.
  apply andb_true_iff in H as [H _]. unfold inert_char in H.
  apply andb_true_iff in H as [H _]. now apply andb_true_iff in H as [H _].
Qed.

Lemma escape_char_nonempty (c : ascii) : escape_char c <> EmptyString.
Proof.
  destruct c as [[|] [|] [|] [|] [|] [|] [|] [|]]; discriminate.
Qed.

(** The head of an escaped text: an ASCII character, or the character
    beyond ASCII the text itself starts with. *)
Lemma escape_head (s tail : string) :
  ascii_head tail = true ->
  ascii_head (escape s ++ tail) = true
  \/ exists c s', s = String c s'
                  /\ (escape s ++ tail)%string = String c (escape s' ++ tail).
Proof.
  intros Ht. destruct s as [|c s']; [now left|].
  simpl escape. rewrite string_app_assoc.
  destruct (escape_char_kind c) as [Hi|[Hr _]].
  - left. apply inert_head; auto. apply escape_char_nonempty.
  - right. exists c, s'. split; [reflexivity|]. now rewrite Hr.
Qed.

Lemma has_break_escape (s tail : string) :
  has_break s = false -> ascii_head tail = true ->
  has_break (escape s ++ tail) = has_break tail.
Proof.
  intros Hs Ht. induction s as [|c s IH]; [reflexivity|].
  rewrite has_break_cons in Hs. apply orb_false_iff in Hs as [Hb Hs].
  specialize (IH Hs).
  simpl escape. rewrite string_app_assoc.
  destruct (escape_char_kind c) as [Hi|[Hr Hhigh]].
  - now rewrite has_break_inert.
  - rewrite Hr. change (str1 c ++ (escape s ++ tail)) with (String c (escape s ++ tail)).
    rewrite has_break_cons, IH.
    replace (boundary_at (String c (escape s ++ tail))) with false;
      [reflexivity|].
    symmetry.
    simpl in Hb. apply orb_false_iff in Hb as [Hb1 Hb].
    apply orb_false_iff in Hb1 as [Hb1 Hb2].
    simpl. rewrite Hb1, Hb2. simpl.
    destruct (escape_head s tail Ht) as [Ha|(c2 & s2 & -> & ->)].
    + destruct (escape s ++ tail) as [|e1 E1]; [reflexivity|].
      simpl in Ha.
      destruct (is_nel c e1) eqn:En.
      { apply nel_needs_high in En as [_ En]. congruence. }
      destruct E1 as [|e2 E2]; [reflexivity|].
      destruct (is_lsep c e1 e2) eqn:El; [|reflexivity].
      apply lsep_needs_high in El as (_ & El & _). congruence.
    + apply orb_false_iff in Hb as [Hn Hl]. rewrite Hn. simpl.
      destruct (escape_head s2 tail Ht) as [Ha|(c3 & s3 & -> & ->)].
      * destruct (escape s2 ++ tail) as [|e2 E2]; [reflexivity|].
        simpl in Ha.
        destruct (is_lsep c c2 e2) eqn:El; [|reflexivity].
        apply lsep_needs_high in El as (_ & _ & El). congruence.
      * exact Hl.
Qed.

Lemma inert_uint (d : uint) : inert (NilEmpty.string_of_uint d) = true.
Proof. induction d; simpl; auto. Qed.

Lemma inert_decimal (n : Z) : inert (decimal n) = true.
Proof.
  unfold decimal. destruct n as [|p|p]; simpl; [reflexivity| |].
  - unfold NilZero.string_of_uint.
    destruct (Pos.to_uint p) eqn:E; try reflexivity;
      rewrite <- E; apply inert_uint.
  - unfold NilZero.string_of_uint.
    destruct (Pos.to_uint p) eqn:E; try reflexivity;
      rewrite <- E; apply inert_uint.
Qed.

Lemma items_no_break (xs : list json) :
  Forall (fun x => forall tail,
            has_break (json_dumps x ++ tail) = has_break tail) xs ->
  forall tail, has_break (items_text xs ++ tail) = has_break tail.
Proof.
  induction 1 as [|x xs Hx Hxs IH]; intros tail; [reflexivity|].
  destruct xs as [|y ys].
  - apply Hx.
  - rewrite items_text_cons, !string_app_assoc, Hx.
    rewrite (has_break_inert ", ") by reflexivity. apply IH.
Qed.

Lemma has_break_quoted (k tail : string) :
  has_break k = false -> has_break (quoted k ++ tail) = has_break tail.
Proof.
  intros Hk. rewrite quoted_app, has_break_cons.
  rewrite boundary_inert by reflexivity. simpl.
  rewrite has_break_escape by auto.
  rewrite has_break_cons, boundary_inert by reflexivity. reflexivity.
Qed.

Lemma members_no_break (kvs : list (string * json)) :
  Forall (fun kv => has_break (fst kv) = false
                    /\ forall tail,
                        has_break (json_dumps (snd kv) ++ tail)
                        = has_break tail) kvs ->
  forall tail, has_break (members_text kvs ++ tail) = has_break tail.
Proof.
  induction 1 as [|[k x] kvs [Hk Hx] Hkvs IH]; intros tail; [reflexivity|].
  simpl in Hk, Hx. destruct kvs as [|kv kvs].
  - cbn [members_text]. rewrite !string_app_assoc, has_break_quoted by auto.
    rewrite (has_break_inert ": ") by reflexivity. apply Hx.
  - rewrite members_text_cons, !string_app_assoc, has_break_quoted by auto.
    rewrite (has_break_inert ": ") by reflexivity. rewrite Hx.
    rewrite (has_break_inert ", ") by reflexivity. apply IH.
Qed.

(** The text of a value whose strings hold no line boundary holds
    none. *)
Lemma dumps_no_break (v : json) :
  plain_text v = true ->
  forall tail, has_break (json_dumps v ++ tail) = has_break tail.
Proof.
  induction v as [| b | n | s | xs IH | kvs IH] using json_induction;
    intros Hp tail.
  - apply (has_break_inert "null"). reflexivity.
  - destruct b; [apply (has_break_inert "true")|apply (has_break_inert "false")];
      reflexivity.
  - apply has_break_inert, inert_decimal.
  - simpl in Hp. apply negb_true_iff in Hp.
    apply (has_break_quoted s tail Hp).
  - rewrite dumps_array, !string_app_assoc.
    rewrite (has_break_inert "[") by reflexivity.
    rewrite items_no_break.
    + apply (has_break_inert "]"). reflexivity.
    + simpl in Hp. rewrite forallb_forall in Hp.
      rewrite Forall_forall in IH |- *. intros x Hx. apply IH; auto.
  - rewrite dumps_object, !string_app_assoc.
    rewrite (has_break_inert "{") by reflexivity.
    rewrite members_no_break.
    + apply (has_break_inert "}"). reflexivity.
    + simpl in Hp. rewrite forallb_forall in Hp.
      rewrite Forall_forall in IH |- *. intros kv Hkv.
      specialize (Hp kv Hkv). apply andb_true_iff in Hp as [Hk Hv].
      apply negb_true_iff in Hk. split; [exact Hk|]. apply IH; auto.
Qed.

Lemma all_space_object (d : dict) : all_space (json_dumps (JObj d)) = false.
Proof.
  rewrite dumps_object.
  change ("{" ++ members_text d ++ "}") with (String "{" (members_text d ++ "}")).
  destruct (members_text d ++ "}") as [|c2 [|c3 r3]]; reflexivity.
Qed.

(** The line of a receipt whose strings hold no line boundary is read
    back as one line. *)
Lemma lines_of_receipt_line (d : dict) :
  plain_text (JObj d) = true ->
  lines_of (Some (json_dumps (JObj d) ++ str1 LF)%string)
  = [json_dumps (JObj d)].
Proof.
  intros Hp. unfold lines_of, splitlines.
  assert (Hb : has_break (json_dumps (JObj d)) = false).
  { pose proof (dumps_no_break _ Hp EmptyString) as H.
    now rewrite string_app_empty in H. }
  change (str1 LF) with (String LF EmptyString).
  rewrite (splitlines_line _ EmptyString EmptyString Hb).
  change (splitlines_from EmptyString EmptyString) with (@nil string).
  change (EmptyString ++ json_dumps (JObj d))%string
    with (json_dumps (JObj d)).
  cbn [filter]. rewrite all_space_object. reflexivity.
Qed.

End ReadBack.

(** ** C1, continued: the chain when no record holds a line boundary *)

Section ChainLinkage.
Context {lib : Library}.

Lemma keys_set {A} (k : string) (v : A) (d : list (string * A)) :
  map fst (Dict.set k v d)
  = if existsb (String.eqb k) (map fst d) then map fst d
    else (map fst d ++ [k])%list.
Proof.
  induction d as [|[k' v'] d IH]; simpl; [reflexivity|].
  destruct (String.eqb k k') eqn:E; simpl; [reflexivity|].
  rewrite IH. now destruct (existsb (String.eqb k) (map fst d)).
Qed.

Lemma distinct_snoc (l : list string) (k : string) :
  distinct l = true -> existsb (String.eqb k) l = false ->
  distinct (l ++ [k]) = true.
Proof.
  induction l as [|x l IH]; simpl; [reflexivity|].
  intros Hd Hk. apply andb_true_iff in Hd as [Hx Hd].
  apply orb_false_iff in Hk as [Hkx Hk].
  rewrite (IH Hd Hk), andb_true_r.
  apply negb_true_iff in Hx. apply negb_true_iff.
  rewrite existsb_app, Hx. simpl. rewrite orb_false_r.
  now rewrite String.eqb_sym.
Qed.

Lemma distinct_set {A} (k : string) (v : A) (d : list (string * A)) :
  distinct (map fst d) = true -> distinct (map fst (Dict.set k v d)) = true.
Proof.
  intros Hd. rewrite keys_set.
  destruct (existsb (String.eqb k) (map fst d)) eqn:E; [exact Hd|].
  now apply distinct_snoc.
Qed.

Lemma forallb_set {A} (p : string * A -> bool) (k : string) (v : A)
    (d : list (string * A)) :
  forallb p d = true -> p (k, v) = true -> forallb p (Dict.set k v d) = true.
Proof.
  intros Hd Hv. induction d as [|[k' v'] d IH]; simpl.
  - now rewrite Hv.
  - simpl in Hd. apply andb_true_iff in Hd as [H1 H2].
    destruct (String.eqb k k') eqn:E; simpl.
    + apply String.eqb_eq in E. subst k'. now rewrite Hv, H2.
    + now rewrite H1, IH.
Qed.

Lemma lower_hex_inert (s : string) : all_lower_hex s = true -> inert s = true.
Proof.
  induction s as [|c s IH]; simpl; [reflexivity|].
  intros H. apply andb_true_iff in H as [Hc Hs]. rewrite (IH Hs), andb_true_r.
  unfold is_lower_hex in Hc. unfold inert_char, Text.is_break1, Text.is_cr.
  apply orb_true_iff in Hc as [Hc|Hc]; apply andb_true_iff in Hc as [H1 H2];
    apply N.leb_le in H1, H2;
    repeat (apply andb_true_iff; split);
    try (apply N.ltb_lt; lia);
    apply negb_true_iff; repeat (apply orb_false_iff; split);
    apply N.eqb_neq; lia.
Qed.

(** A content address holds no line boundary. *)
Lemma cid_no_break (data : string) : has_break (sha256_cid data) = false.
Proof.
  unfold sha256_cid.
  rewrite (has_break_inert "sha256:") by reflexivity.
  destruct (hexdigest_form data) as [_ Hh].
  pose proof (has_break_inert _ EmptyString (lower_hex_inert _ Hh)) as H.
  now rewrite string_app_empty in H.
Qed.

(** The receipt of a well-formed record is well formed, and holds no
    line boundary when the record and the predecessor hash hold none. *)
Lemma receipt_well_formed (prev : json) (r : dict) :
  unique_keys prev = true -> well_formed r = true ->
  well_formed (receipt_of prev r) = true.
Proof.
  unfold well_formed, receipt_of. cbn [unique_keys]. intros Hp Hr.
  apply andb_true_iff in Hr as [Hd Hv].
  apply andb_true_iff. split.
  - now do 2 apply distinct_set.
  - apply forallb_set; [|reflexivity]. now apply forallb_set.
Qed.

Lemma receipt_one_line (prev : json) (r : dict) :
  plain_text prev = true -> one_line r = true ->
  one_line (receipt_of prev r) = true.
Proof.
  unfold one_line, receipt_of. cbn [plain_text]. intros Hp Hr.
  apply forallb_set.
  - apply forallb_set; [exact Hr|].
    apply andb_true_iff. split; [reflexivity|exact Hp].
  - apply andb_true_iff. split; [reflexivity|].
    cbn [snd plain_text]. unfold receipt_hash_of.
    now rewrite cid_no_break.
Qed.

Lemma receipt_keeps_ts (prev : json) (r : dict) :
  Dict.get_or_none "ts" (receipt_of prev r) = Dict.get_or_none "ts" r.
Proof.
  unfold Dict.get_or_none, receipt_of.
  now rewrite !get_set_other by discriminate.
Qed.

(** What pruning makes of the last line. *)
Lemma prune_last (self : ReceiptStore.t) (now : Z) (L : list string)
    (p : dict) :
  well_formed p = true ->
  kept_at self now p = true ->
  ReceiptStore._prune_by_age self now (L ++ [Encoder.json_dumps (JObj p)])
  = (ReceiptStore._prune_by_age self now L
     ++ [Encoder.json_dumps (JObj p)])%list.
Proof.
  intros Hw Hk. unfold ReceiptStore._prune_by_age, kept_at in *.
  destruct (ReceiptStore.max_age_seconds self <=? 0)%Z; [reflexivity|].
  simpl in Hk. rewrite filter_app. f_equal. cbn [filter].
  unfold ReceiptStore.keeps. rewrite (loads_dumps _ Hw). simpl.
  simpl in Hk. now rewrite Hk.
Qed.

Lemma last_receipt_hash_of_line (M : list string) (p : dict) :
  well_formed p = true ->
  ReceiptStore.last_receipt_hash (M ++ [Encoder.json_dumps (JObj p)])
  = Ret (Dict.get_or_none "receipt_hash" p).
Proof.
  intros Hw. unfold ReceiptStore.last_receipt_hash.
  destruct (M ++ [Encoder.json_dumps (JObj p)])%list eqn:E.
  - destruct M; discriminate.
  - rewrite <- E, last_last, (loads_dumps _ Hw). reflexivity.
Qed.


Lemma chained_prev (f : ReceiptStore.file) (prev : json)
    (previous : option dict) :
  chained f prev previous ->
  unique_keys prev = true /\ plain_text prev = true.
Proof.
  destruct previous as [r0|]; simpl.
  - intros (L & p0 & _ & -> & _). split; [reflexivity|].
    cbn [plain_text]. unfold receipt_hash_of. now rewrite cid_no_break.
  - intros [_ ->]. split; reflexivity.
Qed.

(** One call on a log that is chained: it returns the receipt linked to
    the predecessor, and leaves the log chained. *)
Lemma add_on_chained (self : ReceiptStore.t) (now : Z) (r : dict)
    (f : ReceiptStore.file) (prev : json) (previous : option dict) :
  chained f prev previous ->
  well_formed r = true -> one_line r = true ->
  match previous with
  | Some r0 => kept_at self now r0 = true
  | None => True
  end ->
  exists f',
    ReceiptStore.add self now r f = (Ret (receipt_of prev r), f')
    /\ chained f' (JStr (receipt_hash_of prev r)) (Some r).
Proof.
  intros Hc Hw Ho Hk.
  destruct (chained_prev _ _ _ Hc) as [Hup Hpp].
  assert (Hadd : exists f',
             ReceiptStore.add self now r f = (Ret (receipt_of prev r), f')).
  { rewrite add_run. cbv zeta.
    destruct previous as [r0|]; simpl in Hc.
    - destruct Hc as (L & p0 & HL & -> & Hw0 & Hp0).
      rewrite HL, prune_last, last_receipt_hash_of_line.
      + unfold Dict.get_or_none. rewrite receipt_of_hash.
        eexists; reflexivity.
      + now apply receipt_well_formed.
      + now apply receipt_well_formed.
      + unfold kept_at in *. now rewrite receipt_keeps_ts.
    - destruct Hc as [HL ->]. rewrite HL.
      replace (ReceiptStore._prune_by_age self now []) with (@nil string)
        by (unfold ReceiptStore._prune_by_age;
            now destruct (ReceiptStore.max_age_seconds self <=? 0)%Z).
      eexists; reflexivity. }
  destruct Hadd as [f' Hadd]. exists f'. split; [exact Hadd|].
  destruct (lines_after_add _ _ _ _ _ _ Hadd) as [_ Hlines].
  rewrite lines_of_receipt_line in Hlines
    by (now apply receipt_one_line).
  simpl. eexists _, prev. split; [exact Hlines|]. auto.
Qed.

Lemma add_each_cons (self : ReceiptStore.t) (now : Z) (r : dict)
    (rest : list (Z * dict)) (f : ReceiptStore.file) :
  add_each self ((now, r) :: rest) f
  = match ReceiptStore.add self now r f with
    | (Ret x, f') =>
        match add_each self rest f' with
        | (Ret xs, f'') => (Ret (x :: xs), f'')
        | (Raise e, f'') => (Raise e, f'')
        end
    | (Raise e, f') => (Raise e, f')
    end.
Proof.
  cbn [add_each]. unfold IO.bind, IO.ret.
  destruct (ReceiptStore.add self now r f) as [[x|e] f']; [|reflexivity].
  destruct (add_each self rest f') as [[xs|e] f'']; reflexivity.
Qed.

Lemma add_each_on_chained (self : ReceiptStore.t) (calls : list (Z * dict)) :
  forall (f : ReceiptStore.file) (prev : json) (previous : option dict),
    chained f prev previous ->
    Forall (fun c => well_formed (snd c) = true /\ one_line (snd c) = true)
           calls ->
    kept_in_turn self previous calls ->
    exists receipts,
      fst (add_each self calls f) = Ret receipts
      /\ length receipts = length calls
      /\ linked prev receipts.
Proof.
  induction calls as [|[now r] rest IH]; intros f prev previous Hc Hall Hk.
  - exists []. repeat split.
  - inversion Hall as [|? ? [Hw Ho] Hrest]; subst. simpl in Hw, Ho.
    destruct Hk as [Hk Hkrest].
    destruct (add_on_chained self now r f prev previous Hc Hw Ho Hk)
      as (f' & Hadd & Hc').
    destruct (IH f' _ _ Hc' Hrest Hkrest) as (xs & Hxs & Hlen & Hlink).
    exists (receipt_of prev r :: xs).
    rewrite add_each_cons, Hadd.
    destruct (add_each self rest f') as [[ys|e] f'']; simpl in Hxs;
      [|discriminate].
    inversion Hxs; subst ys. simpl. repeat split.
    + now rewrite Hlen.
    + apply receipt_of_prev.
    + exists (receipt_hash_of prev r). split; [apply receipt_of_hash|].
      exact Hlink.
Qed.

(** X5. Chain linkage.  Starting from a log without lines (no file, or an
    empty one), let [add] be called any number of times with records
    that are well formed and hold no line boundary in their strings,
    each cutoff being a [datetime] and each call keeping the receipt of
    the call before it when it prunes.  Whenever the calls have all
    returned, there is one receipt for each call, the first receipt has
    no predecessor, and every other receipt carries the [receipt_hash]
    of the receipt returned just before it. *)
Theorem receipts_are_linked :
  forall (self : ReceiptStore.t) (calls : list (Z * dict))
         (f : ReceiptStore.file) (receipts : list dict),
    lines_of f = [] ->
    Forall (fun c => well_formed (snd c) = true /\ one_line (snd c) = true)
           calls ->
    Forall (fun c => ReceiptStore.cutoff_exists self (fst c) = true) calls ->
    kept_in_turn self None calls ->
    fst (add_each self calls f) = Ret receipts ->
    length receipts = length calls
    /\ linked JNull receipts.
Proof.
  intros self calls f receipts Hf Hall _ Hk Hret.
  destruct (add_each_on_chained self calls f JNull None) as (xs & Hxs & H);
    auto.
  - split; auto.
  - rewrite Hret in Hxs. inversion Hxs; subst xs. exact H.
Qed.

End ChainLinkage.

(** The scenario of three records appended in the order of hops 2, 0
    and 1: the three receipts are linked in the order of the calls. *)
Lemma receipts_are_linked_example :
  length ChainSample.receipts = 3
  /\ linked JNull ChainSample.receipts.
Proof.
  apply (receipts_are_linked (lib := Reference.library)
           Sample.store ChainSample.calls None ChainSample.receipts).
  - reflexivity.
  - repeat constructor.
  - repeat constructor.
  - repeat split.
  - vm_compute. reflexivity.
Defined.

(* ================================================================== *)
(** * Further properties of the stores *)
(* ================================================================== *)

(** ** The log file, written and read back *)

Section LogFile.
Import Text.

(** One line without boundary that is not blank, closed by a line feed,
    is read back as that line. *)
Lemma lines_of_one_line (x : string) :
  has_break x = false -> all_space x = false ->
  lines_of (Some (x ++ str1 LF)%string) = [x].
Proof.
  intros Hb Hs. unfold lines_of, splitlines, str1.
  rewrite (splitlines_line x EmptyString EmptyString Hb).
  simpl. now rewrite Hs.
Qed.

(** What [_write_lines] leaves is read back as the lines written, when
    no line holds a boundary or is blank. *)
Lemma lines_of_written (lines : list string) :
  Forall (fun l => has_break l = false) lines ->
  Forall (fun l => all_space l = false) lines ->
  lines_of (file_of lines) = lines.
Proof.
  intros Hb Hs.
  destruct lines as [|l0 ls0] eqn:E; [reflexivity|].
  rewrite <- E in *.
  destruct (exists_last (l := lines)) as (ls & x & Hx);
    [rewrite E; discriminate|].
  rewrite Hx in *.
  apply Forall_app in Hb as [Hb Hbx]. apply Forall_app in Hs as [Hs Hsx].
  inversion Hbx; subst. inversion Hsx; subst.
  rewrite (lines_of_file_of ls x Hb Hs).
  now rewrite lines_of_one_line.
Qed.

(** X1. Round trip of the log file.  When no line holds a line boundary
    of [str.splitlines] and no line is blank, what [_write_lines] writes
    is read back by [_read_lines] as the same lines, in the same order;
    this holds for the empty list too, which leaves an empty file. *)
Theorem written_lines_are_read_back :
  forall (lines : list string) (f : ReceiptStore.file),
    Forall (fun l => has_break l = false) lines ->
    Forall (fun l => all_space l = false) lines ->
    fst ((ReceiptStore._write_lines lines ;;; ReceiptStore._read_lines) f)
    = Ret lines.
Proof.
  intros lines f Hb Hs. unfold IO.bind.
  rewrite write_lines_run. cbv beta iota. rewrite read_lines_run.
  cbn [fst]. now rewrite lines_of_written.
Qed.

(** X2. Whatever the file holds, no line [_read_lines] returns is blank
    or holds a line boundary; so writing these lines back with
    [_write_lines], as [add] does, and reading again gives the same
    lines: rewriting the log never changes what it reads as. *)
Theorem rewriting_the_log_keeps_its_lines :
  forall (f : ReceiptStore.file),
    Forall (fun l => has_break l = false /\ all_space l = false)
           (lines_of f)
    /\ fst ((lines <- ReceiptStore._read_lines ;;
             ReceiptStore._write_lines lines ;;;
             ReceiptStore._read_lines) f)
       = fst (ReceiptStore._read_lines f).
Proof.
  intros f. split.
  - apply Forall_forall. intros x Hx. split.
    + pose proof (lines_of_clean f) as H. rewrite Forall_forall in H. auto.
    + pose proof (lines_of_not_blank f) as H. rewrite Forall_forall in H.
      auto.
  - unfold IO.bind. rewrite read_lines_run. cbv beta iota.
    rewrite write_lines_run. cbv beta iota. rewrite !read_lines_run.
    cbn [fst]. f_equal. apply lines_of_written.
    + apply lines_of_clean.
    + apply lines_of_not_blank.
Qed.

End LogFile.

Lemma written_lines_are_read_back_witness :
  fst ((ReceiptStore._write_lines
          [PruneSample.old_line; "not json"] ;;;
        ReceiptStore._read_lines) None)
  = Ret [PruneSample.old_line; "not json"].
Proof.
  apply written_lines_are_read_back.
  - repeat constructor.
  - repeat constructor.
Defined.

(** ** Pruning by age *)

Section Pruning.
Context {lib : Library}.

Lemma filter_filter_weaker {A} (p q : A -> bool) (l : list A) :
  (forall x, q x = true -> p x = true) ->
  filter q (filter p l) = filter q l.
Proof.
  intros H. induction l as [|x l IH]; simpl; [reflexivity|].
  destruct (p x) eqn:Ep; simpl.
  - now rewrite IH.
  - destruct (q x) eqn:Eq; [|exact IH].
    apply H in Eq. congruence.
Qed.

(** A line kept at a later cutoff is kept at an earlier one. *)
Lemma keeps_earlier (c c' : Z) (ln : string) :
  (c <= c')%Z ->
  ReceiptStore.keeps (Aware c') ln = true ->
  ReceiptStore.keeps (Aware c) ln = true.
Proof.
  intros Hc. unfold ReceiptStore.keeps.
  destruct (Decoder.json_loads ln) as [obj|e]; simpl; [|auto].
  destruct (as_dict obj) as [d|e]; simpl; [|auto].
  destruct (ReceiptStore.parse_ts (Dict.get_or_none "ts" d)) as [[us|us]|e];
    simpl; auto.
  intros H. apply Z.leb_le in H. apply Z.leb_le. lia.
Qed.

(** X3. Pruning composes.  Pruning the lines at one reading of the
    clock and pruning the result at a later reading leaves what pruning
    once at the later reading leaves: what successive calls of [add]
    discard, one call at the time of the last would discard too, and
    nothing else. *)
Theorem pruning_twice_is_pruning_at_the_later_time :
  forall (self : ReceiptStore.t) (now now' : Z) (lines : list string),
    (now <= now')%Z ->
    ReceiptStore._prune_by_age self now'
      (ReceiptStore._prune_by_age self now lines)
    = ReceiptStore._prune_by_age self now' lines.
Proof.
  intros self now now' lines Hle. unfold ReceiptStore._prune_by_age.
  destruct (ReceiptStore.max_age_seconds self <=? 0)%Z; [reflexivity|].
  apply filter_filter_weaker. intros ln. unfold minus_seconds.
  apply keeps_earlier. lia.
Qed.


End Pruning.

Lemma pruning_twice_is_pruning_at_the_later_time_witness :
  (PruneSample.now - 10 <= PruneSample.now)%Z
  /\ ReceiptStore._prune_by_age (lib := Reference.library)
       PruneSample.store PruneSample.now
       (ReceiptStore._prune_by_age (lib := Reference.library)
          PruneSample.store (PruneSample.now - 10)
          (lines_of PruneSample.log))
     = [].
Proof.
  split; [vm_compute; discriminate|].
  rewrite (pruning_twice_is_pruning_at_the_later_time
             (lib := Reference.library)
             PruneSample.store (PruneSample.now - 10) PruneSample.now
             (lines_of PruneSample.log)).
  - vm_compute. reflexivity.
  - vm_compute. discriminate.
Defined.


(** ** What [add] returns and what it leaves in the store *)

Section AddEffect.
Context {lib : Library}.

(** The receipt verifies, and holds the record. *)
Lemma receipt_of_verifies (prev : json) (r : dict) :
  Dict.get "receipt_hash" (receipt_of prev r)
  = Some (JStr (sha256_cid
                  (canonical_json
                     (JObj (Dict.without "receipt_hash"
                              (receipt_of prev r)))))).
Proof.
  rewrite receipt_of_hash. unfold receipt_of, receipt_hash_of.
  now rewrite without_set.
Qed.

Lemma receipt_of_other (prev : json) (r : dict) (k : string) :
  k <> "receipt_hash" -> k <> "prev_receipt_hash" ->
  Dict.get k (receipt_of prev r) = Dict.get k r.
Proof.
  intros H1 H2. unfold receipt_of. now rewrite !get_set_other.
Qed.

(** X6. A receipt can be verified from the receipt alone.  Whichever
    store returned it, the receipt carries under ["receipt_hash"] the
    content address of the canonical encoding of the receipt itself
    without that field; it carries a ["prev_receipt_hash"], also when the
    record had none; and every other field of the record is in the
    receipt with the value the caller gave, and no other field is. *)
Theorem returned_receipt_verifies_by_itself :
  forall (fs : ReceiptStore.t) (now : Z) (f f' : ReceiptStore.file)
         (rs : FirestoreReceiptStore.t) (net : FirestoreReceiptStore.answers)
         (docs docs' : FirestoreReceiptStore.documents) (r r2 : dict),
    ReceiptStore.add fs now r f = (Ret r2, f')
    \/ FirestoreReceiptStore.add rs net r docs = (Ret r2, docs') ->
    Dict.get "receipt_hash" r2
    = Some (JStr (sha256_cid
                    (canonical_json (JObj (Dict.without "receipt_hash" r2)))))
    /\ Dict.mem "prev_receipt_hash" r2 = true
    /\ forall k : string,
         k <> "receipt_hash" -> k <> "prev_receipt_hash" ->
         Dict.get k r2 = Dict.get k r.
Proof.
  intros fs now f f' rs net docs docs' r r2 H.
  assert (Hr : exists prev, r2 = receipt_of prev r).
  { destruct H as [H|H].
    - now apply file_add_returns_receipt in H.
    - now apply remote_add_returns_receipt in H. }
  destruct Hr as [prev ->]. split; [apply receipt_of_verifies|]. split.
  - unfold Dict.mem. now rewrite receipt_of_prev.
  - intros k. apply receipt_of_other.
Qed.

(** The records of one receipt line. *)
Lemma records_under_receipt_line (k : string) (d : dict) :
  well_formed d = true ->
  records_under k [Encoder.json_dumps (JObj d)]
  = if is_under k d then [d] else [].
Proof.
  intros Hw. unfold records_under. simpl.
  rewrite (loads_dumps _ Hw). now rewrite List.app_nil_r.
Qed.

Lemma is_under_key (k k' : string) (d : dict) :
  Dict.get "trace_id" d = Some (JStr k) ->
  is_under k' d = String.eqb k k'.
Proof. intros H. unfold is_under. now rewrite H. Qed.

(** The log and the records under the key of the receipt, after
    [add]. *)
Lemma records_after_add (self : ReceiptStore.t) (now : Z) (r r2 : dict)
    (f f' : ReceiptStore.file) (k : string) :
  ReceiptStore.add self now r f = (Ret r2, f') ->
  well_formed r2 = true -> one_line r2 = true ->
  Dict.get "trace_id" r2 = Some (JStr k) ->
  let survivors := ReceiptStore._prune_by_age self now (lines_of f) in
  lines_of f' = (survivors ++ [Encoder.json_dumps (JObj r2)])%list
  /\ records_under k (lines_of f')
     = (records_under k survivors ++ [r2])%list.
Proof.
  intros Hadd Hw Ho Hk survivors.
  destruct (lines_after_add _ _ _ _ _ _ Hadd) as [_ Hlines].
  rewrite (lines_of_receipt_line r2 Ho) in Hlines. fold survivors in Hlines.
  split; [exact Hlines|].
  rewrite Hlines, records_under_app, records_under_receipt_line by auto.
  now rewrite (is_under_key k k r2 Hk), String.eqb_refl.
Qed.

(** A [chain] that returns holds the last record under its key. *)
Lemma chain_holds_last_record (self : ReceiptStore.t) (k : string)
    (f : ReceiptStore.file) (before : list dict) (r2 : dict)
    (out : list dict) :
  records_under k (lines_of f) = (before ++ [r2])%list ->
  fst (ReceiptStore.chain self k f) = Ret out -> In r2 out.
Proof.
  intros Hown Hout. rewrite chain_run, matching_selected in Hout.
  simpl in Hout. apply sort_permutation in Hout.
  apply (Permutation_in _ Hout). rewrite Hown.
  apply in_or_app. right. now left.
Qed.


(** X8. The remote [add] when the service fails.  A failed insert
    raises [RuntimeError] and leaves the collection as it was.  A failed
    query for the latest receipt does not fail the call: the receipt is
    stored and returned with a null predecessor, as the first of a
    chain, whatever the collection holds.  In every other case the
    collection grows by exactly the receipt returned. *)
Theorem remote_add_when_the_service_fails :
  forall (rs : FirestoreReceiptStore.t) (r : dict)
         (docs : FirestoreReceiptStore.documents) (q : bool),
    FirestoreReceiptStore.add rs (FirestoreReceiptStore.Answers q true) r docs
    = (Raise RuntimeError, docs)
    /\ FirestoreReceiptStore.add rs
         (FirestoreReceiptStore.Answers true false) r docs
       = (Ret (receipt_of JNull r), (docs ++ [receipt_of JNull r])%list)
    /\ exists prev : json,
         FirestoreReceiptStore.add rs
           (FirestoreReceiptStore.Answers false false) r docs
         = (Ret (receipt_of prev r), (docs ++ [receipt_of prev r])%list).
Proof.
  intros rs r docs q. rewrite !remote_add_run. simpl.
  repeat split. eexists. reflexivity.
Qed.

(** X9. Read your writes on the remote store.  After an [add] that
    returned a receipt under the key [k], a [chain(k)] whose query is
    answered and whose sort returns holds that receipt; and [chain]
    leaves the collection as it is. *)
Theorem remote_chain_holds_the_added_receipt :
  forall (rs : FirestoreReceiptStore.t)
         (net net' : FirestoreReceiptStore.answers)
         (docs docs' : FirestoreReceiptStore.documents)
         (r r2 : dict) (k : string) (out : list dict),
    FirestoreReceiptStore.add rs net r docs = (Ret r2, docs') ->
    Dict.get "trace_id" r2 = Some (JStr k) ->
    FirestoreReceiptStore.query_fails net' = false ->
    fst (FirestoreReceiptStore.chain rs net' k docs') = Ret out ->
    In r2 out
    /\ snd (FirestoreReceiptStore.chain rs net' k docs') = docs'.
Proof.
  intros rs net net' docs docs' r r2 k out Hadd Hk Hq Hout.
  rewrite remote_add_run in Hadd. cbv zeta in Hadd.
  destruct (FirestoreReceiptStore.write_fails net); [discriminate|].
  inversion Hadd; subst r2 docs'; clear Hadd.
  unfold FirestoreReceiptStore.chain, IO.bind, IO.get, IO.lift in *.
  rewrite Hq in *. split; [|reflexivity].
  simpl in Hout. apply sort_permutation in Hout.
  apply (Permutation_in _ Hout).
  rewrite where_trace_id_selected, filter_app. apply in_or_app. right.
  simpl. rewrite (is_under_key k k _ Hk), String.eqb_refl. now left.
Qed.

End AddEffect.

Lemma returned_receipt_verifies_by_itself_witness :
  Dict.get "receipt_hash" (receipt_of JNull Sample.hop0)
  = Some (JStr (sha256_cid
                  (canonical_json
                     (JObj (Dict.without "receipt_hash"
                              (receipt_of JNull Sample.hop0)))))).
Proof.
  refine (proj1 (returned_receipt_verifies_by_itself
                   (lib := Reference.library)
                   Sample.store 0 None
                   (file_of [Encoder.json_dumps
                               (JObj (receipt_of JNull Sample.hop0))])
                   Sample.remote Sample.online [] []
                   Sample.hop0 (receipt_of JNull Sample.hop0) _)).
  left. vm_compute. reflexivity.
Defined.


Lemma remote_chain_holds_the_added_receipt_witness :
  In (receipt_of JNull Sample.hop0) [receipt_of JNull Sample.hop0]
  /\ snd (FirestoreReceiptStore.chain Sample.remote Sample.online "trace-x"
            [receipt_of JNull Sample.hop0])
     = [receipt_of JNull Sample.hop0].
Proof.
  apply (remote_chain_holds_the_added_receipt
           (lib := Reference.library)
           Sample.remote Sample.online Sample.online []
           [receipt_of JNull Sample.hop0] Sample.hop0
           (receipt_of JNull Sample.hop0) "trace-x"
           [receipt_of JNull Sample.hop0]).
  - vm_compute. reflexivity.
  - vm_compute. reflexivity.
  - reflexivity.
  - vm_compute. reflexivity.
Defined.

(** ** C4: what the next [chain] returns after an [add] *)



(** ** The decorator: how much it holds *)

Section DictMore.
Context {A : Type}.
Implicit Types (d : list (string * A)) (k : string).

Lemma keys_without k d :
  map fst (Dict.without k d)
  = filter (fun x => negb (String.eqb x k)) (map fst d).
Proof.
  unfold Dict.without. induction d as [|[k' v] d IH]; simpl; [reflexivity|].
  destruct (String.eqb k' k); simpl; now rewrite IH.
Qed.

Lemma existsb_filter_false (p : string -> bool) (x : string)
    (l : list string) :
  existsb (String.eqb x) l = false ->
  existsb (String.eqb x) (filter p l) = false.
Proof.
  induction l as [|y l IH]; simpl; [reflexivity|].
  intros H. apply orb_false_iff in H as [H1 H2].
  destruct (p y); simpl; rewrite ?H1; auto.
Qed.

Lemma distinct_filter (p : string -> bool) (l : list string) :
  distinct l = true -> distinct (filter p l) = true.
Proof.
  induction l as [|x l IH]; simpl; [reflexivity|].
  intros H. apply andb_true_iff in H as [H1 H2].
  destruct (p x); simpl; [|auto].
  rewrite (IH H2), andb_true_r.
  apply negb_true_iff in H1. apply negb_true_iff.
  now apply existsb_filter_false.
Qed.

Lemma without_absent k d :
  existsb (String.eqb k) (map fst d) = false -> Dict.without k d = d.
Proof.
  unfold Dict.without. induction d as [|[k' v] d IH]; simpl; [reflexivity|].
  intros H. apply orb_false_iff in H as [H1 H2].
  rewrite String.eqb_sym, H1. simpl. now rewrite IH.
Qed.

Lemma get_without k k' d (v : A) :
  Dict.get k' (Dict.without k d) = Some v ->
  k' <> k /\ Dict.get k' d = Some v.
Proof.
  unfold Dict.without. induction d as [|[k0 v0] d IH]; simpl;
    [discriminate|].
  destruct (String.eqb k0 k) eqn:E0; simpl.
  - intros H. destruct (IH H) as [Hne Hg]. split; [exact Hne|].
    apply String.eqb_eq in E0. subst k0.
    apply String.eqb_neq in Hne. now rewrite Hne.
  - destruct (String.eqb k' k0) eqn:E1.
    + intros H. split; [|exact H].
      apply String.eqb_eq in E1. subst k0. now apply String.eqb_neq.
    + exact IH.
Qed.

Lemma get_set k k' d (v w : A) :
  Dict.get k' (Dict.set k v d) = Some w ->
  (k' = k /\ w = v) \/ (k' <> k /\ Dict.get k' d = Some w).
Proof.
  destruct (String.eqb k' k) eqn:E.
  - apply String.eqb_eq in E. subst k'. rewrite get_set_same.
    intros H. inversion H. now left.
  - apply String.eqb_neq in E. rewrite get_set_other by exact E.
    intros H. now right.
Qed.

Lemma get_in_keys k d (v : A) :
  Dict.get k d = Some v -> In k (map fst d).
Proof.
  induction d as [|[k' v'] d IH]; simpl; [discriminate|].
  destruct (String.eqb k k') eqn:E.
  - apply String.eqb_eq in E. subst k'. now left.
  - intros H. right. now apply IH.
Qed.

End DictMore.

Section CacheSize.
Context {Self : Type}.
Implicit Types (self : CachingReceiptStore.t Self).

Lemma receipts_in_nonneg chains : (0 <= receipts_in chains)%Z.
Proof. induction chains as [|[k c] l IH]; simpl; lia. Qed.

Lemma receipts_in_without (k : string) chains :
  distinct (map fst chains) = true ->
  receipts_in (Dict.without k chains)
  = (receipts_in chains
     - match Dict.get k chains with
       | Some c => Z.of_nat (length c)
       | None => 0
       end)%Z.
Proof.
  induction chains as [|[k' c] l IH]; simpl; [reflexivity|].
  intros H. apply andb_true_iff in H as [H1 H2].
  apply negb_true_iff in H1.
  destruct (String.eqb k k') eqn:E.
  - apply String.eqb_eq in E. subst k'.
    unfold Dict.without. simpl. rewrite String.eqb_refl. simpl.
    fold (Dict.without k l). rewrite (without_absent k l H1). lia.
  - unfold Dict.without. simpl. rewrite String.eqb_sym, E. simpl.
    fold (Dict.without k l). rewrite (IH H2).
    destruct (Dict.get k l); lia.
Qed.

Lemma receipts_in_without_le (k : string) chains :
  (receipts_in (Dict.without k chains) <= receipts_in chains)%Z.
Proof.
  unfold Dict.without. induction chains as [|[k' c] l IH]; simpl; [lia|].
  destruct (String.eqb k' k); simpl; lia.
Qed.

Lemma in_step_without self (k : string) (total : Z) :
  in_step self ->
  in_step (CachingReceiptStore.with_cache self
             (Dict.without k (CachingReceiptStore._chains self))
             (Dict.without k (CachingReceiptStore._last_refresh self))
             total).
Proof.
  intros [Hk Hd]. split; simpl.
  - rewrite !keys_without. now rewrite Hk.
  - rewrite keys_without. now apply distinct_filter.
Qed.

Lemma in_step_set self (k : string) (c : list dict) (ts total : Z) :
  in_step self ->
  in_step (CachingReceiptStore.with_cache self
             (Dict.set k c (CachingReceiptStore._chains self))
             (Dict.set k ts (CachingReceiptStore._last_refresh self))
             total).
Proof.
  intros [Hk Hd]. split; simpl.
  - rewrite !keys_set. now rewrite Hk.
  - now apply distinct_set.
Qed.

(** The loop of [_enforce_size], started with the exact count over
    entries that are all among [ordered]: it ends with the exact count,
    within the bound, and has only removed entries. *)
Lemma evict_exact (ordered : list (string * Z)) :
  forall self,
    in_step self ->
    CachingReceiptStore._total_cached self = cached_receipts self ->
    (0 <= CachingReceiptStore.max_size self)%Z ->
    (forall k, In k (map fst (CachingReceiptStore._chains self)) ->
               In k (map fst ordered)) ->
    let self' := CachingReceiptStore.evict self ordered in
    in_step self'
    /\ CachingReceiptStore._total_cached self' = cached_receipts self'
    /\ (CachingReceiptStore._total_cached self'
        <= CachingReceiptStore.max_size self'
        \/ ordered = [])%Z
    /\ CachingReceiptStore.max_size self' = CachingReceiptStore.max_size self
    /\ CachingReceiptStore.ttl_seconds self'
       = CachingReceiptStore.ttl_seconds self
    /\ CachingReceiptStore.store self' = CachingReceiptStore.store self
    /\ (forall k c,
          Dict.get k (CachingReceiptStore._chains self') = Some c ->
          Dict.get k (CachingReceiptStore._chains self) = Some c)
    /\ (forall k ts,
          Dict.get k (CachingReceiptStore._last_refresh self') = Some ts ->
          Dict.get k (CachingReceiptStore._last_refresh self) = Some ts).
Proof.
  induction ordered as [|[t ts0] rest IH]; intros self Hs Ht Hm Hin.
  - simpl. repeat split; auto; apply Hs.
  - cbn [CachingReceiptStore.evict].
    set (self1 :=
           CachingReceiptStore.with_cache self
             (Dict.without t (CachingReceiptStore._chains self))
             (Dict.without t (CachingReceiptStore._last_refresh self))
             (CachingReceiptStore._total_cached self
              - match Dict.get t (CachingReceiptStore._chains self) with
                | Some c => Z.of_nat (length c)
                | None => 0
                end)%Z).
    assert (Hs1 : in_step self1) by now apply in_step_without.
    assert (Ht1 : CachingReceiptStore._total_cached self1
                  = cached_receipts self1).
    { unfold cached_receipts. simpl. fold (receipts_in (Dict.without t
        (CachingReceiptStore._chains self))).
      rewrite receipts_in_without by apply Hs. rewrite Ht. reflexivity. }
    assert (Hsub : forall k c,
               Dict.get k (CachingReceiptStore._chains self1) = Some c ->
               Dict.get k (CachingReceiptStore._chains self) = Some c).
    { intros k c H. simpl in H. now apply get_without in H. }
    assert (Hsub' : forall k ts,
               Dict.get k (CachingReceiptStore._last_refresh self1) = Some ts ->
               Dict.get k (CachingReceiptStore._last_refresh self) = Some ts).
    { intros k ts H. simpl in H. now apply get_without in H. }
    destruct (CachingReceiptStore._total_cached self1
              <=? CachingReceiptStore.max_size self1)%Z eqn:E.
    + apply Z.leb_le in E. repeat split; auto; try apply Hs1.
    + destruct (IH self1 Hs1 Ht1) as (I1 & I2 & I3 & I4 & I5 & I6 & I7 & I8).
      * exact Hm.
      * intros k Hk. simpl in Hk. rewrite keys_without in Hk.
        apply filter_In in Hk as [Hk Hne].
        apply Hin in Hk. simpl in Hk. destruct Hk as [<-|Hk]; [|exact Hk].
        rewrite String.eqb_refl in Hne. discriminate.
      * split; [exact I1|]. split; [exact I2|].
        split; [|split; [now rewrite I4|]; split; [now rewrite I5|];
                 split; [now rewrite I6|];
                 split; [intros k c H; now apply Hsub, I7
                        |intros k ts H; now apply Hsub', I8]].
        left. destruct I3 as [I3|I3]; [exact I3|].
        subst rest. simpl in *.
        (* nothing is left to evict: the dictionaries are empty *)
        assert (Hnil : CachingReceiptStore._chains self1 = []).
        { destruct (CachingReceiptStore._chains self1) as [|[k c] l] eqn:Ec;
            [reflexivity|].
          exfalso.
          assert (Hk : In k (map fst (CachingReceiptStore._chains self1)))
            by (rewrite Ec; now left).
          simpl in Hk. rewrite keys_without in Hk.
          apply filter_In in Hk as [Hk Hne].
          apply Hin in Hk. simpl in Hk. destruct Hk as [<-|[]].
          rewrite String.eqb_refl in Hne. discriminate. }
        rewrite Ht1. unfold cached_receipts. rewrite Hnil. simpl. exact Hm.
Qed.

Lemma insert_refresh_in (x y : string * Z) (l : list (string * Z)) :
  In y l -> In y (CachingReceiptStore.insert_refresh x l).
Proof.
  induction l as [|z l IH]; simpl; [contradiction|].
  intros [<-|H]; destruct (snd z <? snd x)%Z; simpl; auto.
Qed.

Lemma insert_refresh_head (x : string * Z) (l : list (string * Z)) :
  In x (CachingReceiptStore.insert_refresh x l).
Proof.
  induction l as [|z l IH]; simpl; [now left|].
  destruct (snd z <? snd x)%Z; simpl; auto.
Qed.

Lemma oldest_first_in (y : string * Z) (l : list (string * Z)) :
  In y l -> In y (CachingReceiptStore.oldest_first l).
Proof.
  unfold CachingReceiptStore.oldest_first.
  induction l as [|x l IH]; simpl; [contradiction|].
  intros [<-|H]; [apply insert_refresh_head|].
  now apply insert_refresh_in, IH.
Qed.

(** [_enforce_size] on the exact count. *)
Lemma enforce_size_exact self :
  in_step self ->
  CachingReceiptStore._total_cached self = cached_receipts self ->
  let self' := CachingReceiptStore._enforce_size self in
  in_step self'
  /\ CachingReceiptStore._total_cached self' = cached_receipts self'
  /\ (0 < CachingReceiptStore.max_size self' ->
      CachingReceiptStore._total_cached self'
      <= CachingReceiptStore.max_size self')%Z
  /\ CachingReceiptStore.max_size self' = CachingReceiptStore.max_size self
  /\ CachingReceiptStore.ttl_seconds self'
     = CachingReceiptStore.ttl_seconds self
  /\ CachingReceiptStore.store self' = CachingReceiptStore.store self
  /\ (forall k c,
        Dict.get k (CachingReceiptStore._chains self') = Some c ->
        Dict.get k (CachingReceiptStore._chains self) = Some c)
  /\ (forall k ts,
        Dict.get k (CachingReceiptStore._last_refresh self') = Some ts ->
        Dict.get k (CachingReceiptStore._last_refresh self) = Some ts).
Proof.
  intros Hs Ht. unfold CachingReceiptStore._enforce_size.
  destruct (CachingReceiptStore.max_size self <=? 0)%Z eqn:E0.
  { apply Z.leb_le in E0. cbv zeta. repeat split; auto; try apply Hs. lia. }
  apply Z.leb_gt in E0.
  destruct (CachingReceiptStore._total_cached self
            <=? CachingReceiptStore.max_size self)%Z eqn:E1.
  { apply Z.leb_le in E1. cbv zeta. repeat split; auto; apply Hs. }
  apply Z.leb_gt in E1.
  destruct (evict_exact
              (CachingReceiptStore.oldest_first
                 (CachingReceiptStore._last_refresh self))
              self Hs Ht)
    as (I1 & I2 & I3 & I4 & I5 & I6 & I7 & I8).
  - lia.
  - intros k Hk. destruct Hs as [Hkeys _]. rewrite Hkeys in Hk.
    apply in_map_iff in Hk as (x & <- & Hx).
    apply in_map. now apply oldest_first_in.
  - cbv zeta. repeat split; auto; try apply I1.
    intros _. destruct I3 as [I3|I3]; [exact I3|].
    (* nothing to evict means nothing cached *)
    exfalso.
    destruct (CachingReceiptStore._last_refresh self) as [|x l] eqn:El.
    + destruct Hs as [Hkeys _]. rewrite El in Hkeys. simpl in Hkeys.
      apply map_eq_nil in Hkeys.
      unfold cached_receipts in Ht. rewrite Hkeys in Ht. simpl in Ht. lia.
    + assert (Hx : In x (CachingReceiptStore.oldest_first (x :: l)))
        by (apply oldest_first_in; now left).
      rewrite I3 in Hx. contradiction.
Qed.

End CacheSize.

Section CacheBound.
Context {lib : Library}.
Context {Self Env World : Type} {S : Store Self Env World}.
Implicit Types (self : CachingReceiptStore.t Self).

Lemma add_bounded self (w : World) (env : Env) (r : dict) :
  bounded self ->
  let self' := fst (snd (CachingReceiptStore.add env r (self, w))) in
  bounded self'
  /\ CachingReceiptStore.max_size self' = CachingReceiptStore.max_size self.
Proof.
  intros (Hs & Hc & Hm). unfold CachingReceiptStore.add.
  destruct (store_add _ env r w) as [[added|e] w']; simpl;
    [|repeat split; auto; apply Hs].
  destruct (Py.truthy (Dict.get_or_none "trace_id" added));
    [|simpl; repeat split; auto; apply Hs].
  destruct (Dict.get_or_none "trace_id" added) as [| | |k| |]; simpl;
    try (repeat split; auto; apply Hs).
  split; [|reflexivity]. split; [now apply in_step_without|].
  simpl. split; [|exact Hm].
  unfold cached_receipts in *. simpl.
  pose proof (receipts_in_without_le k (CachingReceiptStore._chains self)). lia.
Qed.

Lemma chain_bounded self (w : World) (env : Env) (now now' : Z)
    (k : string) :
  bounded self ->
  let self' :=
    fst (snd (CachingReceiptStore.chain env now now' k (self, w))) in
  bounded self'
  /\ CachingReceiptStore.max_size self' = CachingReceiptStore.max_size self.
Proof.
  intros (Hs & Hc & Hm). unfold CachingReceiptStore.chain.
  destruct (Dict.mem k (CachingReceiptStore._chains self)
            && negb (CachingReceiptStore._expired self now k));
    [simpl; repeat split; auto; apply Hs|].
  destruct (store_chain _ env k w) as [[fresh|e] w']; simpl;
    [|repeat split; auto; apply Hs].
  match goal with
  | |- context [CachingReceiptStore._enforce_size ?s] => set (self1 := s)
  end.
  destruct (enforce_size_exact self1) as (I1 & I2 & I3 & I4 & _).
  - now apply in_step_set.
  - reflexivity.
  - split; [|exact I4]. split; [exact I1|]. split; [lia|exact I3].
Qed.

Lemma serve_bounded (c : request Env) (st : CachingReceiptStore.t Self * World) :
  bounded (fst st) ->
  bounded (fst (serve st c))
  /\ CachingReceiptStore.max_size (fst (serve st c))
     = CachingReceiptStore.max_size (fst st).
Proof.
  destruct st as [self w]. intros H. destruct c as [env r|env now now' k].
  - apply (add_bounded self w env r H).
  - apply (chain_bounded self w env now now' k H).
Qed.

Lemma serve_all_bounded (calls : list (request Env)) :
  forall st : CachingReceiptStore.t Self * World,
    bounded (fst st) ->
    bounded (fst (serve_all calls st))
    /\ CachingReceiptStore.max_size (fst (serve_all calls st))
       = CachingReceiptStore.max_size (fst st).
Proof.
  induction calls as [|c calls IH]; intros st H; [now split|].
  simpl. destruct (serve_bounded c st H) as [H1 H2].
  destruct (IH _ H1) as [H3 H4]. split; [exact H3|]. now rewrite H4.
Qed.

(** X10. The decorator never holds more than its bound.  Start from a
    new decorator over any store and let [add] and [chain] be called in
    any order, with any arguments, whatever each call returns or raises.
    At every point the chains the decorator holds count at most
    [max_size] receipts when [max_size] is positive (a bound of zero or
    less is no bound), and the count [cache_stats] reports under
    ["receipts"] is never below the number of receipts held (it is above
    it after an [add] has evicted a chain, until the next read of the
    store). *)
Theorem cache_holds_at_most_max_size :
  forall (ttl_env size_env : option string) (inner : Self) (w : World)
         (calls : list (request Env)),
    let start := CachingReceiptStore.init ttl_env size_env inner in
    let self := fst (serve_all calls (start, w)) in
    ((0 < CachingReceiptStore.max_size start)%Z ->
     (cached_receipts self <= CachingReceiptStore.max_size start)%Z)
    /\ (exists n : Z,
          Dict.get "receipts" (cache_stats self) = Some (JInt n)
          /\ (cached_receipts self <= n)%Z)
    /\ Dict.get "max_size" (cache_stats self)
       = Some (JInt (CachingReceiptStore.max_size start)).
Proof.
  intros ttl_env size_env inner w calls. cbv zeta.
  set (start := CachingReceiptStore.init ttl_env size_env inner).
  destruct (serve_all_bounded calls (start, w)) as [(Hs & Hc & Hm) Hmax].
  { unfold bounded, in_step, cached_receipts. simpl. repeat split; lia. }
  set (self := fst (serve_all calls (start, w))) in *.
  cbn [fst] in Hmax. split; [|split].
  - intros H. rewrite Hmax in Hm. specialize (Hm H). lia.
  - exists (CachingReceiptStore._total_cached self). split; [reflexivity|].
    exact Hc.
  - rewrite <- Hmax. reflexivity.
Qed.

End CacheBound.

(** ** The decorator: when it answers from the cache *)

Section CacheHit.
Context {Self Env World : Type} {S : Store Self Env World}.
Implicit Types (self : CachingReceiptStore.t Self).

Lemma receipts_in_set_fresh (k : string) (c : list dict)
    (chains : list (string * list dict)) :
  Dict.mem k chains = false ->
  receipts_in (Dict.set k c chains)
  = (receipts_in chains + Z.of_nat (length c))%Z.
Proof.
  unfold Dict.mem. induction chains as [|[k' c'] l IH]; simpl; [lia|].
  destruct (String.eqb k k'); [discriminate|].
  intros H. simpl. rewrite (IH H). lia.
Qed.

Lemma mem_set_same {A} (k : string) (v : A) (d : list (string * A)) :
  Dict.mem k (Dict.set k v d) = true.
Proof. unfold Dict.mem. now rewrite get_set_same. Qed.

(** X11. The time to live decides between the cache and the store.
    Let a first [chain(k)] miss the cache and return [out], the chains
    then held staying within [max_size] (or [max_size] being no bound).
    A second [chain(k)] within the time to live returns [out] again and
    leaves the decorator and the world as they are, whatever the world
    has become in between: the wrapped store is not read.  A time to live
    of zero or less never runs out.  Once a positive time to live has run
    out, the second call returns what the wrapped store returns. *)
Theorem time_to_live_decides_between_cache_and_store :
  forall (self self' : CachingReceiptStore.t Self) (w w' w'' : World)
         (env env' : Env) (now1 now1' now2 now2' : Z) (k : string)
         (out : list dict),
    Dict.mem k (CachingReceiptStore._chains self) = false ->
    CachingReceiptStore.chain env now1 now1' k (self, w)
    = (Ret out, (self', w')) ->
    (CachingReceiptStore.max_size self <= 0
     \/ cached_receipts self + Z.of_nat (length out)
        <= CachingReceiptStore.max_size self)%Z ->
    let ttl := CachingReceiptStore.ttl_seconds self in
    ((ttl <= 0 \/ now2 - now1' <= ttl * 1000000)%Z ->
     CachingReceiptStore.chain env' now2 now2' k (self', w'')
     = (Ret out, (self', w'')))
    /\ ((0 < ttl /\ ttl * 1000000 < now2 - now1')%Z ->
        fst (CachingReceiptStore.chain env' now2 now2' k (self', w''))
        = fst (store_chain (CachingReceiptStore.store self) env' k w'')).
Proof.
  intros self self' w w' w'' env env' now1 now1' now2 now2' k out
         Hmiss Hfirst Hroom ttl.
  unfold CachingReceiptStore.chain in Hfirst. rewrite Hmiss in Hfirst.
  cbn [andb] in Hfirst.
  destruct (store_chain _ env k w) as [[fresh|e] w0]; [|discriminate].
  assert (Hkeep :
            CachingReceiptStore._enforce_size
              (CachingReceiptStore.with_cache self
                 (Dict.set k fresh (CachingReceiptStore._chains self))
                 (Dict.set k now1' (CachingReceiptStore._last_refresh self))
                 (receipts_in
                    (Dict.set k fresh (CachingReceiptStore._chains self))))
            = CachingReceiptStore.with_cache self
                (Dict.set k fresh (CachingReceiptStore._chains self))
                (Dict.set k now1' (CachingReceiptStore._last_refresh self))
                (receipts_in
                   (Dict.set k fresh (CachingReceiptStore._chains self)))).
  { inversion Hfirst; subst fresh.
    unfold CachingReceiptStore._enforce_size. simpl.
    rewrite (receipts_in_set_fresh _ _ _ Hmiss).
    destruct (CachingReceiptStore.max_size self <=? 0)%Z eqn:E0;
      [reflexivity|].
    apply Z.leb_gt in E0.
    destruct Hroom as [Hroom|Hroom]; [lia|].
    unfold cached_receipts in Hroom.
    apply Z.leb_le in Hroom. now rewrite Hroom. }
  unfold receipts_in in Hkeep. rewrite Hkeep in Hfirst.
  inversion Hfirst; subst out self' w0; clear Hfirst Hkeep.
  unfold CachingReceiptStore.chain, CachingReceiptStore._expired.
  cbn [CachingReceiptStore._chains CachingReceiptStore._last_refresh
       CachingReceiptStore.with_cache CachingReceiptStore.ttl_seconds
       CachingReceiptStore.store].
  rewrite mem_set_same, !get_set_same. fold ttl. split.
  - intros Hlive.
    assert (E : (if (ttl <=? 0)%Z then false
                 else (ttl * 1000000 <? now2 - now1')%Z) = false).
    { destruct (ttl <=? 0)%Z eqn:E0; [reflexivity|].
      apply Z.leb_gt in E0. apply Z.ltb_ge. lia. }
    rewrite E. reflexivity.
  - intros [Hpos Hlate].
    assert (E : (if (ttl <=? 0)%Z then false
                 else (ttl * 1000000 <? now2 - now1')%Z) = true).
    { destruct (ttl <=? 0)%Z eqn:E0; [apply Z.leb_le in E0; lia|].
      apply Z.ltb_lt. lia. }
    rewrite E. cbn [negb andb].
    destruct (store_chain _ env' k w'') as [[again|e] w1]; reflexivity.
Qed.

End CacheHit.

Lemma time_to_live_decides_between_cache_and_store_witness :
  let st1 := snd (CacheSample.add 0 Sample.hop0 CacheSample.start) in
  let st2 := snd (CacheSample.chain 1 "trace-x" st1) in
  CacheSample.chain 2 "trace-x" (fst st2, None)
  = (Ret [receipt_of JNull Sample.hop0], (fst st2, None)).
Proof.
  cbv zeta.
  refine (proj1 (time_to_live_decides_between_cache_and_store
                   (S := file_store (lib := Reference.library))
                   (fst (snd (CacheSample.add 0 Sample.hop0 CacheSample.start)))
                   _
                   (snd (snd (CacheSample.add 0 Sample.hop0 CacheSample.start)))
                   (snd (snd (CacheSample.chain 1 "trace-x"
                           (snd (CacheSample.add 0 Sample.hop0
                                   CacheSample.start)))))
                   None
                   1%Z 2%Z 1%Z 1%Z 2%Z 2%Z "trace-x"
                   [receipt_of JNull Sample.hop0] _ _ _) _).
  - vm_compute. reflexivity.
  - vm_compute. reflexivity.
  - right. vm_compute. discriminate.
  - right. vm_compute. discriminate.
Defined.

(** ** The decorator over the file-backed store: what it answers *)

Section CacheCoherence.
Context {lib : Library}.
Variable store0 : ReceiptStore.t.
Hypothesis pruning_off : (ReceiptStore.max_age_seconds store0 <= 0)%Z.

Implicit Types (c : CachingReceiptStore.t ReceiptStore.t)
               (f : ReceiptStore.file).

(** A value found in a dictionary with each key once and no line
    boundary is such a value. *)
Lemma get_unique_keys (k : string) (d : dict) :
  well_formed d = true -> unique_keys (Dict.get_or_none k d) = true.
Proof.
  unfold well_formed, Dict.get_or_none. cbn [unique_keys]. intros H.
  apply andb_true_iff in H as [_ H].
  induction d as [|[k' v] d IH]; simpl; [reflexivity|].
  simpl in H. apply andb_true_iff in H as [Hv Hd].
  destruct (String.eqb k k'); auto.
Qed.

Lemma get_plain_text (k : string) (d : dict) :
  one_line d = true -> plain_text (Dict.get_or_none k d) = true.
Proof.
  unfold one_line, Dict.get_or_none. cbn [plain_text]. intros H.
  induction d as [|[k' v] d IH]; simpl; [reflexivity|].
  simpl in H. apply andb_true_iff in H as [Hv Hd].
  apply andb_true_iff in Hv as [_ Hv].
  destruct (String.eqb k k'); auto.
Qed.

Lemma prune_off (now : Z) (lines : list string) :
  ReceiptStore._prune_by_age store0 now lines = lines.
Proof.
  unfold ReceiptStore._prune_by_age.
  apply Z.leb_le in pruning_off. now rewrite pruning_off.
Qed.

(** On a log of receipt lines, [add] of an admissible record returns,
    and leaves the log with one more receipt line. *)
Lemma add_on_well_kept (now : Z) (r : dict) f :
  well_kept f ->
  well_formed r = true -> one_line r = true ->
  exists (prev : json) (f' : ReceiptStore.file),
    ReceiptStore.add store0 now r f = (Ret (receipt_of prev r), f')
    /\ lines_of f'
       = (lines_of f ++ [Encoder.json_dumps (JObj (receipt_of prev r))])%list
    /\ well_formed (receipt_of prev r) = true
    /\ one_line (receipt_of prev r) = true
    /\ well_kept f'.
Proof.
  intros Hk Hw Ho.
  assert (Hprev : exists prev,
             ReceiptStore.last_receipt_hash (lines_of f) = Ret prev
             /\ unique_keys prev = true /\ plain_text prev = true).
  { unfold well_kept in Hk.
    destruct (lines_of f) as [|l0 ls0] eqn:El.
    - exists JNull. repeat split.
    - rewrite <- El in *.
      destruct (exists_last (l := lines_of f)) as (L & ln & HL);
        [rewrite El; discriminate|].
      rewrite HL in *. apply Forall_app in Hk as [_ Hk].
      inversion Hk as [|? ? (d & -> & Hwd & Hod) _]; subst.
      exists (Dict.get_or_none "receipt_hash" d).
      split; [now apply last_receipt_hash_of_line|].
      split; [now apply get_unique_keys|now apply get_plain_text]. }
  destruct Hprev as (prev & Hlast & Hup & Hpp).
  pose proof (receipt_well_formed prev r Hup Hw) as Hw2.
  pose proof (receipt_one_line prev r Hpp Ho) as Ho2.
  exists prev.
  exists (file_of (lines_of f
                   ++ [Encoder.json_dumps (JObj (receipt_of prev r))])).
  assert (Hadd : ReceiptStore.add store0 now r f
                 = (Ret (receipt_of prev r),
                    file_of (lines_of f
                             ++ [Encoder.json_dumps
                                   (JObj (receipt_of prev r))])))
    by (rewrite add_run; cbv zeta; rewrite prune_off, Hlast; reflexivity).
  destruct (lines_after_add _ _ _ _ _ _ Hadd) as [_ Hlines].
  rewrite prune_off, (lines_of_receipt_line _ Ho2) in Hlines.
  split; [exact Hadd|]. split; [exact Hlines|].
  split; [exact Hw2|]. split; [exact Ho2|].
  unfold well_kept. rewrite Hlines. apply Forall_app. split; [exact Hk|].
  constructor; [|constructor]. now exists (receipt_of prev r).
Qed.

Lemma chain_keeps_file (k : string) f :
  snd (ReceiptStore.chain store0 k f) = f.
Proof. now rewrite chain_run. Qed.

Lemma serve_add_coherent (now : Z) (r : dict) c f :
  coherent store0 (c, f) ->
  well_formed r = true -> one_line r = true -> keyed r = true ->
  coherent store0 (serve (S := file_store) (c, f) (Add now r)).
Proof.
  intros (Hst & Hk & Hc) Hw Ho Hkey. simpl in Hst, Hk, Hc.
  destruct (add_on_well_kept now r f Hk Hw Ho)
    as (prev & f' & Hadd & Hlines & Hw2 & Ho2 & Hk').
  unfold keyed in Hkey.
  destruct (Dict.get "trace_id" r) as [[| | |k| |]|] eqn:Ht;
    try discriminate.
  assert (Ht2 : Dict.get "trace_id" (receipt_of prev r) = Some (JStr k))
    by (rewrite receipt_of_other; [exact Ht|discriminate|discriminate]).
  unfold serve, CachingReceiptStore.add. cbn [store_add file_store].
  rewrite Hst, Hadd. unfold Dict.get_or_none. rewrite Ht2.
  cbn [Py.truthy]. rewrite Hkey. cbn [CachingReceiptStore.invalidate snd].
  split; [exact Hst|]. split; [exact Hk'|].
  cbn [fst snd CachingReceiptStore._chains CachingReceiptStore.with_cache].
  intros k' out Hget. apply get_without in Hget as [Hne Hget].
  rewrite <- (Hc k' out Hget). rewrite !chain_run, !matching_selected.
  cbn [fst]. f_equal.
  rewrite Hlines, records_under_app, records_under_receipt_line by exact Hw2.
  rewrite (is_under_key k k' _ Ht2).
  assert (E : String.eqb k k' = false) by (apply String.eqb_neq; congruence).
  rewrite E. apply List.app_nil_r.
Qed.

Lemma serve_chain_coherent (env now now' : Z) (k : string) c f :
  coherent store0 (c, f) ->
  coherent store0 (serve (S := file_store) (c, f) (Chain env now now' k)).
Proof.
  intros (Hst & Hk & Hc). simpl in Hst, Hk, Hc.
  unfold serve, CachingReceiptStore.chain.
  destruct (Dict.mem k (CachingReceiptStore._chains c)
            && negb (CachingReceiptStore._expired c now k));
    [now repeat split|].
  cbn [store_chain file_store]. rewrite Hst.
  pose proof (chain_keeps_file k f) as Hf.
  destruct (ReceiptStore.chain store0 k f) as [[fresh|e] f'] eqn:Hch;
    simpl in Hf; subst f'; [|now repeat split].
  cbn [snd].
  match goal with
  | |- context [CachingReceiptStore._enforce_size ?s] => set (c1 := s)
  end.
  destruct (CachingReceiptStore._enforce_size c1) as [s1 t1 m1 ch1 lr1 tc1]
    eqn:Eenf.
  assert (Hsame : CachingReceiptStore.store
                    (CachingReceiptStore._enforce_size c1) = store0
                  /\ forall k' out,
                       Dict.get k' (CachingReceiptStore._chains
                                      (CachingReceiptStore._enforce_size c1))
                       = Some out ->
                       Dict.get k' (CachingReceiptStore._chains c1)
                       = Some out).
  { unfold CachingReceiptStore._enforce_size.
    destruct (CachingReceiptStore.max_size c1 <=? 0)%Z; [now split|].
    destruct (CachingReceiptStore._total_cached c1
              <=? CachingReceiptStore.max_size c1)%Z; [now split|].
    generalize (CachingReceiptStore.oldest_first
                  (CachingReceiptStore._last_refresh c1)).
    assert (Hc1 : CachingReceiptStore.store c1 = store0) by exact Hst.
    clearbody c1. clear Eenf. revert c1 Hc1.
    intros c1 Hc1 l. revert c1 Hc1.
    induction l as [|[t ts] l IH]; intros c1 Hc1; [now split|].
    cbn [CachingReceiptStore.evict].
    match goal with
    | |- context [if ?b then ?x else _] => destruct b; set (c2 := x) in *
    end.
    - split; [exact Hc1|]. intros k' out H. simpl in H.
      now apply get_without in H.
    - destruct (IH c2 Hc1) as [I1 I2]. split; [exact I1|].
      intros k' out H. apply I2 in H. simpl in H.
      now apply get_without in H. }
  rewrite Eenf in Hsame. simpl in Hsame. destruct Hsame as [Hs1 Hsub].
  split; [exact Hs1|]. split; [exact Hk|].
  cbn [fst snd CachingReceiptStore._chains].
  intros k' out Hget. apply Hsub in Hget. simpl in Hget.
  apply get_set in Hget as [[-> ->]|[_ Hget]].
  - now rewrite Hch.
  - now apply Hc.
Qed.

Lemma serve_coherent (q : request Z)
    (st : CachingReceiptStore.t ReceiptStore.t * ReceiptStore.file) :
  coherent store0 st -> admissible q = true ->
  coherent store0 (serve (S := file_store) st q).
Proof.
  destruct st as [c f]. intros H Ha. destruct q as [now r|env now now' k].
  - simpl in Ha. apply andb_true_iff in Ha as [Ha Hkey].
    apply andb_true_iff in Ha as [Hw Ho].
    now apply serve_add_coherent.
  - now apply serve_chain_coherent.
Qed.

Lemma serve_all_coherent (calls : list (request Z)) :
  forall st : CachingReceiptStore.t ReceiptStore.t * ReceiptStore.file,
    coherent store0 st -> forallb admissible calls = true ->
    coherent store0 (serve_all (S := file_store) calls st).
Proof.
  induction calls as [|q calls IH]; intros st H Ha; [exact H|].
  simpl in Ha. apply andb_true_iff in Ha as [Hq Ha].
  simpl. apply IH; [|exact Ha]. now apply serve_coherent.
Qed.

Lemma coherent_chain (env now now' : Z) (k : string)
    (st : CachingReceiptStore.t ReceiptStore.t * ReceiptStore.file) :
  coherent store0 st ->
  fst (CachingReceiptStore.chain (S := file_store) env now now' k st)
  = fst (ReceiptStore.chain store0 k (snd st)).
Proof.
  destruct st as [c f]. intros (Hst & Hk & Hc). simpl in Hst, Hk, Hc.
  unfold CachingReceiptStore.chain. cbn [snd].
  destruct (Dict.mem k (CachingReceiptStore._chains c)) eqn:Hm.
  - destruct (negb (CachingReceiptStore._expired c now k)); cbn [andb].
    + unfold Dict.mem in Hm.
      destruct (Dict.get k (CachingReceiptStore._chains c)) as [out|] eqn:Hg;
        [|discriminate].
      cbn [fst]. symmetry. now apply Hc.
    + cbn [store_chain file_store]. rewrite Hst.
      destruct (ReceiptStore.chain store0 k f) as [[fresh|e] f'];
        reflexivity.
  - cbn [andb store_chain file_store]. rewrite Hst.
    destruct (ReceiptStore.chain store0 k f) as [[fresh|e] f'];
      reflexivity.
Qed.

End CacheCoherence.

(** X12. The decorator over the file-backed store answers as the store
    would.  Let retention be off, let the log hold receipt lines only (an
    absent or empty log, or one that [add] wrote), and let [add] and
    [chain] be called through a new decorator in any order, each record
    added having each key once, no line boundary in its strings and a
    string that is not empty as ["trace_id"], as the records of the
    request handler have.  Then whatever the time to live and the bound,
    a [chain] through the decorator returns, or raises, what [chain] of
    the wrapped store does on the log as it is: the cache is never
    stale. *)
Theorem cached_chain_is_the_chain_of_the_log :
  forall (lib : Library) (store : ReceiptStore.t)
         (ttl_env size_env : option string) (f0 : ReceiptStore.file)
         (calls : list (request Z)),
    (ReceiptStore.max_age_seconds store <= 0)%Z ->
    well_kept f0 ->
    forallb admissible calls = true ->
    let st :=
      serve_all (S := file_store) calls
        (CachingReceiptStore.init ttl_env size_env store, f0) in
    forall (env now now' : Z) (k : string),
      fst (CachingReceiptStore.chain (S := file_store) env now now' k st)
      = fst (ReceiptStore.chain store k (snd st)).
Proof.
  intros lib store ttl_env size_env f0 calls Hoff Hk Ha st env now now' k.
  apply (coherent_chain store). unfold st.
  apply (serve_all_coherent store Hoff); [|exact Ha].
  split; [reflexivity|]. split; [exact Hk|].
  intros k' out H. discriminate H.
Qed.

Lemma cached_chain_is_the_chain_of_the_log_witness :
  let st :=
    serve_all (S := file_store (lib := Reference.library))
      [Chain 0%Z 0%Z 0%Z "trace-x"; Add 1%Z Sample.hop0;
       Chain 2%Z 2%Z 2%Z "trace-x"; Add 3%Z Sample.hop1]
      (CachingReceiptStore.init (lib := Reference.library) None None
         Sample.store, None) in
  fst (CachingReceiptStore.chain
         (S := file_store (lib := Reference.library)) 4%Z 4%Z 4%Z
         "trace-x" st)
  = fst (ReceiptStore.chain Sample.store "trace-x" (snd st)).
Proof.
  apply (cached_chain_is_the_chain_of_the_log Reference.library
           Sample.store None None None).
  - vm_compute. discriminate.
  - constructor.
  - vm_compute. reflexivity.
Defined.

(** ** Base64 for URLs *)

Section Base64Facts.
Import Text Base64.

(** Induction on a text by groups of three bytes. *)
Lemma string_ind3 (P : string -> Prop) :
  P EmptyString ->
  (forall a, P (String a EmptyString)) ->
  (forall a b, P (String a (String b EmptyString))) ->
  (forall a b c r, P r -> P (String a (String b (String c r)))) ->
  forall s, P s.
Proof.
  intros H0 H1 H2 H3. fix IH 1. intros [|a [|b [|c r]]].
  - exact H0.
  - exact (H1 a).
  - exact (H2 a b).
  - exact (H3 a b c r (IH r)).
Qed.

(** And by groups of four characters. *)
Lemma string_ind4 (P : string -> Prop) :
  P EmptyString ->
  (forall a, P (String a EmptyString)) ->
  (forall a b, P (String a (String b EmptyString))) ->
  (forall a b c, P (String a (String b (String c EmptyString)))) ->
  (forall a b c d r, P r -> P (String a (String b (String c (String d r))))) ->
  forall s, P s.
Proof.
  intros H0 H1 H2 H3 H4. fix IH 1. intros [|a [|b [|c [|d r]]]].
  - exact H0.
  - exact (H1 a).
  - exact (H2 a b).
  - exact (H3 a b c).
  - exact (H4 a b c d r (IH r)).
Qed.

Lemma code_below (c : ascii) : (code c < 256)%N.
Proof. apply N_ascii_bounded. Qed.

(** What the characters of the alphabet are to the decoder. *)
Lemma url_char_facts (n : N) :
  (n < 64)%N ->
  std_value (to_standard_char (url_char n)) = Some n
  /\ (code (url_char n) =? 61)%N = false
  /\ (code (to_standard_char (url_char n)) =? 61)%N = false
  /\ (code (url_char n) <? 128)%N = true
  /\ is_url_char (url_char n) = true.
Proof.
  intros H. rewrite <- (N2Nat.id n).
  assert (Hm : N.to_nat n < 64) by lia.
  generalize dependent (N.to_nat n). clear H. intros m Hm.
  do 64 (destruct m as [|m]; [vm_compute; repeat split; reflexivity|]).
  lia.
Qed.

(** The four values of three bytes, and the bytes back. *)
Lemma sextets (x y z : N) :
  (x < 256)%N -> (y < 256)%N -> (z < 256)%N ->
  (x / 4 < 64 /\ (x mod 4) * 16 + y / 16 < 64
   /\ (y mod 16) * 4 + z / 64 < 64 /\ z mod 64 < 64
   /\ x / 4 * 4 + ((x mod 4) * 16 + y / 16) / 16 = x
   /\ (((x mod 4) * 16 + y / 16) mod 16) * 16
      + ((y mod 16) * 4 + z / 64) / 4 = y
   /\ (((y mod 16) * 4 + z / 64) mod 4) * 64 + z mod 64 = z)%N.
Proof.
  intros Hx Hy Hz.
  pose proof (N.div_mod x 4 ltac:(discriminate)) as Dx.
  pose proof (N.mod_lt x 4 ltac:(discriminate)) as Rx.
  pose proof (N.div_mod y 16 ltac:(discriminate)) as Dy.
  pose proof (N.mod_lt y 16 ltac:(discriminate)) as Ry.
  pose proof (N.div_mod z 64 ltac:(discriminate)) as Dz.
  pose proof (N.mod_lt z 64 ltac:(discriminate)) as Rz.
  generalize dependent (x / 4)%N. generalize dependent (x mod 4)%N.
  generalize dependent (y / 16)%N. generalize dependent (y mod 16)%N.
  generalize dependent (z / 64)%N. generalize dependent (z mod 64)%N.
  intros rz Rz qz Dz ry Ry qy Dy rx Rx qx Dx.
  assert (A1 : ((rx * 16 + qy) / 16 = rx)%N).
  { rewrite N.div_add_l by discriminate.
    rewrite (N.div_small qy 16) by lia. lia. }
  assert (A2 : ((rx * 16 + qy) mod 16 = qy)%N).
  { rewrite N.add_comm, N.Div0.mod_add. apply N.mod_small. lia. }
  assert (A3 : ((ry * 4 + qz) / 4 = ry)%N).
  { rewrite N.div_add_l by discriminate.
    rewrite (N.div_small qz 4) by lia. lia. }
  assert (A4 : ((ry * 4 + qz) mod 4 = qz)%N).
  { rewrite N.add_comm, N.Div0.mod_add. apply N.mod_small. lia. }
  rewrite A1, A2, A3, A4. lia.
Qed.

Lemma rstrip_pad_cons (c : ascii) (r : string) :
  (code c =? 61)%N = false ->
  rstrip_pad (String c r) = String c (rstrip_pad r).
Proof.
  intros H. simpl. rewrite H. now destruct (rstrip_pad r).
Qed.

(** One step of the decoder on a character of the alphabet. *)
Lemma a2b_from_value (q : nat) (lc v : N) (p : nat) (c : ascii)
    (r : string) :
  (code c =? 61)%N = false -> std_value c = Some v ->
  a2b_from q lc p (String c r)
  = match q with
    | 0 => a2b_from 1 v 0 r
    | 1 =>
        let! rest := a2b_from 2 (v mod 16) 0 r in
        Ret (String (ascii_of_N (lc * 4 + v / 16)) rest)
    | 2 =>
        let! rest := a2b_from 3 (v mod 4) 0 r in
        Ret (String (ascii_of_N (lc * 16 + v / 4)) rest)
    | _ =>
        let! rest := a2b_from 0 0 0 r in
        Ret (String (ascii_of_N (lc * 64 + v)) rest)
    end.
Proof. intros Hc Hv. cbn [a2b_from]. now rewrite Hc, Hv. Qed.

Lemma a2b_from_url_char (q : nat) (lc n : N) (p : nat) (r : string) :
  (n < 64)%N ->
  a2b_from q lc p (String (to_standard_char (url_char n)) r)
  = match q with
    | 0 => a2b_from 1 n 0 r
    | 1 =>
        let! rest := a2b_from 2 (n mod 16) 0 r in
        Ret (String (ascii_of_N (lc * 4 + n / 16)) rest)
    | 2 =>
        let! rest := a2b_from 3 (n mod 4) 0 r in
        Ret (String (ascii_of_N (lc * 16 + n / 4)) rest)
    | _ =>
        let! rest := a2b_from 0 0 0 r in
        Ret (String (ascii_of_N (lc * 64 + n)) rest)
    end.
Proof.
  intros H. destruct (url_char_facts n H) as (Hv & _ & Hc & _).
  now apply a2b_from_value.
Qed.

Lemma ascii_of_code (c : ascii) : ascii_of_N (code c) = c.
Proof. apply ascii_N_embedding. Qed.

(** What is encoded is decoded back. *)
Lemma a2b_encoded (data : string) :
  a2b_base64 (to_standard (urlsafe_b64encode data)) = Ret data.
Proof.
  unfold a2b_base64.
  induction data as [|a|a b|a b c r IH] using string_ind3.
  - reflexivity.
  - destruct (sextets (code a) 0 0 (code_below a)) as
      (H1 & H2 & _ & _ & E1 & _); try reflexivity.
    change (0 / 16)%N with 0%N in *. rewrite N.add_0_r in *.
    cbn [urlsafe_b64encode to_standard].
    rewrite !a2b_from_url_char by assumption.
    change (to_standard_char PAD) with PAD.
    cbn [a2b_from]. change (code PAD =? 61)%N with true. cbn.
    now rewrite E1, ascii_of_code.
  - destruct (sextets (code a) (code b) 0 (code_below a) (code_below b))
      as (H1 & H2 & H3 & _ & E1 & E2 & _); try reflexivity.
    change (0 / 64)%N with 0%N in *. rewrite N.add_0_r in *.
    cbn [urlsafe_b64encode to_standard].
    rewrite !a2b_from_url_char by assumption.
    change (to_standard_char PAD) with PAD.
    cbn [a2b_from]. change (code PAD =? 61)%N with true. cbn.
    now rewrite E1, E2, !ascii_of_code.
  - destruct (sextets (code a) (code b) (code c)
                (code_below a) (code_below b) (code_below c))
      as (H1 & H2 & H3 & H4 & E1 & E2 & E3).
    cbn [urlsafe_b64encode to_standard].
    rewrite !a2b_from_url_char by assumption.
    rewrite IH. cbn [obind].
    now rewrite E1, E2, E3, !ascii_of_code.
Qed.

Lemma is_ascii_encoded (data : string) :
  is_ascii (urlsafe_b64encode data) = true.
Proof.
  induction data as [|a|a b|a b c r IH] using string_ind3.
  - reflexivity.
  - destruct (sextets (code a) 0 0 (code_below a)) as
      (H1 & H2 & _); try reflexivity.
    change (0 / 16)%N with 0%N in *. rewrite N.add_0_r in *.
    cbn [urlsafe_b64encode is_ascii].
    destruct (url_char_facts _ H1) as (_ & _ & _ & -> & _).
    destruct (url_char_facts _ H2) as (_ & _ & _ & -> & _).
    reflexivity.
  - destruct (sextets (code a) (code b) 0 (code_below a) (code_below b))
      as (H1 & H2 & H3 & _); try reflexivity.
    change (0 / 64)%N with 0%N in *. rewrite N.add_0_r in *.
    cbn [urlsafe_b64encode is_ascii].
    destruct (url_char_facts _ H1) as (_ & _ & _ & -> & _).
    destruct (url_char_facts _ H2) as (_ & _ & _ & -> & _).
    destruct (url_char_facts _ H3) as (_ & _ & _ & -> & _).
    reflexivity.
  - destruct (sextets (code a) (code b) (code c)
                (code_below a) (code_below b) (code_below c))
      as (H1 & H2 & H3 & H4 & _).
    cbn [urlsafe_b64encode]. unfold is_ascii in *.
    destruct (url_char_facts _ H1) as (_ & _ & _ & -> & _).
    destruct (url_char_facts _ H2) as (_ & _ & _ & -> & _).
    destruct (url_char_facts _ H3) as (_ & _ & _ & -> & _).
    destruct (url_char_facts _ H4) as (_ & _ & _ & -> & _).
    exact IH.
Qed.

Lemma mod4_step (n : nat) : S (S (S (S n))) mod 4 = n mod 4.
Proof.
  change (S (S (S (S n)))) with (4 + n).
  rewrite Nat.add_comm. apply (Nat.Div0.mod_add n 1 4).
Qed.

(** Stripping the padding and putting it back gives the encoded
    text. *)
Lemma padded_back (data : string) :
  (b64u data
   ++ padding ((4 - String.length (b64u data) mod 4) mod 4))%string
  = urlsafe_b64encode data.
Proof.
  unfold b64u.
  induction data as [|a|a b|a b c r IH] using string_ind3.
  - reflexivity.
  - destruct (sextets (code a) 0 0 (code_below a)) as
      (H1 & H2 & _); try reflexivity.
    change (0 / 16)%N with 0%N in *. rewrite N.add_0_r in *.
    cbn [urlsafe_b64encode].
    destruct (url_char_facts _ H1) as (_ & C1 & _).
    destruct (url_char_facts _ H2) as (_ & C2 & _).
    rewrite !rstrip_pad_cons by assumption. reflexivity.
  - destruct (sextets (code a) (code b) 0 (code_below a) (code_below b))
      as (H1 & H2 & H3 & _); try reflexivity.
    change (0 / 64)%N with 0%N in *. rewrite N.add_0_r in *.
    cbn [urlsafe_b64encode].
    destruct (url_char_facts _ H1) as (_ & C1 & _).
    destruct (url_char_facts _ H2) as (_ & C2 & _).
    destruct (url_char_facts _ H3) as (_ & C3 & _).
    rewrite !rstrip_pad_cons by assumption. reflexivity.
  - destruct (sextets (code a) (code b) (code c)
                (code_below a) (code_below b) (code_below c))
      as (H1 & H2 & H3 & H4 & _).
    cbn [urlsafe_b64encode].
    destruct (url_char_facts _ H1) as (_ & C1 & _).
    destruct (url_char_facts _ H2) as (_ & C2 & _).
    destruct (url_char_facts _ H3) as (_ & C3 & _).
    destruct (url_char_facts _ H4) as (_ & C4 & _).
    rewrite !rstrip_pad_cons by assumption.
    cbn [String.length append]. rewrite mod4_step. now rewrite IH.
Qed.

Lemma b64u_decode_b64u (data : string) : b64u_decode (b64u data) = Ret data.
Proof.
  unfold b64u_decode. rewrite padded_back.
  unfold urlsafe_b64decode. rewrite is_ascii_encoded.
  apply a2b_encoded.
Qed.

(** X13. Round trip of [b64u].  For every sequence of bytes, of any
    length, [b64u_decode(b64u(data))] returns [data]: the padding
    [b64u] strips is the padding [b64u_decode] puts back.  So no two
    sequences of bytes are written as the same text. *)
Theorem b64u_decode_inverts_b64u :
  forall data : string,
    b64u_decode (b64u data) = Ret data
    /\ forall data' : string, b64u data' = b64u data -> data' = data.
Proof.
  intros data. split; [apply b64u_decode_b64u|].
  intros data' E.
  pose proof (b64u_decode_b64u data') as H. rewrite E in H.
  rewrite b64u_decode_b64u in H. now inversion H.
Qed.

(** The characters and the length of what [b64u] writes. *)
Lemma b64u_text (data : string) :
  all_url_chars (b64u data) = true
  /\ String.length (b64u data) = (4 * String.length data + 2) / 3.
Proof.
  unfold b64u.
  induction data as [|a|a b|a b c r IH] using string_ind3.
  - split; reflexivity.
  - destruct (sextets (code a) 0 0 (code_below a)) as
      (H1 & H2 & _); try reflexivity.
    change (0 / 16)%N with 0%N in *. rewrite N.add_0_r in *.
    cbn [urlsafe_b64encode].
    destruct (url_char_facts _ H1) as (_ & C1 & _ & _ & U1).
    destruct (url_char_facts _ H2) as (_ & C2 & _ & _ & U2).
    rewrite !rstrip_pad_cons by assumption.
    split; [|reflexivity].
    cbn [rstrip_pad all_url_chars]. change (code PAD =? 61)%N with true.
    cbn [all_url_chars]. now rewrite U1, U2.
  - destruct (sextets (code a) (code b) 0 (code_below a) (code_below b))
      as (H1 & H2 & H3 & _); try reflexivity.
    change (0 / 64)%N with 0%N in *. rewrite N.add_0_r in *.
    cbn [urlsafe_b64encode].
    destruct (url_char_facts _ H1) as (_ & C1 & _ & _ & U1).
    destruct (url_char_facts _ H2) as (_ & C2 & _ & _ & U2).
    destruct (url_char_facts _ H3) as (_ & C3 & _ & _ & U3).
    rewrite !rstrip_pad_cons by assumption.
    split; [|reflexivity].
    cbn [rstrip_pad all_url_chars]. change (code PAD =? 61)%N with true.
    cbn [all_url_chars]. now rewrite U1, U2, U3.
  - destruct IH as [IHu IHl].
    destruct (sextets (code a) (code b) (code c)
                (code_below a) (code_below b) (code_below c))
      as (H1 & H2 & H3 & H4 & _).
    cbn [urlsafe_b64encode].
    destruct (url_char_facts _ H1) as (_ & C1 & _ & _ & U1).
    destruct (url_char_facts _ H2) as (_ & C2 & _ & _ & U2).
    destruct (url_char_facts _ H3) as (_ & C3 & _ & _ & U3).
    destruct (url_char_facts _ H4) as (_ & C4 & _ & _ & U4).
    rewrite !rstrip_pad_cons by assumption.
    cbn [all_url_chars String.length]. rewrite U1, U2, U3, U4, IHu, IHl.
    split; [reflexivity|].
    replace (4 * S (S (S (String.length r))) + 2)
      with ((4 * String.length r + 2) + 4 * 3) by lia.
    rewrite Nat.div_add by discriminate. lia.
Qed.

Lemma url_char_not_pad (c : ascii) : is_url_char c = true -> c <> PAD.
Proof. intros H ->. discriminate H. Qed.

(** X14. What [b64u] writes is safe in a URL.  Every character is a
    letter, a digit, [-] or [_]: no [=], [+] or [/] is written; and
    [n] bytes are written as the integer part of [(4n + 2) / 3]
    characters, so that only the empty sequence is written as the empty
    text. *)
Theorem b64u_writes_url_safe_text :
  forall data : string,
    all_url_chars (b64u data) = true
    /\ String.length (b64u data) = (4 * String.length data + 2) / 3
    /\ (b64u data = EmptyString <-> data = EmptyString).
Proof.
  intros data. destruct (b64u_text data) as [Hu Hl].
  split; [exact Hu|]. split; [exact Hl|]. split.
  - intros E. rewrite E in Hl. destruct data as [|a r]; [reflexivity|].
    cbn [String.length] in Hl.
    replace (4 * S (String.length r) + 2)
      with (0 + (4 * String.length r + 3) + 1 * 3) in Hl by lia.
    rewrite Nat.div_add in Hl by discriminate. simpl in Hl. lia.
  - intros ->. reflexivity.
Qed.

(** A character of the URL-safe alphabet has a value. *)
Lemma url_char_value (c : ascii) :
  is_url_char c = true ->
  exists v : N,
    std_value (to_standard_char c) = Some v
    /\ (code (to_standard_char c) =? 61)%N = false
    /\ (code c <? 128)%N = true.
Proof.
  destruct c as [[|] [|] [|] [|] [|] [|] [|] [|]]; intros H;
    try discriminate H; eexists; vm_compute; repeat split; reflexivity.
Qed.

Lemma is_ascii_app (a b : string) :
  is_ascii (a ++ b) = is_ascii a && is_ascii b.
Proof.
  unfold is_ascii. induction a as [|c a IH]; simpl; [reflexivity|].
  now rewrite IH, andb_assoc.
Qed.

Lemma all_url_chars_ascii (s : string) :
  all_url_chars s = true -> is_ascii s = true.
Proof.
  unfold is_ascii. induction s as [|c s IH]; simpl; [reflexivity|].
  intros H. apply andb_true_iff in H as [Hc Hs].
  destruct (url_char_value c Hc) as (v & _ & _ & ->). now apply IH.
Qed.

Lemma is_ascii_padding (n : nat) : is_ascii (padding n) = true.
Proof. unfold is_ascii. induction n; simpl; auto. Qed.

Lemma to_standard_app (a b : string) :
  to_standard (a ++ b) = (to_standard a ++ to_standard b)%string.
Proof. induction a as [|c a IH]; simpl; [reflexivity|]. now rewrite IH. Qed.

(** The decoder on URL-safe text, by the length of the text. *)
Lemma a2b_url_safe (s : string) :
  all_url_chars s = true ->
  let pad := padding ((4 - String.length s mod 4) mod 4) in
  match String.length s mod 4 with
  | 1 => a2b_from 0 0 0 (to_standard (s ++ pad)) = Raise ValueError
  | _ =>
      exists data : string,
        a2b_from 0 0 0 (to_standard (s ++ pad)) = Ret data
        /\ String.length data = 3 * String.length s / 4
  end.
Proof.
  induction s as [|a|a b|a b c|a b c d r IH] using string_ind4; intros Hu.
  - exists EmptyString. split; reflexivity.
  - simpl in Hu. apply andb_true_iff in Hu as [Ua _].
    destruct (url_char_value a Ua) as (va & Va & Ca & _).
    cbn [String.length Nat.modulo Nat.divmod fst snd Nat.sub padding
         append to_standard].
    rewrite (a2b_from_value _ _ va _ _ _ Ca Va). reflexivity.
  - simpl in Hu. apply andb_true_iff in Hu as [Ua Hu].
    apply andb_true_iff in Hu as [Ub _].
    destruct (url_char_value a Ua) as (va & Va & Ca & _).
    destruct (url_char_value b Ub) as (vb & Vb & Cb & _).
    cbn [String.length Nat.modulo Nat.divmod fst snd Nat.sub padding
         append to_standard].
    rewrite (a2b_from_value _ _ va _ _ _ Ca Va).
    rewrite (a2b_from_value _ _ vb _ _ _ Cb Vb).
    eexists. split; reflexivity.
  - simpl in Hu. apply andb_true_iff in Hu as [Ua Hu].
    apply andb_true_iff in Hu as [Ub Hu].
    apply andb_true_iff in Hu as [Uc _].
    destruct (url_char_value a Ua) as (va & Va & Ca & _).
    destruct (url_char_value b Ub) as (vb & Vb & Cb & _).
    destruct (url_char_value c Uc) as (vc & Vc & Cc & _).
    cbn [String.length Nat.modulo Nat.divmod fst snd Nat.sub padding
         append to_standard].
    rewrite (a2b_from_value _ _ va _ _ _ Ca Va).
    rewrite (a2b_from_value _ _ vb _ _ _ Cb Vb).
    rewrite (a2b_from_value _ _ vc _ _ _ Cc Vc).
    eexists. split; reflexivity.
  - simpl in Hu. apply andb_true_iff in Hu as [Ua Hu].
    apply andb_true_iff in Hu as [Ub Hu].
    apply andb_true_iff in Hu as [Uc Hu].
    apply andb_true_iff in Hu as [Ud Hu].
    destruct (url_char_value a Ua) as (va & Va & Ca & _).
    destruct (url_char_value b Ub) as (vb & Vb & Cb & _).
    destruct (url_char_value c Uc) as (vc & Vc & Cc & _).
    destruct (url_char_value d Ud) as (vd & Vd & Cd & _).
    specialize (IH Hu). cbv zeta in IH |- *.
    cbn [String.length]. rewrite mod4_step.
    cbn [append to_standard].
    rewrite (a2b_from_value _ _ va _ _ _ Ca Va).
    rewrite (a2b_from_value _ _ vb _ _ _ Cb Vb).
    rewrite (a2b_from_value _ _ vc _ _ _ Cc Vc).
    rewrite (a2b_from_value _ _ vd _ _ _ Cd Vd).
    assert (Hlen : 3 * S (S (S (S (String.length r)))) / 4
                   = 3 + 3 * String.length r / 4).
    { replace (3 * S (S (S (S (String.length r)))))
        with (3 * String.length r + 3 * 4) by lia.
      rewrite Nat.div_add by discriminate. lia. }
    destruct (String.length r mod 4) as [|[|n]].
    + destruct IH as (data & -> & Hd). eexists. split; [reflexivity|].
      cbn [String.length]. rewrite Hd, Hlen. reflexivity.
    + rewrite IH. reflexivity.
    + destruct IH as (data & -> & Hd). eexists. split; [reflexivity|].
      cbn [String.length]. rewrite Hd, Hlen. reflexivity.
Qed.

(** [b64u_decode] on URL-safe text, by the length of the text. *)
Lemma b64u_decode_by_length (s : string) :
  all_url_chars s = true ->
  match String.length s mod 4 with
  | 1 => b64u_decode s = Raise ValueError
  | _ =>
      exists data : string,
        b64u_decode s = Ret data
        /\ String.length data = 3 * String.length s / 4
  end.
Proof.
  intros Hu. unfold b64u_decode, urlsafe_b64decode, a2b_base64.
  rewrite is_ascii_app, (all_url_chars_ascii s Hu), is_ascii_padding.
  cbn [andb]. exact (a2b_url_safe s Hu).
Qed.

(** X15. What [b64u_decode] accepts.  On a text of characters of the
    URL-safe alphabet, [b64u_decode] raises exactly when the length of
    the text is one more than a multiple of four; on any other length it
    returns, and what it returns has the integer part of three quarters
    of that length in bytes. *)
Theorem b64u_decode_on_url_safe_text :
  forall s : string,
    all_url_chars s = true ->
    (String.length s mod 4 = 1 -> b64u_decode s = Raise ValueError)
    /\ (String.length s mod 4 <> 1 ->
        exists data : string,
          b64u_decode s = Ret data
          /\ String.length data = 3 * String.length s / 4).
Proof.
  intros s Hu. pose proof (b64u_decode_by_length s Hu) as H.
  split.
  - intros E. rewrite E in H. exact H.
  - intros E. destruct (String.length s mod 4) as [|[|n]];
      [exact H|congruence|exact H].
Qed.

End Base64Facts.

Lemma b64u_decode_on_url_safe_text_witness :
  b64u_decode "QUJD-_8" <> Raise ValueError
  /\ b64u_decode "QUJDR" = Raise ValueError.
Proof.
  destruct (b64u_decode_on_url_safe_text "QUJD-_8" eq_refl) as [_ H1].
  destruct (b64u_decode_on_url_safe_text "QUJDR" eq_refl) as [H2 _].
  split.
  - destruct (H1 ltac:(vm_compute; discriminate)) as (data & -> & _).
    discriminate.
  - apply H2. reflexivity.
Defined.

(** ** The signer *)

(** X16. The key the signer accepts.  The text that [b64u] writes for
    a seed of 32 bytes, as [scripts/gen_keys.py] prints it, is accepted
    by [GatewaySigner], which holds that very seed; and a text of
    URL-safe characters is accepted only if it has 43 characters: one
    that is shorter or longer raises [ValueError]. *)
Theorem signer_accepts_the_seed_b64u_writes :
  forall (seed kid : string),
    String.length seed = 32 ->
    GatewaySigner.init (b64u seed) kid = Ret (GatewaySigner.Make kid seed)
    /\ String.length (b64u seed) = 43
    /\ forall text : string,
         Base64.all_url_chars text = true ->
         String.length text <> 43 ->
         GatewaySigner.init text kid = Raise ValueError.
Proof.
  intros seed kid Hlen. split; [|split].
  - unfold GatewaySigner.init. rewrite b64u_decode_b64u.
    cbn [obind]. now rewrite Hlen.
  - destruct (b64u_text seed) as [_ ->]. now rewrite Hlen.
  - intros text Hu Hl.
    pose proof (b64u_decode_by_length text Hu) as H.
    assert (Hdata : forall data : string,
               b64u_decode text = Ret data
               /\ String.length data = 3 * String.length text / 4 ->
               GatewaySigner.init text kid = Raise ValueError).
    { intros data [E Hd]. unfold GatewaySigner.init. rewrite E.
      cbn [obind].
      destruct (Nat.eqb (String.length data) 32) eqn:E32; [|reflexivity].
      exfalso. apply Nat.eqb_eq in E32. rewrite Hd in E32.
      assert (H' : 32 * 4 <= 3 * String.length text < 33 * 4).
      { pose proof (Nat.div_mod_eq (3 * String.length text) 4) as Hdm.
        pose proof (Nat.mod_upper_bound (3 * String.length text) 4
                      ltac:(discriminate)).
        lia. }
      lia. }
    destruct (String.length text mod 4) as [|[|n]].
    + destruct H as (data & H). exact (Hdata data H).
    + unfold GatewaySigner.init. now rewrite H.
    + destruct H as (data & H). exact (Hdata data H).
Qed.

Lemma signer_accepts_the_seed_b64u_writes_witness :
  GatewaySigner.init (b64u "0123456789abcdef0123456789abcdef") "gw-default"
  = Ret (GatewaySigner.Make "gw-default" "0123456789abcdef0123456789abcdef").
Proof.
  apply (signer_accepts_the_seed_b64u_writes
           "0123456789abcdef0123456789abcdef" "gw-default").
  reflexivity.
Defined.

(** ** The health endpoint *)

(** X17. The health endpoint behind the cache.  [healthz] reads
    [store.path], which the two stores have and the decorator has not:
    it raises [AttributeError] exactly when the store selected is the
    decorator, that is when the caching flag is set and no remote project
    is configured; in every other configuration it returns, with the path
    of the selected store under ["receipts_path"]. *)
Theorem healthz_fails_behind_the_cache :
  forall (lib : Library) (env : environment) (signer : bool)
         (version : string),
    (healthz signer (load_receipt_store env) version = Raise AttributeError
     <-> cache_enabled env = true
         /\ (FIRESTORE_PROJECT env = None
             \/ FIRESTORE_PROJECT env = Some EmptyString))
    /\ (forall e : exn,
          healthz signer (load_receipt_store env) version = Raise e ->
          e = AttributeError)
    /\ (forall body : dict,
          healthz signer (load_receipt_store env) version = Ret body ->
          exists path : string,
            store_path (load_receipt_store env) = Ret path
            /\ Dict.get "receipts_path" body = Some (JStr path)
            /\ Dict.get "ok" body = Some (JBool true)).
Proof.
  intros lib env signer version. unfold healthz, load_receipt_store.
  destruct (FIRESTORE_PROJECT env) as [[|c p]|] eqn:Ep.
  - destruct (cache_enabled env); simpl; repeat split;
      try discriminate; auto; try (intros [H _]; discriminate H).
    + intros e H. now inversion H.
    + intros body H. inversion H; subst. eexists. repeat split.
  - destruct (FirestoreReceiptStore.init (client_fails env) (String c p));
      simpl; repeat split; try discriminate;
      try (intros [_ [H|H]]; discriminate H).
    + intros body H. inversion H; subst. eexists. repeat split.
    + intros body H. inversion H; subst. eexists. repeat split.
  - destruct (cache_enabled env); simpl; repeat split;
      try discriminate; auto; try (intros [H _]; discriminate H).
    + intros e H. now inversion H.
    + intros body H. inversion H; subst. eexists. repeat split.
Qed.

(** ** The published keys *)

Section Jwks.
Context {ed : Ed25519}.

Lemma dict_elements_objects (ds : list dict) :
  dict_elements (JArr (map JObj ds)) = Ret ds.
Proof.
  unfold dict_elements. cbv beta iota.
  induction ds as [|d ds IH]; simpl; [reflexivity|].
  inversion IH as [E]. now rewrite !E.
Qed.

(** X18. The keys the gateway publishes.  With a signer loaded, the
    first key of [jwks] is the key of the signer, whatever
    [ODIN_ADDITIONAL_PUBLIC_JWKS] holds, and its ["x"] is read back by
    [b64u_decode] as the raw public key; every key published is a
    dictionary; and when the variable holds the JSON text of a
    dictionary whose ["keys"] is a list of dictionaries (not empty, each
    key once), these follow, in their order. *)
Theorem published_keys_start_with_the_signer_key :
  forall (signer : GatewaySigner.t) (additional : option string),
    (exists more : list dict,
       jwks (Some signer) additional
       = [("keys", JArr (map JObj (GatewaySigner.public_jwk signer :: more)))])
    /\ (exists x : string,
          Dict.get "x" (GatewaySigner.public_jwk signer) = Some (JStr x)
          /\ b64u_decode x = Ret (public_bytes (GatewaySigner.seed signer)))
    /\ (forall (d : dict) (ds : list dict),
          unique_keys (JArr (map JObj (d :: ds))) = true ->
          jwks (Some signer)
               (Some (Encoder.json_dumps
                        (JObj [("keys", JArr (map JObj (d :: ds)))])))
          = [("keys",
              JArr (map JObj (GatewaySigner.public_jwk signer :: d :: ds)))]).
Proof.
  intros signer additional. split; [|split].
  - unfold jwks, merge_jwks. cbn [GatewaySigner.public_jwk].
    eexists. reflexivity.
  - eexists. split; [reflexivity|]. apply b64u_decode_b64u.
  - intros d ds Hu. unfold jwks, merge_jwks.
    cbn [GatewaySigner.public_jwk].
    destruct (Encoder.json_dumps (JObj [("keys", JArr (map JObj (d :: ds)))]))
      as [|c s] eqn:E.
    { rewrite dumps_object in E. discriminate E. }
    rewrite <- E. rewrite loads_dumps.
    + assert (Hk : py_or (Dict.get_or_none "keys"
                            [("keys", JArr (map JObj (d :: ds)))])
                         (JArr [])
                   = JArr (map JObj (d :: ds))) by reflexivity.
      cbn [obind as_dict]. rewrite Hk, dict_elements_objects. reflexivity.
    + change (unique_keys (JObj [("keys", JArr (map JObj (d :: ds)))]))
        with (unique_keys (JArr (map JObj (d :: ds))) && true).
      now rewrite Hu.
Qed.

End Jwks.

(** ** The envelope endpoint *)

Section Envelope.
Import Main.
Context {lib : Library} {ed : Ed25519} {urls : Urls}.
Context {Self Env World : Type} {S : Store Self Env World}.
Context {B : Type} {billing : Billing B}.

Lemma text_or_not_empty (a : option string) (b : string) :
  b <> EmptyString -> text_or a b <> EmptyString.
Proof. destruct a as [[|c s]|]; simpl; auto; discriminate. Qed.

Lemma text_or_some (s b : string) :
  s <> EmptyString -> text_or (Some s) b = s.
Proof. destruct s; [congruence|reflexivity]. Qed.

(** The record the handler builds is one the stores take well. *)
Lemma build_receipt_keyed (trace ts : string) (env : Envelope)
    (cid : string) (allowed : bool) (reason : string) :
  trace <> EmptyString ->
  keyed (build_receipt trace ts env cid allowed reason) = true
  /\ plain_key (build_receipt trace ts env cid allowed reason) = true
  /\ well_formed (build_receipt trace ts env cid allowed reason) = true.
Proof.
  intros H. repeat split.
  unfold keyed. simpl. destruct trace; [congruence|reflexivity].
Qed.

(** X19. Nothing is stored for a request that is refused.  The
    handler calls [store.add] at most once, and only when normalization,
    the verification of the MAC and the quota have passed: an answer of
    400, 401, 402 or 500 leaves the store as it was, and so does an
    exception raised before the call.  A forward that the policy blocks
    is answered 403 after the receipt has been stored and counted.  The
    record given to [store.add] always has a string that is not empty
    as ["trace_id"], the integer 0 as hop and a string as timestamp, and
    the receipt in the body of a response is the one the store
    returned. *)
Theorem refused_requests_leave_the_store_alone :
  forall (vars : environ) (signer : option GatewaySigner.t) (store : Self)
         (out : outside Env) (env : Envelope)
         (x_odin_api_key x_odin_api_mac : option string)
         (w : World) (b : B),
    let result :=
      handle_envelope vars signer store out env
        x_odin_api_key x_odin_api_mac w b in
    let w' := fst (snd result) in
    let b' := snd (snd result) in
    let stored (receipt : outcome dict) : Prop :=
      exists record : dict,
        keyed record = true /\ plain_key record = true
        /\ well_formed record = true
        /\ store_add store (store_env out) record w = (receipt, w') in
    let counted : Prop :=
      b' = record_receipt (project_id vars)
             (snd (enforce_quota (project_id vars) b)) in
    match fst result with
    | Return (body, _) =>
        exists receipt : dict,
          stored (Ret receipt) /\ counted
          /\ Dict.get "receipt" body = Some (JObj receipt)
    | HTTPException code _ =>
        if (code =? 403)%Z then
          (exists receipt : dict, stored (Ret receipt)) /\ counted
        else
          w' = w
          /\ (code = 400 \/ code = 401 \/ code = 402 \/ code = 500)%Z
    | Unhandled e => w' = w \/ stored (Raise e)
    end.
Proof.
  intros vars signer store out env key mac w b. cbv zeta.
  unfold handle_envelope.
  destruct (Sft.normalize _ _ _) as [normalized|e0];
    [|cbn; split; auto].
  destruct (Hel.check_forward_allowed _ _) as [[allowed reason]|e1];
    [|cbn; now left].
  set (ts0 := text_or (ts env) (now_iso out)).
  set (trace := text_or (trace_id env) ("trace-" ++ ts0)%string).
  assert (Htrace : trace <> EmptyString)
    by (apply text_or_not_empty; discriminate).
  set (cid := sha256_cid (canonical_json (JObj normalized))).
  pose proof (build_receipt_keyed trace ts0 env cid allowed reason Htrace)
    as (Hk & Hp & Hw).
  assert (Hmac : match verify_mac vars key mac (bound_message cid trace ts0)
                 with
                 | HTTPException code _ => (code = 401 \/ code = 500)%Z
                 | _ => True
                 end).
  { unfold verify_mac.
    destruct (truthy_text (ODIN_API_KEY_SECRETS vars)) as [sj|]; [|exact I].
    destruct (Decoder.json_loads sj) as [km|e]; [|now right].
    destruct (truthy_text key) as [k|]; [|now left].
    destruct (truthy_text mac) as [m|]; [|now left].
    destruct (as_dict km) as [d|e]; [|exact I].
    destruct (negb (Py.truthy (Dict.get_or_none k d))); [now left|].
    destruct (Dict.get_or_none k d); try exact I.
    destruct (negb (Base64.is_ascii m)); [exact I|].
    destruct (String.eqb _ m); [exact I|now left]. }
  destruct (verify_mac vars key mac (bound_message cid trace ts0))
    as [[]|code detail|e2].
  - destruct (enforce_quota (project_id vars) b) as [exceeded b1] eqn:Eq.
    destruct exceeded; [cbn; split; auto|].
    destruct (store_add store (store_env out)
                (build_receipt trace ts0 env cid allowed reason) w)
      as [[receipt|e3] w1] eqn:Eadd.
    + destruct (truthy_text (forward_url env)).
      * destruct allowed; cbn.
        -- exists receipt. repeat split.
           exists (build_receipt trace ts0 env cid true reason).
           now repeat split.
        -- split; [|reflexivity]. exists receipt.
           exists (build_receipt trace ts0 env cid false reason).
           now repeat split.
      * cbn. exists receipt. repeat split.
        exists (build_receipt trace ts0 env cid allowed reason).
        now repeat split.
    + cbn. right.
      exists (build_receipt trace ts0 env cid allowed reason).
      now repeat split.
  - cbn. destruct Hmac as [-> | ->]; cbn; split; auto.
  - cbn. now left.
Qed.

(** A message signed with the secret of a key passes the
    verification. *)
Lemma sha256_digest_length (data : string) :
  String.length (Hmac.sha256_digest data) = 32.
Proof.
  unfold Hmac.sha256_digest. generalize (SHA256.digest data).
  intros [a b0 c d e f g h]. reflexivity.
Qed.

Lemma b64u_mac_text (secret message : string) :
  exists (c : ascii) (s : string),
    b64u (Hmac.hmac_sha256 secret message) = String c s
    /\ Base64.is_ascii (String c s) = true.
Proof.
  destruct (b64u_text (Hmac.hmac_sha256 secret message)) as [Hu Hl].
  unfold Hmac.hmac_sha256 in Hl at 2. rewrite sha256_digest_length in Hl.
  destruct (b64u (Hmac.hmac_sha256 secret message)) as [|c s];
    [discriminate Hl|].
  exists c, s. split; [reflexivity|]. now apply all_url_chars_ascii.
Qed.

Lemma verify_mac_signed (vars : environ) (secrets : dict)
    (key secret message : string) :
  ODIN_API_KEY_SECRETS vars = Some (Encoder.json_dumps (JObj secrets)) ->
  well_formed secrets = true ->
  Dict.get key secrets = Some (JStr secret) ->
  key <> EmptyString -> secret <> EmptyString ->
  verify_mac vars (Some key)
    (Some (b64u (Hmac.hmac_sha256 secret message))) message
  = Return tt.
Proof.
  intros Hs Hw Hg Hk Hsec. unfold verify_mac. rewrite Hs.
  rewrite dumps_object. cbn [append truthy_text].
  change (String "{" (members_text secrets ++ "}"))
    with ("{" ++ members_text secrets ++ "}")%string.
  rewrite <- dumps_object, (loads_dumps _ Hw).
  destruct key as [|kc ks]; [congruence|]. cbn [truthy_text].
  destruct (b64u_mac_text secret message) as (c & s & E & Ha).
  rewrite E. cbn [truthy_text as_dict]. unfold Dict.get_or_none.
  rewrite Hg. destruct secret as [|sc ss]; [congruence|].
  cbn [Py.truthy negb String.eqb]. rewrite Ha. cbn [negb].
  rewrite <- E. now rewrite String.eqb_refl.
Qed.

(** X20. A request signed as the client script signs it is taken as
    if no key were required.  Let [ODIN_API_KEY_SECRETS] hold the JSON
    text of a dictionary that gives the key a secret that is not empty,
    and let the client compute the MAC as [scripts/compute_mac.py] does
    and send the trace and the timestamp it has bound.  Then the handler
    does all it would do with no secrets configured and no key sent:
    the same answer, the same store, the same usage. *)
Theorem signed_request_is_taken_as_without_keys :
  forall (vars : environ) (signer : option GatewaySigner.t) (store : Self)
         (out : outside Env) (raw : dict) (ptype ttype : string)
         (trace_opt ts_opt fwd : option string) (client_now : string)
         (secrets : dict) (key secret trace stamp mac : string)
         (w : World) (b : B),
    ODIN_API_KEY_SECRETS vars = Some (Encoder.json_dumps (JObj secrets)) ->
    well_formed secrets = true ->
    Dict.get key secrets = Some (JStr secret) ->
    key <> EmptyString -> secret <> EmptyString ->
    client_now <> EmptyString ->
    client_mac secret raw ptype ttype trace_opt ts_opt client_now
    = Ret (trace, stamp, mac) ->
    let env :=
      {| payload := raw; payload_type := ptype; target_type := ttype;
         trace_id := Some trace; ts := Some stamp; forward_url := fwd |} in
    let open :=
      {| ODIN_API_KEY_SECRETS := None;
         BILLING_PROJECT_ID := BILLING_PROJECT_ID vars;
         FIRESTORE_PROJECT := FIRESTORE_PROJECT vars;
         HEL_ALLOWLIST := HEL_ALLOWLIST vars |} in
    handle_envelope vars signer store out env (Some key) (Some mac) w b
    = handle_envelope open signer store out env None None w b.
Proof.
  intros vars signer store out raw ptype ttype trace_opt ts_opt fwd
         client_now secrets key secret trace stamp mac w b
         Hs Hw Hg Hk Hsec Hnow Hmac env open.
  unfold client_mac in Hmac.
  destruct (Sft.normalize raw ptype ttype) as [normalized|e] eqn:En;
    [|discriminate].
  cbn [obind] in Hmac. injection Hmac as Ht Hst Hm.
  subst env open trace stamp mac.
  assert (Hstamp : text_or ts_opt client_now <> EmptyString)
    by now apply text_or_not_empty.
  unfold handle_envelope. cbn [payload payload_type target_type].
  rewrite En. cbn [HEL_ALLOWLIST forward_url].
  destruct (Hel.check_forward_allowed (HEL_ALLOWLIST vars) fwd)
    as [[allowed reason]|e]; [|reflexivity].
  cbn [ts trace_id]. cbv zeta.
  rewrite !(text_or_some _ _ Hstamp).
  rewrite !text_or_some by (apply text_or_not_empty; discriminate).
  rewrite (verify_mac_signed vars secrets key secret _ Hs Hw Hg Hk Hsec).
  reflexivity.
Qed.

(** What a response tells of the call of [store.add]. *)
Lemma returned_after_add (vars : environ) (signer : option GatewaySigner.t)
    (store : Self) (out : outside Env) (env : Envelope)
    (key mac : option string) (w w' : World) (b b' : B)
    (body : dict) (headers : list (string * string)) :
  handle_envelope vars signer store out env key mac w b
  = (Return (body, headers), (w', b')) ->
  exists (trace : string) (record receipt : dict),
    trace <> EmptyString
    /\ Dict.get "trace_id" record = Some (JStr trace)
    /\ store_add store (store_env out) record w = (Ret receipt, w')
    /\ Dict.get "trace_id" body = Some (JStr trace)
    /\ Dict.get "receipt" body = Some (JObj receipt).
Proof.
  unfold handle_envelope.
  destruct (Sft.normalize _ _ _) as [normalized|e0]; [|discriminate].
  destruct (Hel.check_forward_allowed _ _) as [[allowed reason]|e1];
    [|discriminate].
  set (ts0 := text_or (ts env) (now_iso out)).
  set (trace := text_or (trace_id env) ("trace-" ++ ts0)%string).
  assert (Htrace : trace <> EmptyString)
    by (apply text_or_not_empty; discriminate).
  destruct (verify_mac _ _ _ _) as [[]|code detail|e2]; try discriminate.
  destruct (enforce_quota (project_id vars) b) as [exceeded b1].
  destruct exceeded; [discriminate|].
  match goal with
  | |- context [store_add store (store_env out) ?r w] => set (record := r)
  end.
  destruct (store_add store (store_env out) record w)
    as [[receipt|e3] w1] eqn:Eadd; [|discriminate].
  intros H. exists trace, record, receipt.
  split; [exact Htrace|]. split; [reflexivity|].
  destruct (truthy_text (forward_url env)).
  - destruct allowed; cbn [negb] in H; [|discriminate].
    inversion H; subst. repeat split. exact Eadd.
  - inversion H; subst. repeat split. exact Eadd.
Qed.

End Envelope.

Section EnvelopeBehindTheCache.
Import Main.
Context {lib : Library} {ed : Ed25519} {urls : Urls}.
Context {B : Type} {billing : Billing B}.

(** What an answered request did to the decorator and to the log. *)
Lemma stored_behind_the_cache (vars : environ)
    (signer : option GatewaySigner.t) (out : outside (Z * Z * Z))
    (env : Envelope) (key mac : option string)
    (c c' : CachingReceiptStore.t ReceiptStore.t)
    (f f' : ReceiptStore.file) (b b' : B)
    (body : dict) (headers : list (string * string)) :
  handle_envelope (S := cached_store (S := file_store))
    vars signer tt out env key mac (c, f) b
  = (Return (body, headers), ((c', f'), b')) ->
  exists (trace : string) (record receipt : dict),
    Dict.get "trace_id" body = Some (JStr trace)
    /\ Dict.get "receipt" body = Some (JObj receipt)
    /\ Dict.get "trace_id" receipt = Some (JStr trace)
    /\ ReceiptStore.add (CachingReceiptStore.store c)
         (fst (fst (store_env out))) record f
       = (Ret receipt, f')
    /\ Dict.mem trace (CachingReceiptStore._chains c') = false
    /\ CachingReceiptStore.store c' = CachingReceiptStore.store c.
Proof.
  intros H.
  apply (returned_after_add (S := cached_store (S := file_store))) in H.
  destruct H as (trace & record & receipt & Hne & Hrec & Hadd & Hbody & Hr).
  exists trace, record, receipt.
  cbn [store_add cached_store] in Hadd.
  assert (Hinner : ReceiptStore.add (CachingReceiptStore.store c)
                     (fst (fst (store_env out))) record f
                   = (Ret receipt, f')).
  { unfold CachingReceiptStore.add in Hadd.
    destruct (store_add (CachingReceiptStore.store c)
                (fst (fst (store_env out))) record f)
      as [[added|e] f0] eqn:Einner; [|discriminate].
    cbn [store_add file_store] in Einner.
    destruct (Py.truthy _); [|now inversion Hadd; subst].
    destruct (CachingReceiptStore.invalidate c _); [|discriminate].
    now inversion Hadd; subst. }
  assert (Hreceipt : Dict.get "trace_id" receipt = Some (JStr trace)).
  { destruct (file_add_returns_receipt _ _ _ _ _ _ Hinner) as [prev ->].
    rewrite receipt_of_other; [exact Hrec|discriminate|discriminate]. }
  destruct (add_evicts _ _ _ _ _ _ _ _ Hadd Hreceipt Hne) as (Hm & _ & Hs).
  repeat split; assumption.
Qed.

(** X21. Through the handler the cache is never left stale.  Let
    the store of the gateway be the decorator over the file-backed store,
    as the selector builds it.  After a request that was answered with a
    receipt, a [chain] of the trace of the response through the decorator
    is a fresh read of the log, whatever the decorator held before: the
    handler never stores a record under an empty key, the one case in
    which [add] leaves a cached chain in place. *)
Theorem envelope_refreshes_the_cached_chain :
  forall (vars : environ) (signer : option GatewaySigner.t)
         (out : outside (Z * Z * Z)) (env : Envelope)
         (key mac : option string)
         (c c' : CachingReceiptStore.t ReceiptStore.t)
         (f f' : ReceiptStore.file) (b b' : B)
         (body : dict) (headers : list (string * string)),
    handle_envelope (S := cached_store (S := file_store))
      vars signer tt out env key mac (c, f) b
    = (Return (body, headers), ((c', f'), b')) ->
    exists trace : string,
      Dict.get "trace_id" body = Some (JStr trace)
      /\ forall clock now now' : Z,
           fst (CachingReceiptStore.chain (S := file_store)
                  clock now now' trace (c', f'))
           = fst (ReceiptStore.chain (CachingReceiptStore.store c')
                    trace f').
Proof.
  intros vars signer out env key mac c c' f f' b b' body headers H.
  apply stored_behind_the_cache in H.
  destruct H as (trace & record & receipt & Hbody & _ & _ & _ & Hm & _).
  exists trace. split; [exact Hbody|]. intros clock now now'.
  apply (chain_without_entry (S := file_store)). exact Hm.
Qed.

(** X22. A receipt that was answered is served.  With the decorator
    over the file-backed store, let a request be answered with a receipt
    that has each key once and no line boundary in its strings.  Then
    every [get_chain] of the trace of the response that returns, right
    after, answers a chain that holds this very receipt, whatever the
    clock reads and whatever the decorator held before. *)
Theorem answered_receipt_is_in_the_chain_served :
  forall (vars : environ) (signer : option GatewaySigner.t)
         (out : outside (Z * Z * Z)) (env : Envelope)
         (key mac : option string)
         (c c' : CachingReceiptStore.t ReceiptStore.t)
         (f f' : ReceiptStore.file) (b b' : B)
         (body : dict) (headers : list (string * string)),
    handle_envelope (S := cached_store (S := file_store))
      vars signer tt out env key mac (c, f) b
    = (Return (body, headers), ((c', f'), b')) ->
    exists (trace : string) (receipt : dict),
      Dict.get "trace_id" body = Some (JStr trace)
      /\ Dict.get "receipt" body = Some (JObj receipt)
      /\ (well_formed receipt = true -> one_line receipt = true ->
          forall (reads : Z * Z * Z) (answer : dict)
                 (after : CachingReceiptStore.t ReceiptStore.t
                          * ReceiptStore.file),
            get_chain (S := cached_store (S := file_store))
              tt reads trace (c', f')
            = (Return answer, after) ->
            exists chain : list dict,
              answer = [("trace_id", JStr trace);
                        ("chain", JArr (map JObj chain))]
              /\ In receipt chain).
Proof.
  intros vars signer out env key mac c c' f f' b b' body headers H.
  apply stored_behind_the_cache in H.
  destruct H as (trace & record & receipt & Hbody & Hrb & Hk & Hadd & Hm & Hs).
  exists trace, receipt. split; [exact Hbody|]. split; [exact Hrb|].
  intros Hw Ho reads answer after Hget.
  destruct (records_after_add _ _ _ _ _ _ _ Hadd Hw Ho Hk) as [_ Hown].
  unfold get_chain in Hget. cbn [store_chain cached_store] in Hget.
  pose proof (chain_without_entry (S := file_store) c' f'
                (fst (fst reads)) (snd (fst reads)) (snd reads) trace Hm)
    as Hfresh.
  destruct (CachingReceiptStore.chain _ _ _ _ _) as [[chain|e] w1];
    [|discriminate].
  inversion Hget; subst answer after. exists chain. split; [reflexivity|].
  cbn [fst store_chain file_store] in Hfresh. rewrite Hs in Hfresh.
  symmetry in Hfresh.
  exact (chain_holds_last_record _ _ _ _ _ _ Hown Hfresh).
Qed.

End EnvelopeBehindTheCache.

(** ** Normalization *)

Lemma invoice_fields (p n : dict) :
  Sft._to_iso20022_invoice p = Ret n ->
  Dict.get "raw_source" n = Some (JObj p)
  /\ Py.truthy (Dict.get_or_none "currency" n) = true.
Proof.
  unfold Sft._to_iso20022_invoice. cbv zeta.
  set (c := py_or (Sft.first p ["currency"; "ccy"; "iso_currency"])
                  (JStr "USD")).
  assert (Hc : Py.truthy c = true).
  { unfold c, py_or.
    destruct (Py.truthy (Sft.first p ["currency"; "ccy"; "iso_currency"]))
      eqn:E; [exact E|reflexivity]. }
  clearbody c.
  repeat match goal with
         | |- context [Sft.first p ?l] => generalize (Sft.first p l); intro
         end.
  destruct (dict_elements _) as [found|e]; [|discriminate].
  cbn [obind]. intros H. inversion H; subst n; clear H.
  split; [reflexivity|exact Hc].
Qed.

(** X23. The normalized form keeps the payload.  When the invoice
    mapping does not apply, [normalize] returns the payload itself.  When
    it applies and returns, the result holds the payload under
    ["raw_source"] and a currency that is never empty or null ("USD"
    when the payload names none).  So a payload that is normalized to
    the same value, for the same types, is the same payload. *)
Theorem normalized_form_keeps_the_payload :
  forall (p n : dict) (payload_type target_type : string),
    Sft.normalize p payload_type target_type = Ret n ->
    (forall p' : dict,
        Sft.normalize p' payload_type target_type = Ret n -> p' = p)
    /\ (Sft.is_invoice payload_type target_type = false -> n = p)
    /\ (Sft.is_invoice payload_type target_type = true ->
        Dict.get "raw_source" n = Some (JObj p)
        /\ Py.truthy (Dict.get_or_none "currency" n) = true).
Proof.
  intros p n pt tt Hn. unfold Sft.normalize in *.
  destruct (Sft.is_invoice pt tt).
  - apply invoice_fields in Hn as [Hraw Hc]. split; [|split].
    + intros p' H'. apply invoice_fields in H' as [Hraw' _]. congruence.
    + discriminate.
    + intros _. now split.
  - inversion Hn; subst n. split; [|split].
    + intros p' H'. now inversion H'.
    + reflexivity.
    + discriminate.
Qed.

Lemma normalized_form_keeps_the_payload_witness :
  Dict.get "raw_source"
    match Sft.normalize [("amount", JInt 5)] "invoice.vendor.v1"
            "invoice.iso20022.v1" with
    | Ret n => n
    | Raise _ => []
    end
  = Some (JObj [("amount", JInt 5)]).
Proof.
  destruct (normalized_form_keeps_the_payload
              [("amount", JInt 5)]
              match Sft.normalize [("amount", JInt 5)] "invoice.vendor.v1"
                      "invoice.iso20022.v1" with
              | Ret n => n
              | Raise _ => []
              end
              "invoice.vendor.v1" "invoice.iso20022.v1")
    as (_ & _ & H).
  - vm_compute. reflexivity.
  - exact (proj1 (H eq_refl)).
Defined.

Lemma signed_request_is_taken_as_without_keys_witness :
  GatewaySample.handle GatewaySample.vars (Some "k1")
    (Some (snd GatewaySample.signed)) CacheSample.fresh_cache None 0
  = GatewaySample.handle GatewaySample.no_keys None None
      CacheSample.fresh_cache None 0.
Proof.
  apply (signed_request_is_taken_as_without_keys
           (ed := GatewaySample.ed25519)
           (urls := GatewaySample.urls)
           (S := cached_store (S := file_store (lib := Reference.library)))
           (billing := GatewaySample.free_tier)
           GatewaySample.vars None tt _ GatewaySample.invoice
           "invoice.vendor.v1" "invoice.iso20022.v1"
           (Some "trace-x") None None "2025-01-01T00:00:00+00:00"
           GatewaySample.secrets "k1" "s3cret").
  - reflexivity.
  - reflexivity.
  - reflexivity.
  - discriminate.
  - discriminate.
  - discriminate.
  - vm_compute. reflexivity.
Defined.

Lemma envelope_refreshes_the_cached_chain_witness :
  exists trace : string,
    Dict.get "trace_id" GatewaySample.body = Some (JStr trace)
    /\ forall clock now now' : Z,
         fst (CachingReceiptStore.chain
                (S := file_store (lib := Reference.library))
                clock now now' trace
                (GatewaySample.cache_after, GatewaySample.log_after))
         = fst (ReceiptStore.chain
                  (CachingReceiptStore.store GatewaySample.cache_after)
                  trace GatewaySample.log_after).
Proof.
  apply (envelope_refreshes_the_cached_chain
           (lib := Reference.library) (ed := GatewaySample.ed25519)
           (urls := GatewaySample.urls)
           (billing := GatewaySample.free_tier)
           GatewaySample.vars None
           {| Main.now_iso := "2025-01-01T00:00:05+00:00";
              Main.store_env := (0%Z, 0%Z, 0%Z);
              Main.forward_answer := inl 200%Z |}
           GatewaySample.envelope (Some "k1")
           (Some (snd GatewaySample.signed))
           GatewaySample.warm GatewaySample.cache_after
           None GatewaySample.log_after 0%Z 1%Z
           GatewaySample.body GatewaySample.headers).
  vm_compute. reflexivity.
Defined.

Lemma answered_receipt_is_in_the_chain_served_witness :
  exists (trace : string) (receipt : dict),
    Dict.get "trace_id" GatewaySample.body = Some (JStr trace)
    /\ Dict.get "receipt" GatewaySample.body = Some (JObj receipt)
    /\ (well_formed receipt = true -> one_line receipt = true ->
        forall (reads : Z * Z * Z) (answer : dict)
               (after : CachingReceiptStore.t ReceiptStore.t
                        * ReceiptStore.file),
          Main.get_chain
            (S := cached_store (S := file_store (lib := Reference.library)))
            tt reads trace
            (GatewaySample.cache_after, GatewaySample.log_after)
          = (Main.Return answer, after) ->
          exists chain : list dict,
            answer = [("trace_id", JStr trace);
                      ("chain", JArr (map JObj chain))]
            /\ In receipt chain).
Proof.
  apply (answered_receipt_is_in_the_chain_served
           (lib := Reference.library) (ed := GatewaySample.ed25519)
           (urls := GatewaySample.urls)
           (billing := GatewaySample.free_tier)
           GatewaySample.vars None
           {| Main.now_iso := "2025-01-01T00:00:05+00:00";
              Main.store_env := (0%Z, 0%Z, 0%Z);
              Main.forward_answer := inl 200%Z |}
           GatewaySample.envelope (Some "k1")
           (Some (snd GatewaySample.signed))
           GatewaySample.warm GatewaySample.cache_after
           None GatewaySample.log_after 0%Z 1%Z
           GatewaySample.body GatewaySample.headers).
  vm_compute. reflexivity.
Defined.
